(** * Fail2Shield: a shallow embedding of [utils.py], [fail2ban_manager.py]
      and the operations of [app.py] that drive them

    Python text is modelled by [string], a sequence of [ascii] characters:
    ASCII text as it is, other text as the bytes of its UTF-8 encoding,
    which keeps equality, concatenation and the search for an ASCII text
    as they are.  The development covers ASCII text (log files and the
    output of the ban-management tool): the character classes below list
    the ASCII members of Python's classes.  Outside ASCII Python's
    whitespace, [\d] and [\w] have more members, so a statement that
    would not survive them is made of ASCII text ([is_ascii]).  Integers
    are [Z].  Dictionaries with a
    fixed set of keys are records; the geolocation caches, which are keyed
    by arbitrary text, are [gmap string _], and so are the dictionaries of
    counters and of lists that are keyed by an address, a user or a jail:
    the order of their keys plays no part in what is proved.

    CPython writes no integer of more than 4300 digits.  [str_of_int] is
    the text of an integer below that size; [str_of_int_checked] is the
    conversion together with its [ValueError]. *)

From Stdlib Require Import String Ascii List ZArith Lia Bool.
From stdpp Require Import base option gmap strings.
Import ListNotations.

Local Open Scope Z_scope.

(** Text concatenation, [s1 + s2], unfolds on a literal first operand. *)
#[local] Arguments String.append !_ _ / : simpl nomatch.

(* ================================================================== *)
(** ** Python [str] primitives used by the source *)
(* ================================================================== *)

Module PyStr.

(** The double quote and the backslash, by code. *)
Definition dquote : ascii := "034"%char.
Definition backslash : ascii := "092"%char.

(** [str.isspace] on one ASCII character: TAB, LF, VT, FF, CR, the four
    separators FS, GS, RS, US, and the space. *)
Definition is_space (c : ascii) : bool :=
  let n := N_of_ascii c in
  (((9 <=? n) && (n <=? 13)) || ((28 <=? n) && (n <=? 32)))%N.

Definition is_digit (c : ascii) : bool :=
  let n := N_of_ascii c in ((48 <=? n) && (n <=? 57))%N.

Definition is_alpha (c : ascii) : bool :=
  let n := N_of_ascii c in
  (((65 <=? n) && (n <=? 90)) || ((97 <=? n) && (n <=? 122)))%N.

(** Hexadecimal digits, the set [_HEX_DIGITS] of [ipaddress]. *)
Definition is_hex (c : ascii) : bool :=
  let n := N_of_ascii c in
  (is_digit c || ((65 <=? n) && (n <=? 70)) || ((97 <=? n) && (n <=? 102)))%N.

(** [len(s)] *)
Definition len (s : string) : nat := String.length s.

(** [s.isascii()]: every character is below 128. *)
Definition is_ascii_chr (c : ascii) : bool := (N_of_ascii c <? 128)%N.

Fixpoint is_ascii (s : string) : bool :=
  match s with
  | EmptyString => true
  | String c s' => is_ascii_chr c && is_ascii s'
  end.

(** [not s] *)
Definition is_empty (s : string) : bool :=
  match s with EmptyString => true | String _ _ => false end.

(** [c in s] for a one-character [c]. *)
Fixpoint has_char (c : ascii) (s : string) : bool :=
  match s with
  | EmptyString => false
  | String a s' => Ascii.eqb a c || has_char c s'
  end.

(** [s.startswith(p)] *)
Fixpoint starts_with (p s : string) : bool :=
  match p, s with
  | EmptyString, _ => true
  | String a p', String b s' => Ascii.eqb a b && starts_with p' s'
  | String _ _, EmptyString => false
  end.

(** [sub in s] *)
Fixpoint contains (sub s : string) : bool :=
  starts_with sub s ||
  match s with
  | EmptyString => false
  | String _ s' => contains sub s'
  end.

(** [s.replace(old, new)] for a one-character [old]. *)
Fixpoint replace_chr (old : ascii) (new : string) (s : string) : string :=
  match s with
  | EmptyString => EmptyString
  | String a s' =>
      if Ascii.eqb a old then new +:+ replace_chr old new s'
      else String a (replace_chr old new s')
  end.

(** [s.lstrip()], [s.rstrip()], [s.strip()] *)
Fixpoint lstrip (s : string) : string :=
  match s with
  | EmptyString => EmptyString
  | String c s' => if is_space c then lstrip s' else s
  end.

Fixpoint rstrip (s : string) : string :=
  match s with
  | EmptyString => EmptyString
  | String c s' =>
      match rstrip s' with
      | EmptyString => if is_space c then EmptyString else String c EmptyString
      | r => String c r
      end
  end.

Definition strip (s : string) : string := rstrip (lstrip s).

(** [s.split(sep)] for a one-character [sep]: the result is never empty. *)
Fixpoint split_chr (sep : ascii) (s : string) : list string :=
  match s with
  | EmptyString => [EmptyString]
  | String c s' =>
      if Ascii.eqb c sep then EmptyString :: split_chr sep s'
      else match split_chr sep s' with
           | w :: ws => String c w :: ws
           | [] => [String c EmptyString]
           end
  end.

(** [s.partition(sep)] for a one-character [sep]: the text before the
    first [sep], whether [sep] was found, and the text after it. *)
Fixpoint partition_chr (sep : ascii) (s : string) : string * bool * string :=
  match s with
  | EmptyString => (EmptyString, false, EmptyString)
  | String c s' =>
      if Ascii.eqb c sep then (EmptyString, true, s')
      else let '(a, found, b) := partition_chr sep s' in (String c a, found, b)
  end.

(** [s.split(sep, 1)[1]] for a one-character [sep]; [None] stands for the
    [IndexError] raised when [sep] does not occur. *)
Definition after_first (sep : ascii) (s : string) : option string :=
  let '(_, found, b) := partition_chr sep s in
  if found then Some b else None.

(** [s.split()]: the maximal runs of characters that are not whitespace. *)
Fixpoint split_ws_aux (cur : option string) (s : string) : list string :=
  match s with
  | EmptyString => match cur with Some w => [w] | None => [] end
  | String c s' =>
      if is_space c then
        match cur with
        | Some w => w :: split_ws_aux None s'
        | None => split_ws_aux None s'
        end
      else
        match cur with
        | Some w => split_ws_aux (Some (w +:+ String c EmptyString)) s'
        | None => split_ws_aux (Some (String c EmptyString)) s'
        end
  end.

Definition split_ws (s : string) : list string := split_ws_aux None s.

(** [str(n)] for an [int]. *)
Definition digit_chr (d : Z) : ascii := ascii_of_N (Z.to_N (48 + d)).

Fixpoint str_of_pos_aux (fuel : nat) (n : Z) (acc : string) : string :=
  match fuel with
  | O => acc
  | S fuel' =>
      let acc' := String (digit_chr (n mod 10)) acc in
      if n <? 10 then acc' else str_of_pos_aux fuel' (n / 10) acc'
  end.

Definition str_of_int (n : Z) : string :=
  if n <? 0 then String "-" (str_of_pos_aux (Z.to_nat (Z.log2 (- n)) + 1) (- n) EmptyString)
  else str_of_pos_aux (Z.to_nat (Z.log2 n) + 1) n EmptyString.

(** [int(s, base)] on a text already known to consist of digits of that
    base: the value, most significant digit first. *)
Definition digit_val (c : ascii) : Z :=
  let n := Z.of_N (N_of_ascii c) in
  if is_digit c then n - 48
  else if (n <=? 70) then n - 55 else n - 87.

Fixpoint int_of_digits (base : Z) (acc : Z) (s : string) : Z :=
  match s with
  | EmptyString => acc
  | String c s' => int_of_digits base (acc * base + digit_val c) s'
  end.

(** [s[0]] and [s[-1]], when [s] is not empty. *)
Definition head_chr (s : string) : option ascii :=
  match s with EmptyString => None | String c _ => Some c end.

Fixpoint last_chr (s : string) : option ascii :=
  match s with
  | EmptyString => None
  | String c s' => match last_chr s' with Some d => Some d | None => Some c end
  end.

(** [int(s)] on a decimal text with an optional minus sign. *)
Definition int_of_str (s : string) : Z :=
  match s with
  | String "-" digits => - int_of_digits 10 0 digits
  | _ => int_of_digits 10 0 s
  end.

(** [s1 or s2] on text: the first operand unless it is empty. *)
Definition str_or (s1 s2 : string) : string :=
  if is_empty s1 then s2 else s1.

(** [s.lower()] on ASCII text. *)
Definition lower_chr (c : ascii) : ascii :=
  let n := N_of_ascii c in
  if ((65 <=? n) && (n <=? 90))%N then ascii_of_N (n + 32) else c.

Fixpoint lower (s : string) : string :=
  match s with
  | EmptyString => EmptyString
  | String c s' => String (lower_chr c) (lower s')
  end.

(** [s.split(sep)] for a separator of one character or more: the
    occurrences of [sep] are found left to right and do not overlap.
    [skip] counts the characters of an occurrence still to pass. *)
Fixpoint split_str_aux (sep : string) (skip : nat) (s : string) : list string :=
  match skip, s with
  | S k, String _ s' => split_str_aux sep k s'
  | S _, EmptyString => [EmptyString]
  | O, EmptyString => [EmptyString]
  | O, String c s' =>
      if starts_with sep s then EmptyString :: split_str_aux sep (len sep - 1) s'
      else match split_str_aux sep 0 s' with
           | w :: ws => String c w :: ws
           | [] => [String c EmptyString]
           end
  end.

Definition split_str (sep s : string) : list string := split_str_aux sep 0 s.

(** [repr(s)] on ASCII text: single quotes unless the text holds a single
    quote and no double quote; the quote and the backslash are escaped,
    TAB, LF and CR are written [\t], [\n], [\r], and the other characters
    that are not printable as [\xhh]. *)
Definition hex_chr (d : N) : ascii :=
  if (d <? 10)%N then ascii_of_N (48 + d) else ascii_of_N (87 + d).

Definition repr_chr (quote c : ascii) : string :=
  let n := N_of_ascii c in
  if Ascii.eqb c quote || Ascii.eqb c backslash then String backslash (String c "")
  else if Ascii.eqb c "009" then String backslash "t"
  else if Ascii.eqb c "010" then String backslash "n"
  else if Ascii.eqb c "013" then String backslash "r"
  else if ((n <? 32) || (n =? 127))%N then
    String backslash (String "x" (String (hex_chr (n / 16)) (String (hex_chr (n mod 16)) "")))
  else String c "".

Fixpoint repr_body (quote : ascii) (s : string) : string :=
  match s with
  | EmptyString => EmptyString
  | String c s' => repr_chr quote c +:+ repr_body quote s'
  end.

Definition repr_str (s : string) : string :=
  let quote := if has_char "'" s && negb (has_char dquote s) then dquote else "'"%char in
  String quote (repr_body quote s) +:+ String quote "".

(** [sep.join(l)] *)
Fixpoint join_str (sep : string) (l : list string) : string :=
  match l with
  | [] => EmptyString
  | [w] => w
  | w :: rest => w +:+ sep +:+ join_str sep rest
  end.

(** [str(l)] for a list of texts. *)
Definition str_of_list (l : list string) : string :=
  "[" +:+ join_str ", " (map repr_str l) +:+ "]".

(** [sys.get_int_max_str_digits()] *)
Definition MAX_STR_DIGITS : nat := 4300.

(** [str(n)] where the size of [n] is not known: CPython refuses to
    write an integer of more than 4300 digits; [inl] is the message of
    that [ValueError]. *)
Definition digits_limit_message : string :=
  "Exceeds the limit (4300 digits) for integer string conversion; use sys.set_int_max_str_digits() to increase the limit".

Definition str_of_int_checked (n : Z) : string + string :=
  if (MAX_STR_DIGITS <? len (str_of_int (Z.abs n)))%nat then inl digits_limit_message
  else inr (str_of_int n).

End PyStr.

(* ================================================================== *)
(** ** The standard library's [ipaddress] (CPython 3.11), as far as
       [ip_address], [is_private], [is_loopback] and [is_link_local] go.
       [None] stands for a raised [AddressValueError] / [ValueError]. *)
(* ================================================================== *)

Module IpAddress.
Import PyStr.

Inductive address : Type :=
| IPv4Address (ip : Z)
| IPv6Address (ip : Z) (scope_id : option string).

Fixpoint all_chars (p : ascii -> bool) (s : string) : bool :=
  match s with
  | EmptyString => true
  | String c s' => p c && all_chars p s'
  end.

Definition first_is (c : ascii) (s : string) : bool :=
  match s with String a _ => Ascii.eqb a c | EmptyString => false end.

(** [_parse_octet] *)
Definition parse_octet (octet_str : string) : option Z :=
  if is_empty octet_str then None
  else if negb (all_chars is_digit octet_str) then None
  else if (3 <? len octet_str)%nat then None
  else if negb (String.eqb octet_str "0") && first_is "0" octet_str then None
  else
    let octet_int := int_of_digits 10 0 octet_str in
    if 255 <? octet_int then None else Some octet_int.

(** [int.from_bytes(octets, 'big')] *)
Definition from_bytes_big (octets : list Z) : Z :=
  fold_left (fun acc o => acc * 256 + o) octets 0.

(** [IPv4Address._ip_int_from_string] *)
Definition v4_ip_int_from_string (ip_str : string) : option Z :=
  if is_empty ip_str then None
  else
    let octets := split_chr "." ip_str in
    if negb (length octets =? 4)%nat then None
    else from_bytes_big <$> mapM parse_octet octets.

(** [IPv4Address(address)] for text. *)
Definition v4_of_str (address : string) : option Z :=
  if has_char "/" address then None else v4_ip_int_from_string address.

(** ['%x' % n] for [0 <= n]. *)
Definition hex_chr (d : Z) : ascii :=
  if d <? 10 then ascii_of_N (Z.to_N (48 + d)) else ascii_of_N (Z.to_N (87 + d)).

Fixpoint hex_aux (fuel : nat) (n : Z) (acc : string) : string :=
  match fuel with
  | O => acc
  | S fuel' =>
      let acc' := String (hex_chr (n mod 16)) acc in
      if n <? 16 then acc' else hex_aux fuel' (n / 16) acc'
  end.

Definition hex_of_int (n : Z) : string :=
  hex_aux (Z.to_nat (Z.log2 n) + 1) n EmptyString.

(** [_parse_hextet]: [int('', 16)] raises as well. *)
Definition parse_hextet (hextet_str : string) : option Z :=
  if negb (all_chars is_hex hextet_str) then None
  else if (4 <? len hextet_str)%nat then None
  else if is_empty hextet_str then None
  else Some (int_of_digits 16 0 hextet_str).

(** The loop that looks for the one empty part strictly inside [parts]:
    [Some None] no such part, [Some (Some i)] its index, [None] two of
    them.  [i] is the index of the head of [inner]. *)
Fixpoint find_skip (i : nat) (inner : list string) (skip_index : option nat)
  : option (option nat) :=
  match inner with
  | [] => Some skip_index
  | p :: rest =>
      if is_empty p then
        match skip_index with
        | Some _ => None
        | None => find_skip (S i) rest (Some i)
        end
      else find_skip (S i) rest skip_index
  end.

(** [ip_int <<= 16; ip_int |= _parse_hextet(part)] over a run of parts. *)
Fixpoint add_hextets (ip_int : Z) (parts : list string) : option Z :=
  match parts with
  | [] => Some ip_int
  | p :: rest =>
      match parse_hextet p with
      | None => None
      | Some h => add_hextets (Z.lor (Z.shiftl ip_int 16) h) rest
      end
  end.

Definition HEXTET_COUNT : nat := 8.

(** The part of [IPv6Address._ip_int_from_string] after the IPv4 suffix
    has been rewritten. *)
Definition v6_int_from_parts (parts : list string) : option Z :=
  if (HEXTET_COUNT + 1 <? length parts)%nat then None
  else
    match find_skip 1 (removelast (tl parts)) None with
    | None => None
    | Some skip =>
        let first_empty := is_empty (hd EmptyString parts) in
        let last_empty := is_empty (List.last parts EmptyString) in
        let layout : option (nat * nat * nat) :=
          match skip with
          | Some skip_index =>
              let parts_hi := skip_index in
              let parts_lo := (length parts - skip_index - 1)%nat in
              let parts_hi' := if first_empty then (parts_hi - 1)%nat else parts_hi in
              if first_empty && negb (parts_hi' =? 0)%nat then None
              else
                let parts_lo' := if last_empty then (parts_lo - 1)%nat else parts_lo in
                if last_empty && negb (parts_lo' =? 0)%nat then None
                else if (HEXTET_COUNT <=? parts_hi' + parts_lo')%nat then None
                else Some (parts_hi', parts_lo',
                           (HEXTET_COUNT - (parts_hi' + parts_lo'))%nat)
          | None =>
              if negb (length parts =? HEXTET_COUNT)%nat then None
              else if first_empty then None
              else if last_empty then None
              else Some (length parts, O, O)
          end in
        match layout with
        | None => None
        | Some (parts_hi, parts_lo, parts_skipped) =>
            match add_hextets 0 (firstn parts_hi parts) with
            | None => None
            | Some hi =>
                add_hextets (Z.shiftl hi (16 * Z.of_nat parts_skipped))
                            (skipn (length parts - parts_lo) parts)
            end
        end
    end.

(** [IPv6Address._ip_int_from_string] *)
Definition v6_ip_int_from_string (ip_str : string) : option Z :=
  if is_empty ip_str then None
  else
    let parts := split_chr ":" ip_str in
    if (length parts <? 3)%nat then None
    else if has_char "." (List.last parts EmptyString) then
      match v4_of_str (List.last parts EmptyString) with
      | None => None
      | Some ipv4_int =>
          v6_int_from_parts
            (removelast parts ++
             [hex_of_int (Z.land (Z.shiftr ipv4_int 16) 65535);
              hex_of_int (Z.land ipv4_int 65535)])
      end
    else v6_int_from_parts parts.

(** [_split_scope_id] *)
Definition split_scope_id (ip_str : string) : option (string * option string) :=
  let '(addr, sep, scope_id) := partition_chr "%" ip_str in
  if negb sep then Some (addr, None)
  else if is_empty scope_id || has_char "%" scope_id then None
  else Some (addr, Some scope_id).

(** [IPv6Address(address)] for text. *)
Definition v6_of_str (address : string) : option (Z * option string) :=
  if has_char "/" address then None
  else
    match split_scope_id address with
    | None => None
    | Some (addr_str, scope_id) =>
        match v6_ip_int_from_string addr_str with
        | None => None
        | Some ip => Some (ip, scope_id)
        end
    end.

(** [ipaddress.ip_address(address)] *)
Definition ip_address (text : string) : option address :=
  match v4_of_str text with
  | Some ip => Some (IPv4Address ip)
  | None =>
      match v6_of_str text with
      | Some (ip, scope_id) => Some (IPv6Address ip scope_id)
      | None => None
      end
  end.

(** A network: its address, its prefix length and the width of the family. *)
Record network : Type := Network { network_address : Z; prefixlen : Z; width : Z }.

Definition ALL_ONES (w : Z) : Z := 2 ^ w - 1.

Definition netmask (n : network) : Z :=
  Z.lxor (ALL_ONES (width n)) (Z.shiftr (ALL_ONES (width n)) (prefixlen n)).

(** [_BaseNetwork.__contains__] on an address of the same family. *)
Definition net_contains (n : network) (ip : Z) : bool :=
  Z.land ip (netmask n) =? network_address n.

Definition IPv4Network (s : string) (plen : Z) : network :=
  Network (default 0 (v4_of_str s)) plen 32.

Definition IPv6Network (s : string) (plen : Z) : network :=
  Network (default 0 (fst <$> v6_of_str s)) plen 128.

Module IPv4Constants.
Definition linklocal_network := IPv4Network "169.254.0.0" 16.
Definition loopback_network := IPv4Network "127.0.0.0" 8.
Definition private_networks : list network :=
  [ IPv4Network "0.0.0.0" 8; IPv4Network "10.0.0.0" 8;
    IPv4Network "127.0.0.0" 8; IPv4Network "169.254.0.0" 16;
    IPv4Network "172.16.0.0" 12; IPv4Network "192.0.0.0" 24;
    IPv4Network "192.0.0.170" 31; IPv4Network "192.0.2.0" 24;
    IPv4Network "192.168.0.0" 16; IPv4Network "198.18.0.0" 15;
    IPv4Network "198.51.100.0" 24; IPv4Network "203.0.113.0" 24;
    IPv4Network "240.0.0.0" 4; IPv4Network "255.255.255.255" 32 ].
Definition private_networks_exceptions : list network :=
  [ IPv4Network "192.0.0.9" 32; IPv4Network "192.0.0.10" 32 ].
End IPv4Constants.

Module IPv6Constants.
Definition linklocal_network := IPv6Network "fe80::" 10.
Definition private_networks : list network :=
  [ IPv6Network "::1" 128; IPv6Network "::" 128;
    IPv6Network "::ffff:0:0" 96; IPv6Network "64:ff9b:1::" 48;
    IPv6Network "100::" 64; IPv6Network "2001::" 23;
    IPv6Network "2001:db8::" 32; IPv6Network "2002::" 16;
    IPv6Network "fc00::" 7; IPv6Network "fe80::" 10 ].
Definition private_networks_exceptions : list network :=
  [ IPv6Network "2001:1::1" 128; IPv6Network "2001:1::2" 128;
    IPv6Network "2001:3::" 32; IPv6Network "2001:4:112::" 48;
    IPv6Network "2001:20::" 28; IPv6Network "2001:30::" 28 ].
End IPv6Constants.

Definition v4_is_private (ip : Z) : bool :=
  existsb (fun net => net_contains net ip) IPv4Constants.private_networks
  && forallb (fun net => negb (net_contains net ip))
             IPv4Constants.private_networks_exceptions.

(** [IPv6Address.ipv4_mapped] *)
Definition ipv4_mapped (ip : Z) : option Z :=
  if negb (Z.shiftr ip 32 =? 65535) then None
  else Some (Z.land ip 4294967295).

Definition is_private (a : address) : bool :=
  match a with
  | IPv4Address ip => v4_is_private ip
  | IPv6Address ip _ =>
      match ipv4_mapped ip with
      | Some ip4 => v4_is_private ip4
      | None =>
          existsb (fun net => net_contains net ip) IPv6Constants.private_networks
          && forallb (fun net => negb (net_contains net ip))
                     IPv6Constants.private_networks_exceptions
      end
  end.

Definition is_loopback (a : address) : bool :=
  match a with
  | IPv4Address ip => net_contains IPv4Constants.loopback_network ip
  | IPv6Address ip _ => ip =? 1
  end.

Definition is_link_local (a : address) : bool :=
  match a with
  | IPv4Address ip => net_contains IPv4Constants.linklocal_network ip
  | IPv6Address ip _ => net_contains IPv6Constants.linklocal_network ip
  end.

End IpAddress.

(* ================================================================== *)
(** ** The texts of IPv4 and IPv6 addresses, described on their own *)
(* ================================================================== *)

Module IpText.
Import PyStr.

(** [sep.join(parts)] for a one-character [sep]. *)
Fixpoint join (sep : ascii) (parts : list string) : string :=
  match parts with
  | [] => EmptyString
  | x :: rest =>
      match rest with
      | [] => x
      | _ => x +:+ String sep (join sep rest)
      end
  end.

(** An IPv4 text: four integers from 0 to 255, each written in decimal
    without leading zeros, separated by dots. *)
Definition ipv4_text (s : string) : Prop :=
  exists a b c d : Z,
    0 <= a <= 255 /\ 0 <= b <= 255 /\ 0 <= c <= 255 /\ 0 <= d <= 255
    /\ s = join "." [str_of_int a; str_of_int b; str_of_int c; str_of_int d].

(** One to four hexadecimal digits. *)
Definition hextet (h : string) : Prop :=
  IpAddress.all_chars is_hex h = true /\ (1 <= len h <= 4)%nat.

(** [v6_groups gs n]: the texts [gs] stand for [n] groups of 16 bits; all
    are hextets, but the last may be an IPv4 text, which stands for two. *)
Inductive v6_groups : list string -> nat -> Prop :=
| groups_hex hs : Forall hextet hs -> v6_groups hs (length hs)
| groups_v4 hs q :
    Forall hextet hs -> ipv4_text q -> v6_groups (hs ++ [q]) (length hs + 2).

(** An IPv6 text: eight groups separated by colons, or fewer groups
    around one [::] that stands for the missing ones, at least one. *)
Definition ipv6_text (s : string) : Prop :=
  (exists gs, v6_groups gs 8 /\ s = join ":" gs)
  \/ (exists hi lo n,
        Forall hextet hi /\ v6_groups lo n /\ (length hi + n <= 7)%nat
        /\ s = join ":" hi +:+ "::" +:+ join ":" lo).

(** A scope identifier: any non-empty text without [%] and [/]. *)
Definition scope_text (z : string) : Prop :=
  z <> EmptyString /\ has_char "%" z = false /\ has_char "/" z = false.

(** The texts [ipaddress] takes for an address. *)
Definition ip_text (s : string) : Prop :=
  ipv4_text s
  \/ ipv6_text s
  \/ exists a z, ipv6_text a /\ scope_text z /\ s = a +:+ String "%" z.

(** The text before the first [%] of [s], all of [s] when it has none. *)
Definition before_scope (s : string) : string := fst (fst (partition_chr "%" s)).

(** The lists of parts [v6_int_from_parts] accepts, described on their
    own: eight hextets, or hextets around one empty part, with one more
    empty part at an end where no hextet stands. *)
Definition edge (side : list string) : list string :=
  match side with [] => [EmptyString] | _ => [] end.

Definition accepted_parts (parts : list string) : Prop :=
  (Forall hextet parts /\ length parts = 8%nat)
  \/ (exists hi lo,
        Forall hextet hi /\ Forall hextet lo /\ (length hi + length lo <= 7)%nat
        /\ parts = edge hi ++ hi ++ [EmptyString] ++ lo ++ edge lo).

(** Checks over finite ranges, run once. *)
Fixpoint range_from (count : nat) (start : Z) : list Z :=
  match count with
  | O => []
  | S count' => start :: range_from count' (start + 1)
  end.

Definition range (n : Z) : list Z := range_from (Z.to_nat n) 0.

Definition octet_ok (n : Z) : bool :=
  match IpAddress.parse_octet (str_of_int n) with
  | Some m => (m =? n) && IpAddress.all_chars is_digit (str_of_int n)
  | None => false
  end.

Definition digits_ok (o : string) : bool :=
  match IpAddress.parse_octet o with
  | Some n => (0 <=? n) && (n <=? 255) && String.eqb (str_of_int n) o
  | None => true
  end.

Definition text_of_digits (ds : list Z) : string :=
  fold_right (fun d acc => String (digit_chr d) acc) EmptyString ds.

Definition hextet_ok (n : Z) : bool :=
  let h := IpAddress.hex_of_int n in
  IpAddress.all_chars is_hex h && (1 <=? len h)%nat && (len h <=? 4)%nat.

End IpText.

(* ================================================================== *)
(** ** [utils.py]: [validate_ip_address] *)
(* ================================================================== *)

Definition validate_ip_address (ip : string) : bool :=
  match IpAddress.ip_address ip with
  | Some _ => true
  | None => false
  end.

(* ================================================================== *)
(** ** [utils.py]: [sanitize_input] *)
(* ================================================================== *)

Definition dangerous_chars : list ascii :=
  [";"; "&"; "|"; "`"; "$"; "("; ")"; "<"; ">"; PyStr.dquote; "'"; PyStr.backslash]%char.

(** The loop [for char in chars: sanitized = sanitized.replace(char, '')]. *)
Definition strip_all (chars : list ascii) (s : string) : string :=
  fold_left (fun sanitized char => PyStr.replace_chr char "" sanitized) chars s.

Definition sanitize_input (input_str : string) : string :=
  let sanitized := strip_all dangerous_chars input_str in
  PyStr.strip sanitized.

(* ================================================================== *)
(** ** The regular expressions of [re], as far as the patterns of
       [utils.py] use them: a backtracking matcher with greedy
       quantifiers and numbered groups, and [re.search]. *)
(* ================================================================== *)

Module Re.
Import PyStr.

(** One-character items: [\d], [\w], [\s] and [.] (any character but a
    line feed).  [cls_matches] lists the ASCII members of the first
    three. *)
Inductive cls : Type := Digit | Word | Space | AnyChar.

Definition cls_matches (k : cls) (c : ascii) : bool :=
  match k with
  | Digit => is_digit c
  | Word => is_alpha c || is_digit c || Ascii.eqb c "_"
  | Space => is_space c
  | AnyChar => negb (Ascii.eqb c "010")
  end.

Inductive regex : Type :=
| Lit (t : string)                            (* literal text *)
| Rep (k : cls) (lo : nat) (hi : option nat)  (* k{lo,hi}, k+, k*: greedy *)
| Opt (r : regex)                             (* (?:r)? *)
| Group (n : nat) (r : regex)                 (* the n-th ( ) *)
| Seq (r1 r2 : regex).

Definition groups : Type := list (nat * string).

(** [m.group(n)]: the text last captured by group [n]. *)
Fixpoint group (n : nat) (g : groups) : option string :=
  match g with
  | [] => None
  | (k, w) :: g' => if (k =? n)%nat then Some w else group n g'
  end.

Fixpoint take (n : nat) (s : string) : string :=
  match n, s with
  | S n', String c s' => String c (take n' s')
  | _, _ => EmptyString
  end.

(** The text between a position [s] and a later position [s']. *)
Definition consumed (s s' : string) : string := take (len s - len s') s.

Fixpoint strip_prefix (t s : string) : option string :=
  match t, s with
  | EmptyString, _ => Some s
  | String a t', String b s' => if Ascii.eqb a b then strip_prefix t' s' else None
  | String _ _, EmptyString => None
  end.

Definition more_allowed (hi : option nat) : bool :=
  match hi with Some O => false | _ => true end.

Section Matcher.
Context {A : Type}.

(** Greedy repetition of a one-character item: take one more character
    while allowed, and give characters back one at a time when the
    rest of the pattern fails. *)
Fixpoint m_rep (p : ascii -> bool) (lo : nat) (hi : option nat) (s : string)
         (cont : string -> option A) {struct s} : option A :=
  let stop := if (lo =? 0)%nat then cont s else None in
  match s with
  | String c s' =>
      if p c && more_allowed hi then
        match m_rep p (pred lo) (pred <$> hi) s' cont with
        | Some x => Some x
        | None => stop
        end
      else stop
  | EmptyString => stop
  end.

Fixpoint m (r : regex) (s : string) (g : groups)
         (cont : string -> groups -> option A) {struct r} : option A :=
  match r with
  | Lit t =>
      match strip_prefix t s with
      | Some s' => cont s' g
      | None => None
      end
  | Rep k lo hi => m_rep (cls_matches k) lo hi s (fun s' => cont s' g)
  | Opt r1 =>
      match m r1 s g cont with
      | Some x => Some x
      | None => cont s g
      end
  | Group n r1 => m r1 s g (fun s' g' => cont s' ((n, consumed s s') :: g'))
  | Seq r1 r2 => m r1 s g (fun s' g' => m r2 s' g' cont)
  end.
End Matcher.

(** [re.search(pattern, line)]: the first start position, left to right,
    at which the pattern matches; the groups of that match. *)
Fixpoint search (r : regex) (s : string) : option groups :=
  match m r s [] (fun _ g => Some g) with
  | Some g => Some g
  | None =>
      match s with
      | String _ s' => search r s'
      | EmptyString => None
      end
  end.

Declare Scope re_scope.
Delimit Scope re_scope with re.
Infix ">>>" := Seq (at level 65, right associativity) : re_scope.

Definition exactly (k : cls) (n : nat) : regex := Rep k n (Some n).
Definition plus (k : cls) : regex := Rep k 1 None.
Definition star (k : cls) : regex := Rep k 0 None.

End Re.

(** ** What a pattern can match, and what its groups can hold *)

Module ReSpec.
Import PyStr Re.

(** The texts a pattern matches. *)
Fixpoint lang (r : regex) (w : string) : Prop :=
  match r with
  | Lit t => w = t
  | Rep k lo hi =>
      IpAddress.all_chars (cls_matches k) w = true
      /\ (lo <= len w)%nat
      /\ match hi with Some h => (len w <= h)%nat | None => True end
  | Opt r1 => w = EmptyString \/ lang r1 w
  | Group _ r1 => lang r1 w
  | Seq r1 r2 => exists a b, w = a +:+ b /\ lang r1 a /\ lang r2 b
  end.

(** The groups every match of a pattern sets. *)
Fixpoint binds (r : regex) : list nat :=
  match r with
  | Group n r1 => n :: binds r1
  | Seq r1 r2 => binds r1 ++ binds r2
  | _ => []
  end.

(** [G n w]: the text [w] is acceptable for group [n].  Every group of
    the pattern holds acceptable text only. *)
Fixpoint groups_ok (G : nat -> string -> Prop) (r : regex) : Prop :=
  match r with
  | Group n r1 => (forall w, lang r1 w -> G n w) /\ groups_ok G r1
  | Opt r1 => groups_ok G r1
  | Seq r1 r2 => groups_ok G r1 /\ groups_ok G r2
  | _ => True
  end.

Definition captured_ok (G : nat -> string -> Prop) (g : groups) : Prop :=
  Forall (fun nw => G (fst nw) (snd nw)) g.

(** A non-empty run of decimal digits. *)
Definition is_digits (s : string) : bool :=
  negb (is_empty s) && IpAddress.all_chars is_digit s.

(** Four non-empty runs of decimal digits separated by dots: the shape
    [\d+\.\d+\.\d+\.\d+]. *)
Definition is_dotted_digits (s : string) : bool :=
  match split_chr "." s with
  | [a; b; c; d] => is_digits a && is_digits b && is_digits c && is_digits d
  | _ => false
  end.

(** Group [k] holds text of that shape; the other groups hold anything. *)
Definition holds_dotted (k : nat) : nat -> string -> Prop :=
  fun n w => n = k -> is_dotted_digits w = true.

Definition holds_anything : nat -> string -> Prop := fun _ _ => True.

End ReSpec.

(* ================================================================== *)
(** ** [utils.py]: [parse_log_line] *)
(* ================================================================== *)

Module Patterns.
Import Re.
Local Open Scope re_scope.

(** [\d+\.\d+\.\d+\.\d+] *)
Definition dotted_quad : regex :=
  plus Digit >>> Lit "." >>> plus Digit >>> Lit "." >>> plus Digit >>> Lit "." >>> plus Digit.

(** [(\d{4}-\d{2}-\d{2} \d{2}:\d{2}:\d{2},\d{3})] *)
Definition ts_fail2ban : regex :=
  Group 1 (exactly Digit 4 >>> Lit "-" >>> exactly Digit 2 >>> Lit "-" >>> exactly Digit 2 >>>
           Lit " " >>> exactly Digit 2 >>> Lit ":" >>> exactly Digit 2 >>> Lit ":" >>>
           exactly Digit 2 >>> Lit "," >>> exactly Digit 3).

(** [<ts>.*\[(\w+)\] KEYWORD (\d+\.\d+\.\d+\.\d+)] *)
Definition fail2ban_line (keyword : string) : regex :=
  ts_fail2ban >>> star AnyChar >>> Lit "[" >>> Group 2 (plus Word) >>>
  Lit ("] " +:+ keyword +:+ " ") >>> Group 3 dotted_quad.

(** [(\w{3}\s+\d{1,2}\s+\d{2}:\d{2}:\d{2})] *)
Definition ts_syslog : regex :=
  Group 1 (exactly Word 3 >>> plus Space >>> Rep Digit 1 (Some 2%nat) >>> plus Space >>>
           exactly Digit 2 >>> Lit ":" >>> exactly Digit 2 >>> Lit ":" >>> exactly Digit 2).

(** [(\d{4}-\d{2}-\d{2}T\d{2}:\d{2}:\d{2})] *)
Definition ts_iso : regex :=
  Group 1 (exactly Digit 4 >>> Lit "-" >>> exactly Digit 2 >>> Lit "-" >>> exactly Digit 2 >>>
           Lit "T" >>> exactly Digit 2 >>> Lit ":" >>> exactly Digit 2 >>> Lit ":" >>>
           exactly Digit 2).

(** [<ts>.*sshd.*] *)
Definition sshd_prefix (ts : regex) : regex :=
  ts >>> star AnyChar >>> Lit "sshd" >>> star AnyChar.

(** [<ts>.*sshd.*Accepted \w+ for (\w+) from (\d+\.\d+\.\d+\.\d+)] *)
Definition accepted_pat (ts : regex) : regex :=
  sshd_prefix ts >>> Lit "Accepted " >>> plus Word >>> Lit " for " >>>
  Group 2 (plus Word) >>> Lit " from " >>> Group 3 dotted_quad.

(** [<ts>.*sshd.*Failed password for (?:invalid user )?(\w+) from (\d+\.\d+\.\d+\.\d+)] *)
Definition failed_password_pat (ts : regex) : regex :=
  sshd_prefix ts >>> Lit "Failed password for " >>> Opt (Lit "invalid user ") >>>
  Group 2 (plus Word) >>> Lit " from " >>> Group 3 dotted_quad.

(** [<ts>.*sshd.*Failed \w+ for (?:invalid user )?(\w+) from (\d+\.\d+\.\d+\.\d+)] *)
Definition failed_pat (ts : regex) : regex :=
  sshd_prefix ts >>> Lit "Failed " >>> plus Word >>> Lit " for " >>>
  Opt (Lit "invalid user ") >>> Group 2 (plus Word) >>> Lit " from " >>>
  Group 3 dotted_quad.

(** [<ts>.*sshd.*authentication failure.*rhost=(\d+\.\d+\.\d+\.\d+).*user=(\w+)] *)
Definition auth_failure_pat (ts : regex) : regex :=
  sshd_prefix ts >>> Lit "authentication failure" >>> star AnyChar >>> Lit "rhost=" >>>
  Group 2 dotted_quad >>> star AnyChar >>> Lit "user=" >>> Group 3 (plus Word).

(** [<ts>.*sshd.*Invalid user (\w+) from (\d+\.\d+\.\d+\.\d+)] *)
Definition invalid_user_pat (ts : regex) : regex :=
  sshd_prefix ts >>> Lit "Invalid user " >>> Group 2 (plus Word) >>> Lit " from " >>>
  Group 3 dotted_quad.

(** [<ts>.*sshd.*POSSIBLE BREAK-IN ATTEMPT.*from (\d+\.\d+\.\d+\.\d+)] *)
Definition break_in_pat (ts : regex) : regex :=
  sshd_prefix ts >>> Lit "POSSIBLE BREAK-IN ATTEMPT" >>> star AnyChar >>> Lit "from " >>>
  Group 2 dotted_quad.

(** [<ts>.*sshd.*Disconnected from (?:invalid user )?(\w+) (\d+\.\d+\.\d+\.\d+)] *)
Definition disconnect_pat (ts : regex) : regex :=
  sshd_prefix ts >>> Lit "Disconnected from " >>> Opt (Lit "invalid user ") >>>
  Group 2 (plus Word) >>> Lit " " >>> Group 3 dotted_quad.

End Patterns.

(** The keys of the [patterns] dictionary of [parse_log_line]. *)
Inductive log_action : Type := ban | unban | found.

(** The dictionary [parse_log_line] returns.  A field read with
    [match.group] is [None] when that group took no part in the match. *)
Record log_entry : Type := LogEntry {
  le_timestamp : option string;
  le_jail : option string;
  le_ip : option string;
  le_action : log_action;
  le_raw_line : string
}.

Definition log_patterns : list (log_action * Re.regex) :=
  [ (ban, Patterns.fail2ban_line "BAN");
    (unban, Patterns.fail2ban_line "UNBAN");
    (found, Patterns.fail2ban_line "Found") ].

Fixpoint parse_log_line_loop (line : string) (patterns : list (log_action * Re.regex))
  : option log_entry :=
  match patterns with
  | [] => None
  | (action, pattern) :: rest =>
      match Re.search pattern line with
      | Some mt =>
          Some {| le_timestamp := Re.group 1 mt;
                  le_jail := Re.group 2 mt;
                  le_ip := Re.group 3 mt;
                  le_action := action;
                  le_raw_line := line |}
      | None => parse_log_line_loop line rest
      end
  end.

Definition parse_log_line (line : string) : option log_entry :=
  parse_log_line_loop line log_patterns.

(* ================================================================== *)
(** ** [utils.py]: [parse_ssh_log_line] *)
(* ================================================================== *)

(** The keys of the [patterns] dictionary of [parse_ssh_log_line]. *)
Inductive ssh_action : Type :=
  accepted | failed_password | failed | invalid_user | break_in | disconnect.

Record ssh_entry : Type := SshEntry {
  se_timestamp : option string;
  se_user : option string;
  se_ip : option string;
  se_action : ssh_action;
  se_failure_type : option string;   (* the key is present for failed_password only *)
  se_raw_line : string
}.

Definition ssh_patterns : list (ssh_action * list Re.regex) :=
  let '(sys, iso) := (Patterns.ts_syslog, Patterns.ts_iso) in
  [ (accepted, [Patterns.accepted_pat sys; Patterns.accepted_pat iso]);
    (failed_password, [Patterns.failed_password_pat sys; Patterns.failed_password_pat iso]);
    (failed, [Patterns.failed_pat sys; Patterns.failed_pat iso; Patterns.auth_failure_pat sys]);
    (invalid_user, [Patterns.invalid_user_pat sys; Patterns.invalid_user_pat iso]);
    (break_in, [Patterns.break_in_pat sys; Patterns.break_in_pat iso]);
    (disconnect, [Patterns.disconnect_pat sys; Patterns.disconnect_pat iso]) ].

Definition is_break_in (a : ssh_action) : bool :=
  match a with break_in => true | _ => false end.
Definition is_failed (a : ssh_action) : bool :=
  match a with failed => true | _ => false end.
Definition is_failed_password (a : ssh_action) : bool :=
  match a with failed_password => true | _ => false end.

(** The body of the inner loop once a pattern has matched. *)
Definition ssh_entry_of_match (line : string) (action : ssh_action) (mt : Re.groups)
  : ssh_entry :=
  if is_break_in action then
    {| se_timestamp := Re.group 1 mt; se_user := Some "unknown";
       se_ip := Re.group 2 mt; se_action := action;
       se_failure_type := None; se_raw_line := line |}
  else if is_failed action && PyStr.contains "authentication failure" line then
    {| se_timestamp := Re.group 1 mt; se_user := Re.group 3 mt;
       se_ip := Re.group 2 mt; se_action := action;
       se_failure_type := None; se_raw_line := line |}
  else if is_failed_password action then
    {| se_timestamp := Re.group 1 mt; se_user := Re.group 2 mt;
       se_ip := Re.group 3 mt; se_action := action;
       se_failure_type := Some "Mot de passe incorrect"; se_raw_line := line |}
  else
    {| se_timestamp := Re.group 1 mt; se_user := Re.group 2 mt;
       se_ip := Re.group 3 mt; se_action := action;
       se_failure_type := None; se_raw_line := line |}.

(** The group [ssh_entry_of_match] reads the address from. *)
Definition ip_group_read (line : string) (action : ssh_action) : nat :=
  if is_break_in action then 2%nat
  else if is_failed action && PyStr.contains "authentication failure" line then 2%nat
  else 3%nat.

Fixpoint ssh_pattern_list_loop (line : string) (action : ssh_action)
         (pattern_list : list Re.regex) : option ssh_entry :=
  match pattern_list with
  | [] => None
  | pattern :: rest =>
      match Re.search pattern line with
      | Some mt => Some (ssh_entry_of_match line action mt)
      | None => ssh_pattern_list_loop line action rest
      end
  end.

Fixpoint ssh_patterns_loop (line : string) (patterns : list (ssh_action * list Re.regex))
  : option ssh_entry :=
  match patterns with
  | [] => None
  | (action, pattern_list) :: rest =>
      match ssh_pattern_list_loop line action pattern_list with
      | Some e => Some e
      | None => ssh_patterns_loop line rest
      end
  end.

Definition parse_ssh_log_line (line : string) : option ssh_entry :=
  if negb (PyStr.contains "sshd" line) then None
  else ssh_patterns_loop line ssh_patterns.

(** [re.search(pattern, line)] finds a match. *)
Definition matches (pattern : Re.regex) (line : string) : bool :=
  match Re.search pattern line with Some _ => true | None => false end.

(** The lines on which the special case of [parse_ssh_log_line] for
    [authentication failure] meets a match of a pattern
    [Failed <method> for <user> from <address>]: the user of the [failed]
    event is then read from the group of the address, and the address
    from the group of the user. *)
Definition swaps_user_and_ip (line : string) : bool :=
  PyStr.contains "authentication failure" line
  && (matches (Patterns.failed_pat Patterns.ts_syslog) line
      || matches (Patterns.failed_pat Patterns.ts_iso) line).

(* ================================================================== *)
(** ** Programs with effects

    Code that talks to the outside (the ban-management tool, the clock,
    the geolocation provider) is a finite tree: it returns, or it performs
    one event and continues with the answer. *)
(* ================================================================== *)

Module Prog.

Inductive prog (E : Type -> Type) (A : Type) : Type :=
| Ret (a : A)
| Vis {X : Type} (e : E X) (k : X -> prog E A).

Arguments Ret {E A} a.
Arguments Vis {E A X} e k.

Fixpoint bind {E A B} (p : prog E A) (f : A -> prog E B) : prog E B :=
  match p with
  | Ret a => f a
  | Vis e k => Vis e (fun x => bind (k x) f)
  end.

Definition trigger {E X} (e : E X) : prog E X := Vis e Ret.

(** An environment answers every event and moves to a new state. *)
Definition handler (E : Type -> Type) (W : Type) : Type :=
  forall X, E X -> W -> X * W.

Fixpoint run {E A W} (h : handler E W) (p : prog E A) (w : W) : A * W :=
  match p with
  | Ret a => (a, w)
  | Vis e k => let '(x, w') := h _ e w in run h (k x) w'
  end.

(** [leaf p a]: some sequence of answers makes [p] return [a]. *)
Fixpoint leaf {E A} (p : prog E A) (a : A) : Prop :=
  match p with
  | Ret b => b = a
  | Vis e k => exists x, leaf (k x) a
  end.

Notation "'let*' x ':=' p 'in' q" := (bind p (fun x => q))
  (at level 10, x pattern, p at level 100, q at level 200, only parsing).

(** A program that may raise: [None] stands for the exception, which
    ends the program. *)
Definition bind_opt {E A B} (p : prog E (option A)) (f : A -> prog E (option B))
  : prog E (option B) :=
  bind p (fun o => match o with Some a => f a | None => Ret None end).

Notation "'try*' x ':=' p 'in' q" := (bind_opt p (fun x => q))
  (at level 10, x pattern, p at level 100, q at level 200, only parsing).

(** A program that does not raise, among programs that may. *)
Definition returning {E A} (p : prog E A) : prog E (option A) :=
  bind p (fun a => Ret (Some a)).

End Prog.

(* ================================================================== *)
(** ** [config.py] *)
(* ================================================================== *)

Module config.
Definition FAIL2BAN_CLIENT_PATH : string := "/usr/bin/fail2ban-client".
Definition COMMAND_TIMEOUT : Z := 10.
Definition IP_API_URL : string := "http://ip-api.com/json/".
Definition IP_API_TIMEOUT : Z := 5.
End config.

(* ================================================================== *)
(** ** [utils.py]: [safe_execute_command] *)
(* ================================================================== *)

(** What [subprocess.run(command, capture_output=True, text=True,
    timeout=...)] can do. *)
Inductive run_outcome : Type :=
| Completed (returncode : Z) (stdout stderr : string)
| TimeoutExpired
| Raised (message : string).

Inductive procE : Type -> Type :=
| SubprocessRun (command : list string) (timeout : Z) : procE run_outcome.

Definition result_of_outcome (o : run_outcome) : bool * string * string :=
  match o with
  | Completed returncode stdout stderr => (returncode =? 0, stdout, stderr)
  | TimeoutExpired => (false, "", "Command timed out")
  | Raised message => (false, "", message)
  end.

Definition safe_execute_command (command : list string)
  : Prog.prog procE (bool * string * string) :=
  Prog.Vis (SubprocessRun command config.COMMAND_TIMEOUT)
           (fun o => Prog.Ret (result_of_outcome o)).

(** The commands a program hands to [subprocess.run], in order, when the
    environment [h] answers from the state [w]. *)
Fixpoint commands_run {A W} (h : Prog.handler procE W) (p : Prog.prog procE A) (w : W)
  : list (list string) :=
  match p with
  | Prog.Ret _ => []
  | Prog.Vis e k =>
      match e in procE X return (X -> Prog.prog procE A) -> list (list string) with
      | SubprocessRun command _ => fun k' =>
          command :: (let '(x, w') := h _ (SubprocessRun command config.COMMAND_TIMEOUT) w in
                      commands_run h (k' x) w')
      end k
  end.

(** [standard p]: every command of [p] is run with the timeout
    [config.COMMAND_TIMEOUT], as [safe_execute_command] does. *)
Fixpoint standard {A} (p : Prog.prog procE A) : Prop :=
  match p with
  | Prog.Ret _ => True
  | Prog.Vis e k =>
      match e in procE X return (X -> Prog.prog procE A) -> Prop with
      | SubprocessRun _ timeout => fun k' =>
          timeout = config.COMMAND_TIMEOUT /\ forall x, standard (k' x)
      end k
  end.

(* ================================================================== *)
(** ** [fail2ban_manager.py]: [Fail2banManager] *)
(* ================================================================== *)

Module Fail2banManager.
Import Prog.

Definition client_path : string := config.FAIL2BAN_CLIENT_PATH.

Definition ban_ip (jail_name ip_address : string) : prog procE (bool * string) :=
  if negb (validate_ip_address ip_address) then
    Ret (false, "Invalid IP address format")
  else
    let jail_name := sanitize_input jail_name in
    let ip_address := sanitize_input ip_address in
    let* (success, stdout, stderr) :=
      safe_execute_command [client_path; "set"; jail_name; "banip"; ip_address] in
    if success then
      Ret (true, "Successfully banned " +:+ ip_address +:+ " in jail " +:+ jail_name)
    else
      Ret (false, PyStr.str_or stderr ("Failed to ban " +:+ ip_address)).

(** [None] stands for the [ValueError] of [str(ban_time)] on an integer
    of more than 4300 digits: nothing catches it, and it is raised while
    the first command is built, before anything is run.  The message of
    success writes [ban_time] again, after [str(ban_time)] has succeeded. *)
Definition ban_ip_with_time (jail_name ip_address : string) (ban_time : Z)
  : prog procE (option (bool * string)) :=
  if negb (validate_ip_address ip_address) then
    Ret (Some (false, "Invalid IP address format"))
  else
    let jail_name := sanitize_input jail_name in
    let ip_address := sanitize_input ip_address in
    try* (success, stdout, stderr) :=
      (if ban_time =? -1 then
         let* _ := safe_execute_command
                     [client_path; "set"; jail_name; "bantime"; "-1"] in
         returning (safe_execute_command
                      [client_path; "set"; jail_name; "banip"; ip_address])
       else
         match PyStr.str_of_int_checked ban_time with
         | inl _ => Ret None
         | inr seconds =>
             let* _ := safe_execute_command
                         [client_path; "set"; jail_name; "bantime"; seconds] in
             returning (safe_execute_command
                          [client_path; "set"; jail_name; "banip"; ip_address])
         end) in
    if success then
      let ban_type :=
        if ban_time =? -1 then "permanently"
        else "for " +:+ PyStr.str_of_int ban_time +:+ " seconds" in
      Ret (Some (true, "Successfully banned " +:+ ip_address +:+ " " +:+ ban_type
                       +:+ " in jail " +:+ jail_name))
    else
      Ret (Some (false, PyStr.str_or stderr ("Failed to ban " +:+ ip_address))).

Definition unban_ip (jail_name ip_address : string) : prog procE (bool * string) :=
  if negb (validate_ip_address ip_address) then
    Ret (false, "Invalid IP address format")
  else
    let jail_name := sanitize_input jail_name in
    let ip_address := sanitize_input ip_address in
    let* (success, stdout, stderr) :=
      safe_execute_command [client_path; "set"; jail_name; "unbanip"; ip_address] in
    if success then
      Ret (true, "Successfully unbanned " +:+ ip_address +:+ " from jail " +:+ jail_name)
    else
      Ret (false, PyStr.str_or stderr ("Failed to unban " +:+ ip_address)).

(** The two commands of [ban_ip_with_time]. *)
Definition bantime_command (jail_name : string) (ban_time : Z) : list string :=
  [client_path; "set"; sanitize_input jail_name; "bantime"; PyStr.str_of_int ban_time].

Definition banip_command (jail_name ip_address : string) : list string :=
  [client_path; "set"; sanitize_input jail_name; "banip"; sanitize_input ip_address].

(** The dictionary [get_jail_status] builds when the command succeeded. *)
Record jail_info : Type := JailInfo {
  name : string;
  enabled : bool;
  filter : string;
  actions : list string;
  currently_failed : Z;
  total_failed : Z;
  currently_banned : Z;
  total_banned : Z;
  banned_ips : list string
}.

(** The two shapes of dictionary [get_jail_status] returns. *)
Inductive jail_status : Type :=
| StatusError (name : string) (enabled : bool) (error : string)
| StatusInfo (status : jail_info).

Definition set_filter (v : string) (s : jail_info) : jail_info :=
  JailInfo (name s) (enabled s) v (actions s) (currently_failed s) (total_failed s)
           (currently_banned s) (total_banned s) (banned_ips s).
Definition set_actions (v : list string) (s : jail_info) : jail_info :=
  JailInfo (name s) (enabled s) (filter s) v (currently_failed s) (total_failed s)
           (currently_banned s) (total_banned s) (banned_ips s).
Definition set_currently_failed (v : Z) (s : jail_info) : jail_info :=
  JailInfo (name s) (enabled s) (filter s) (actions s) v (total_failed s)
           (currently_banned s) (total_banned s) (banned_ips s).
Definition set_total_failed (v : Z) (s : jail_info) : jail_info :=
  JailInfo (name s) (enabled s) (filter s) (actions s) (currently_failed s) v
           (currently_banned s) (total_banned s) (banned_ips s).
Definition set_currently_banned (v : Z) (s : jail_info) : jail_info :=
  JailInfo (name s) (enabled s) (filter s) (actions s) (currently_failed s)
           (total_failed s) v (total_banned s) (banned_ips s).
Definition set_total_banned (v : Z) (s : jail_info) : jail_info :=
  JailInfo (name s) (enabled s) (filter s) (actions s) (currently_failed s)
           (total_failed s) (currently_banned s) v (banned_ips s).
Definition set_banned_ips (v : list string) (s : jail_info) : jail_info :=
  JailInfo (name s) (enabled s) (filter s) (actions s) (currently_failed s)
           (total_failed s) (currently_banned s) (total_banned s) v.

(** [sys.get_int_max_str_digits()]: longer digit texts make [int] raise. *)
Definition INT_MAX_STR_DIGITS : nat := 4300.

(** [int(re.search(r'\d+', line).group())] on ASCII text; [None] stands
    for the exception raised when nothing matches or the text is too
    long. *)
Definition first_int (line : string) : option Z :=
  match Re.search (Re.Group 0 (Re.plus Re.Digit)) line with
  | None => None
  | Some mt =>
      match Re.group 0 mt with
      | None => None
      | Some digits =>
          if (INT_MAX_STR_DIGITS <? PyStr.len digits)%nat then None
          else Some (PyStr.int_of_digits 10 0 digits)
      end
  end.

(** [[x.strip() for x in parts if x.strip()]] *)
Definition stripped_nonempty (parts : list string) : list string :=
  map PyStr.strip (List.filter (fun x => negb (PyStr.is_empty (PyStr.strip x))) parts).

(** The [try: status[key] = int(...) except: pass] of the counters. *)
Definition try_set_int (set : Z -> jail_info -> jail_info) (line : string)
           (status : jail_info) : jail_info :=
  match first_int line with
  | Some n => set n status
  | None => status
  end.

(** One turn of the loop over the lines.  [None] stands for an exception
    that leaves the function. *)
Definition status_step (status : jail_info) (raw : string) : option jail_info :=
  let line := PyStr.strip raw in
  if PyStr.contains "Filter" line && PyStr.has_char ":" line then
    v ← PyStr.after_first ":" line; Some (set_filter (PyStr.strip v) status)
  else if PyStr.contains "Actions" line && PyStr.has_char ":" line then
    v ← PyStr.after_first ":" line;
    let actions_str := PyStr.strip v in
    Some (set_actions (stripped_nonempty (PyStr.split_chr "," actions_str)) status)
  else if PyStr.contains "Currently failed:" line then
    Some (try_set_int set_currently_failed line status)
  else if PyStr.contains "Total failed:" line then
    Some (try_set_int set_total_failed line status)
  else if PyStr.contains "Currently banned:" line then
    Some (try_set_int set_currently_banned line status)
  else if PyStr.contains "Total banned:" line then
    Some (try_set_int set_total_banned line status)
  else if PyStr.contains "Banned IP list:" line then
    v ← PyStr.after_first ":" line;
    let ips_str := PyStr.strip v in
    if negb (PyStr.is_empty ips_str) then
      Some (set_banned_ips (stripped_nonempty (PyStr.split_ws ips_str)) status)
    else Some status
  else Some status.

Fixpoint status_loop (status : jail_info) (lines : list string) : option jail_info :=
  match lines with
  | [] => Some status
  | raw :: rest =>
      match status_step status raw with
      | None => None
      | Some status' => status_loop status' rest
      end
  end.

Definition initial_status (jail_name : string) : jail_info :=
  {| name := jail_name; enabled := true; filter := ""; actions := [];
     currently_failed := 0; total_failed := 0; currently_banned := 0;
     total_banned := 0; banned_ips := [] |}.

(** [get_jail_status] after the command has answered. *)
Definition status_of_result (jail_name : string) (r : bool * string * string)
  : option jail_status :=
  let '(success, stdout, stderr) := r in
  if negb success then
    Some (StatusError jail_name false (PyStr.str_or stderr "Failed to get jail status"))
  else
    StatusInfo <$> status_loop (initial_status jail_name) (PyStr.split_chr "010" stdout).

(** [keeps f P]: a turn of the loop on a line that satisfies [P] leaves
    the entry read by [f] as it was. *)
Definition keeps {A} (f : jail_info -> A) (P : string -> bool) : Prop :=
  forall status raw status',
    status_step status raw = Some status' -> P raw = true -> f status' = f status.

(** The lines of the tool's answer. *)
Definition lines_of (stdout : string) : list string := PyStr.split_chr "010" stdout.

(** No line of the answer carries the label. *)
Definition label_absent (label stdout : string) : bool :=
  forallb (fun line => negb (PyStr.contains label line)) (lines_of stdout).

(** A text without a digit: ASCII text that holds none of [0] to [9].
    Outside ASCII there are other decimal digits, which [\d] finds and
    [int] reads. *)
Definition no_digit (s : string) : bool :=
  IpAddress.all_chars (fun c => PyStr.is_ascii_chr c && negb (PyStr.is_digit c)) s.

(** No line that carries the label has a digit on it. *)
Definition label_unparsable (label stdout : string) : bool :=
  forallb (fun line => negb (PyStr.contains label line) || no_digit line) (lines_of stdout).

(** What the answer [stdout] leaves at its initial value in [status]. *)
Definition defaults_hold (stdout : string) (status : jail_info) : Prop :=
  (label_absent "Currently failed:" stdout = true
   \/ label_unparsable "Currently failed:" stdout = true -> currently_failed status = 0)
  /\ (label_absent "Total failed:" stdout = true
      \/ label_unparsable "Total failed:" stdout = true -> total_failed status = 0)
  /\ (label_absent "Currently banned:" stdout = true
      \/ label_unparsable "Currently banned:" stdout = true -> currently_banned status = 0)
  /\ (label_absent "Total banned:" stdout = true
      \/ label_unparsable "Total banned:" stdout = true -> total_banned status = 0)
  /\ (label_absent "Filter" stdout = true -> filter status = "")
  /\ (label_absent "Actions" stdout = true -> actions status = [])
  /\ (label_absent "Banned IP list:" stdout = true -> banned_ips status = []).

Definition get_jail_status (jail_name : string) : prog procE (option jail_status) :=
  let* r := safe_execute_command [client_path; "status"; jail_name] in
  Ret (status_of_result jail_name r).

(** *** The other operations of the manager *)

Import PyStr.

Definition is_fail2ban_running : prog procE bool :=
  let* (success, stdout, stderr) := safe_execute_command [client_path; "ping"] in
  Ret (success && contains "pong" (lower stdout)).

(** The loop of [get_jails_list] over the lines, up to its [break].
    [None] stands for the [IndexError] of [split(...)[1]]. *)
Fixpoint jails_of_lines (lines : list string) : option (list string) :=
  match lines with
  | [] => Some []
  | line :: rest =>
      if contains "Jail list:" line then
        part ← split_str "Jail list:" line !! 1%nat;
        let jail_part := strip part in
        if negb (is_empty jail_part)
        then Some (stripped_nonempty (split_chr "," jail_part))
        else Some []
      else jails_of_lines rest
  end.

Definition get_jails_list : prog procE (option (list string)) :=
  let* (success, stdout, stderr) := safe_execute_command [client_path; "status"] in
  if negb success then Ret (Some [])
  else Ret (jails_of_lines (split_chr "010" stdout)).

(** The loop of [get_all_jails_status]. *)
Fixpoint all_status_loop (jails : list string) (jails_status : list jail_status)
  : prog procE (option (list jail_status)) :=
  match jails with
  | [] => Ret (Some jails_status)
  | jail :: rest =>
      try* status := get_jail_status jail in
      all_status_loop rest (jails_status ++ [status])
  end.

Definition get_all_jails_status : prog procE (option (list jail_status)) :=
  try* jails := get_jails_list in
  all_status_loop jails [].

(** [status.get('enabled', False)] and [status.get('banned_ips', [])] on
    the two shapes of dictionary. *)
Definition get_enabled (status : jail_status) : bool :=
  match status with
  | StatusError _ enabled _ => enabled
  | StatusInfo info => enabled info
  end.

Definition get_banned_ips_of (status : jail_status) : list string :=
  match status with
  | StatusError _ _ _ => []
  | StatusInfo info => banned_ips info
  end.

(** The loop of [get_banned_ips]. *)
Fixpoint banned_ips_loop (jails : list string) (banned : gmap string (list string))
  : prog procE (option (gmap string (list string))) :=
  match jails with
  | [] => Ret (Some banned)
  | jail :: rest =>
      try* status := get_jail_status jail in
      banned_ips_loop rest
        (if get_enabled status then <[jail := get_banned_ips_of status]> banned else banned)
  end.

(** [jail_name] is [None] by default; [None] and the empty text both
    select every jail. *)
Definition get_banned_ips (jail_name : option string)
  : prog procE (option (gmap string (list string))) :=
  try* jails :=
    (match jail_name with
     | Some j => if negb (is_empty j) then Ret (Some [j]) else get_jails_list
     | None => get_jails_list
     end) in
  banned_ips_loop jails ∅.

Definition reload_jail (jail_name : string) : prog procE (bool * string) :=
  let jail_name := sanitize_input jail_name in
  let* (success, stdout, stderr) :=
    safe_execute_command [client_path; "reload"; jail_name] in
  if success then Ret (true, "Successfully reloaded jail " +:+ jail_name)
  else Ret (false, str_or stderr ("Failed to reload jail " +:+ jail_name)).

Definition start_jail (jail_name : string) : prog procE (bool * string) :=
  let jail_name := sanitize_input jail_name in
  let* (success, stdout, stderr) :=
    safe_execute_command [client_path; "start"; jail_name] in
  if success then Ret (true, "Successfully started jail " +:+ jail_name)
  else Ret (false, str_or stderr ("Failed to start jail " +:+ jail_name)).

Definition stop_jail (jail_name : string) : prog procE (bool * string) :=
  let jail_name := sanitize_input jail_name in
  let* (success, stdout, stderr) :=
    safe_execute_command [client_path; "stop"; jail_name] in
  if success then Ret (true, "Successfully stopped jail " +:+ jail_name)
  else Ret (false, str_or stderr ("Failed to stop jail " +:+ jail_name)).

Definition config_param_names : list string :=
  ["bantime"; "findtime"; "maxretry"; "logpath"; "backend"].

(** The loop of [get_jail_config]. *)
Fixpoint jail_config_loop (jail_name : string) (params : list string)
         (config_params : gmap string string) : prog procE (gmap string string) :=
  match params with
  | [] => Ret config_params
  | param :: rest =>
      let* (success, stdout, stderr) :=
        safe_execute_command [client_path; "get"; jail_name; param] in
      jail_config_loop jail_name rest
        (if success then <[param := strip stdout]> config_params else config_params)
  end.

Definition get_jail_config (jail_name : string) : prog procE (gmap string string) :=
  jail_config_loop jail_name config_param_names ∅.

Record server_status : Type := ServerStatus {
  running : bool;
  version : string;
  uptime : string;
  total_jails : Z;
  active_jails : Z
}.

Definition get_server_status : prog procE (option server_status) :=
  let* running := is_fail2ban_running in
  if running then
    let* (success, stdout, stderr) := safe_execute_command [client_path; "version"] in
    let version := if success then strip stdout else "" in
    try* jails := get_all_jails_status in
    Ret (Some {| running := running; version := version; uptime := "";
                 total_jails := Z.of_nat (length jails);
                 active_jails := Z.of_nat (length (List.filter get_enabled jails)) |})
  else
    Ret (Some {| running := running; version := ""; uptime := "";
                 total_jails := 0; active_jails := 0 |}).

(** [status['name']] on the two shapes of dictionary. *)
Definition get_name (status : jail_status) : string :=
  match status with
  | StatusError name _ _ => name
  | StatusInfo info => name info
  end.

(** The commands that only ask the tool for information. *)
Definition is_query (command : list string) : bool :=
  match command with
  | _ :: verb :: _ => existsb (String.eqb verb) ["ping"; "status"; "get"; "version"]
  | _ => false
  end.

(** No character of the deny-list occurs in [s]. *)
Definition clean (s : string) : bool :=
  forallb (fun c => negb (has_char c s)) dangerous_chars.

(** The command of [get_jail_status]. *)
Definition status_command (jail_name : string) : list string :=
  [client_path; "status"; jail_name].

(** The environment that answers every command with [o]. *)
Definition always (o : run_outcome) : Prog.handler procE unit :=
  fun X e w =>
    match e in procE X return X * unit with
    | SubprocessRun _ _ => (o, w)
    end.

(** A jail name as [get_jails_list] hands it out: not empty, without a
    comma or a line feed, without whitespace at either end. *)
Definition name_ok (jail : string) : Prop :=
  is_empty jail = false /\ has_char "," jail = false /\ has_char "010" jail = false
  /\ strip jail = jail.

(** A jail name that survives the listing: ASCII text, not empty, without
    a comma, a colon or a line feed, without whitespace at either end. *)
Definition plain_name (jail : string) : bool :=
  negb (is_empty jail) && negb (has_char "," jail) && negb (has_char ":" jail)
  && negb (has_char "010" jail) && String.eqb (strip jail) jail && is_ascii jail.

(** Whitespace that stays on one line. *)
Definition is_blank (s : string) : bool :=
  IpAddress.all_chars (fun c => is_space c && negb (Ascii.eqb c "010")) s.

(** The line of the tool's answer that lists the jails. *)
Definition jail_list_line (head pad : string) (jails : list string) : string :=
  head +:+ "Jail list:" +:+ pad +:+ join_str ", " jails.

(** A text without whitespace that is not empty. *)
Definition is_token (s : string) : bool :=
  negb (is_empty s) && IpAddress.all_chars (fun c => negb (is_space c)) s.

(** An item of a list that was split at commas and stripped. *)
Definition is_item (s : string) : bool :=
  negb (is_empty s) && negb (has_char "," s) && String.eqb (strip s) s.

(** What holds of every dictionary [get_jail_status] builds. *)
Definition info_ok (status : jail_info) : Prop :=
  0 <= currently_failed status /\ 0 <= total_failed status
  /\ 0 <= currently_banned status /\ 0 <= total_banned status
  /\ forallb is_item (actions status) = true
  /\ forallb is_token (banned_ips status) = true.

End Fail2banManager.

(* ================================================================== *)
(** ** [utils.py]: [get_ip_geolocation] *)
(* ================================================================== *)

Module Geo.
Import Prog.

(** A decoded JSON value.  A float is carried by the 64 bits of its
    IEEE 754 encoding; an object by its members in order. *)
#[warnings="-register-all"]
Inductive json : Type :=
| JNull
| JBool (b : bool)
| JInt (z : Z)
| JFloat (bits : Z)
| JStr (s : string)
| JList (items : list json)
| JDict (members : list (string * json)).

(** Truth value of a Python object, for [x or default]. *)
Definition truthy (v : json) : bool :=
  match v with
  | JNull => false
  | JBool b => b
  | JInt z => negb (z =? 0)
  | JFloat bits => negb (Z.land bits 9223372036854775807 =? 0)
  | JStr s => negb (PyStr.is_empty s)
  | JList items => match items with [] => false | _ => true end
  | JDict members => match members with [] => false | _ => true end
  end.

Definition py_or (v default : json) : json := if truthy v then v else default.

Definition type_name (v : json) : string :=
  match v with
  | JNull => "NoneType" | JBool _ => "bool" | JInt _ => "int" | JFloat _ => "float"
  | JStr _ => "str" | JList _ => "list" | JDict _ => "dict"
  end.

(** A decoded object keeps, for a repeated name, its last member. *)
Fixpoint lookup_member (key : string) (members : list (string * json)) (found : option json)
  : option json :=
  match members with
  | [] => found
  | (k, v) :: rest =>
      lookup_member key rest (if String.eqb k key then Some v else found)
  end.

(** [data.get(key, default)] on a dictionary. *)
Definition dict_get (members : list (string * json)) (key : string) (dflt : json) : json :=
  default dflt (lookup_member key members None).

(** The [AttributeError] of [data.get] when [data] is not a dictionary. *)
Definition no_get (data : json) : string :=
  "'" +:+ type_name data +:+ "' object has no attribute 'get'".

Definition json_eqb_str (v : json) (s : string) : bool :=
  match v with JStr t => String.eqb t s | _ => false end.

(** The dictionaries handed out by this module. *)
Record geo_info : Type := GeoInfo {
  country : json; region : json; city : json; isp : json; org : json;
  lat : json; lon : json; timezone : json
}.

Definition get_default_geo_info : geo_info :=
  {| country := JStr "Non disponible"; region := JStr "Non disponible";
     city := JStr "Non disponible"; isp := JStr "Non disponible";
     org := JStr "Non disponible"; lat := JInt 0; lon := JInt 0;
     timezone := JStr "Non disponible" |}.

(** The dictionary built for a private address. *)
Definition local_geo_info : geo_info :=
  {| country := JStr "Réseau Local"; region := JStr "Réseau Privé";
     city := JStr "LAN"; isp := JStr "Réseau Local"; org := JStr "Réseau Privé";
     lat := JInt 0; lon := JInt 0; timezone := JStr "Local" |}.

Definition undetermined : json := JStr "Non déterminé".

(** What [requests.get(url, timeout=...)] followed by [response.json()]
    can do: the request raises, or a response arrives whose body decodes
    or fails to decode. *)
Inductive http_outcome : Type :=
| RequestRaised (message : string)
| Response (status_code : Z) (body : string + json).

(** Instants are microseconds, the resolution of [datetime]. *)
Inductive geoE : Type -> Type :=
| DatetimeNow : geoE Z
| RequestsGet (url : string) (timeout : Z) : geoE http_outcome
| Print (text : string) : geoE unit.

(** The module globals [_geolocation_cache] and [_cache_timestamps]. *)
Record caches : Type := Caches {
  geolocation_cache : gmap string geo_info;
  cache_timestamps : gmap string Z
}.

Definition empty_caches : caches := Caches ∅ ∅.

(** [_geolocation_cache[ip] = geo_info; _cache_timestamps[ip] = current_time] *)
Definition store (ip : string) (geo : geo_info) (current_time : Z) (c : caches) : caches :=
  Caches (<[ip := geo]> (geolocation_cache c)) (<[ip := current_time]> (cache_timestamps c)).

(** From [data = response.json()] to the end of the [try] block:
    [inr (Some geo)] returns [geo], [inr None] falls out of the block,
    [inl message] is an exception, caught by [except Exception as e]. *)
Definition geo_of_data (data : json) : string + option geo_info :=
  match data with
  | JDict d =>
      if json_eqb_str (dict_get d "status" JNull) "success" then
        inr (Some {| country := py_or (dict_get d "country" JNull) undetermined;
                     region := py_or (dict_get d "regionName" JNull) undetermined;
                     city := py_or (dict_get d "city" JNull) undetermined;
                     isp := py_or (dict_get d "isp" JNull) undetermined;
                     org := py_or (dict_get d "org" JNull) undetermined;
                     lat := dict_get d "lat" (JInt 0);
                     lon := dict_get d "lon" (JInt 0);
                     timezone := py_or (dict_get d "timezone" JNull) undetermined |})
      else inr None
  | other => inl (no_get other)
  end.

(** The second [try] block, with the same reading of the result. *)
Definition geo_of_outcome (o : http_outcome) : string + option geo_info :=
  match o with
  | RequestRaised message => inl message
  | Response status_code body =>
      if status_code =? 200 then
        match body with
        | inl message => inl message
        | inr data => geo_of_data data
        end
      else inr None
  end.

(** [cache_age < 3600] where [cache_age] is in seconds. *)
Definition fresh (current_time stamp : Z) : bool :=
  current_time - stamp <? 3600 * 1000000.

(** The first [try] block: [ipaddress.ip_address(ip).is_private], and
    false when that raises ([except: pass]). *)
Definition private_text (ip : string) : bool :=
  match IpAddress.ip_address ip with
  | Some ip_obj => IpAddress.is_private ip_obj
  | None => false
  end.

Definition get_ip_geolocation (ip : string) (c : caches)
  : prog geoE (geo_info * caches) :=
  if negb (validate_ip_address ip) then Ret (get_default_geo_info, c)
  else
    let* current_time := trigger DatetimeNow in
    match (match geolocation_cache c !! ip, cache_timestamps c !! ip with
           | Some cached, Some stamp =>
               if fresh current_time stamp then Some cached else None
           | _, _ => None
           end) with
    | Some cached => Ret (cached, c)
    | None =>
        if private_text ip
        then Ret (local_geo_info, store ip local_geo_info current_time c)
        else
          let* o := trigger (RequestsGet (config.IP_API_URL +:+ ip)
                                         config.IP_API_TIMEOUT) in
          match geo_of_outcome o with
          | inr (Some geo) => Ret (geo, store ip geo current_time c)
          | inr None =>
              Ret (get_default_geo_info, store ip get_default_geo_info current_time c)
          | inl message =>
              let* _ := trigger (Print ("Error getting geolocation for " +:+ ip
                                        +:+ ": " +:+ message)) in
              Ret (get_default_geo_info, store ip get_default_geo_info current_time c)
          end
    end.

(** The states of the two caches the program can be in: they start
    empty and only [get_ip_geolocation] writes them (the callers in
    [app.py] only read the dictionaries they are handed). *)
Inductive reachable : caches -> Prop :=
| reachable_init : reachable empty_caches
| reachable_call c ip geo c' :
    reachable c -> leaf (get_ip_geolocation ip c) (geo, c') -> reachable c'.

Definition is_request {X} (e : geoE X) : bool :=
  match e with RequestsGet _ _ => true | _ => false end.

(** [performs_request p]: some run of [p] calls the provider. *)
Fixpoint performs_request {A} (p : prog geoE A) : Prop :=
  match p with
  | Ret _ => False
  | Vis e k => is_request e = true \/ exists x, performs_request (k x)
  end.

(** Every cached entry of a private address is the local one. *)
Definition private_entries_local (c : caches) : Prop :=
  forall ip geo, geolocation_cache c !! ip = Some geo -> private_text ip = true ->
                 geo = local_geo_info.

(** The program once the clock has answered [t] to its first question. *)
Definition at_time {A} (t : Z) (p : prog geoE A) : prog geoE A :=
  match p with
  | Ret a => Ret a
  | Vis e k =>
      match e in geoE X return (X -> prog geoE A) -> prog geoE A with
      | DatetimeNow => fun k' => k' t
      | RequestsGet url timeout => fun k' => Vis (RequestsGet url timeout) k'
      | Print text => fun k' => Vis (Print text) k'
      end k
  end.

(** The six text entries of a dictionary are neither [None] nor empty. *)
Definition texts_set (geo : geo_info) : bool :=
  truthy (country geo) && truthy (region geo) && truthy (city geo)
  && truthy (isp geo) && truthy (org geo) && truthy (timezone geo).

(** The keys of the cache are addresses, each has a timestamp, and the
    dictionaries cached have their text entries set. *)
Definition caches_ok (c : caches) : Prop :=
  forall ip geo, geolocation_cache c !! ip = Some geo ->
    validate_ip_address ip = true /\ is_Some (cache_timestamps c !! ip)
    /\ texts_set geo = true.

(** The addresses of the provider a run asks, in order. *)
Fixpoint requests {A W} (h : handler geoE W) (p : prog geoE A) (w : W) : list string :=
  match p with
  | Ret _ => []
  | Vis e k =>
      let '(x, w') := h _ e w in
      match e with
      | RequestsGet url _ => [url]
      | _ => []
      end ++ requests h (k x) w'
  end.

End Geo.

(* ================================================================== *)
(** ** What the parsers return *)
(* ================================================================== *)

Module ParserSpec.
Import PyStr Re ReSpec.

(** A non-empty run of word characters: the shape [\w+]. *)
Definition is_word (s : string) : bool :=
  negb (is_empty s) && IpAddress.all_chars (cls_matches Word) s.

(** The keyword that stands in the line for each action of
    [parse_log_line]. *)
Definition keyword_of (action : log_action) : string :=
  match action with ban => "BAN" | unban => "UNBAN" | found => "Found" end.

(** What the three groups of a pattern of [parse_log_line] hold. *)
Definition log_groups (n : nat) (w : string) : Prop :=
  (n = 1%nat -> len w = 23%nat) /\ (n = 2%nat -> is_word w = true)
  /\ (n = 3%nat -> is_dotted_digits w = true).

(** The groups an entry of [parse_ssh_log_line] is read from are set by
    the pattern. *)
Definition sets_groups (action : ssh_action) (pattern : regex) : bool :=
  existsb (Nat.eqb 1) (binds pattern) && existsb (Nat.eqb 2) (binds pattern)
  && (is_break_in action || existsb (Nat.eqb 3) (binds pattern)).

(** The text that stands in the line for each action of
    [parse_ssh_log_line]. *)
Definition carries_marker (action : ssh_action) (line : string) : bool :=
  match action with
  | accepted => contains "Accepted " line
  | failed_password => contains "Failed password for " line
  | failed => contains "Failed " line || contains "authentication failure" line
  | invalid_user => contains "Invalid user " line
  | break_in => contains "POSSIBLE BREAK-IN ATTEMPT" line
  | disconnect => contains "Disconnected from " line
  end.

End ParserSpec.

Module Samples.

(** A line of the authentication log, and the entry read from it. *)
Definition failed_password_line : string :=
  "Jan 5 10:00:00 host sshd[123]: Failed password for invalid user admin from 10.0.0.5 port 22".

Definition failed_password_entry : ssh_entry :=
  {| se_timestamp := Some "Jan 5 10:00:00"; se_user := Some "admin";
     se_ip := Some "10.0.0.5"; se_action := failed_password;
     se_failure_type := Some "Mot de passe incorrect";
     se_raw_line := failed_password_line |}.

(** A line of the ban log, and the event read from it. *)
Definition ban_line : string :=
  "2024-01-01 10:00:00,000 fail2ban.actions [sshd] BAN 1.2.3.4".

Definition ban_event : log_entry :=
  {| le_timestamp := Some "2024-01-01 10:00:00,000"; le_jail := Some "sshd";
     le_ip := Some "1.2.3.4"; le_action := ban; le_raw_line := ban_line |}.

End Samples.

(* ================================================================== *)
(** ** [utils.py]: the log readers *)
(* ================================================================== *)

Module Logs.
Import Prog PyStr.

(** [os.path.exists], [os.access(path, os.R_OK)],
    [subprocess.run(command, capture_output=True, text=True, timeout=...)]
    and [print]. *)
Inductive sysE : Type -> Type :=
| OsStat (path : string) : sysE bool
| OsAccess (path : string) : sysE bool
| SubprocessRun (command : list string) (timeout : Z) : sysE run_outcome
| Print (text : string) : sysE unit.

Definition NUL : ascii := "000"%char.

(** [os.path.exists(path)] is false, without a look at the file system,
    for a path with a NUL character. *)
Definition os_path_exists (path : string) : prog sysE bool :=
  if has_char NUL path then Ret false else trigger (OsStat path).

Definition os_access (path : string) : prog sysE bool := trigger (OsAccess path).

Definition subprocess_run (command : list string) (timeout : Z) : prog sysE run_outcome :=
  trigger (SubprocessRun command timeout).

Definition print (text : string) : prog sysE unit := trigger (Print text).

(** [str(e)] for the [subprocess.TimeoutExpired] of a command. *)
Definition str_of_timeout (command : list string) (timeout : Z) : string :=
  "Command '" +:+ str_of_list command +:+ "' timed out after "
  +:+ str_of_int timeout +:+ " seconds".

(** The loop of [parse_fail2ban_log] over the lines. *)
Definition fail2ban_entries_step (entries : list log_entry) (line : string)
  : list log_entry :=
  if negb (is_empty (strip line)) then
    match parse_log_line line with
    | Some entry => entries ++ [entry]
    | None => entries
    end
  else entries.

Definition parse_fail2ban_log (log_path : string) (lines : Z)
  : prog sysE (list log_entry) :=
  match str_of_int_checked lines with
  | inl message =>
      let* _ := print ("Error parsing log file: " +:+ message) in
      Ret []
  | inr n =>
      let command := ["tail"; "-n"; n; log_path] in
      let* o := subprocess_run command config.COMMAND_TIMEOUT in
      match o with
      | Completed returncode stdout _ =>
          if returncode =? 0
          then Ret (fold_left fail2ban_entries_step (split_chr "010" stdout) [])
          else Ret []
      | TimeoutExpired =>
          let* _ := print ("Error parsing log file: "
                           +:+ str_of_timeout command config.COMMAND_TIMEOUT) in
          Ret []
      | Raised message =>
          let* _ := print ("Error parsing log file: " +:+ message) in
          Ret []
      end
  end.

Definition possible_paths : list string :=
  [ "/var/log/auth.log"; "/var/log/secure"; "/var/log/messages";
    "/var/log/syslog"; "/var/log/authlog" ].

(** The loop of [find_ssh_log_file].  [os.access] is reached only for a
    path [os.path.exists] accepted, which has no NUL character. *)
Fixpoint find_ssh_log_loop (paths : list string) : prog sysE string :=
  match paths with
  | [] => Ret ""
  | path :: rest =>
      let* e := os_path_exists path in
      if e then
        let* a := os_access path in
        if a then
          let* o := subprocess_run ["tail"; "-n"; "100"; path] 5 in
          match o with
          | Completed returncode stdout _ =>
              if (returncode =? 0) && contains "sshd" stdout then Ret path
              else find_ssh_log_loop rest
          | _ => find_ssh_log_loop rest
          end
        else find_ssh_log_loop rest
      else find_ssh_log_loop rest
  end.

Definition find_ssh_log_file : prog sysE string := find_ssh_log_loop possible_paths.

(** The loop of [parse_ssh_logs] over the lines: the entries and the
    counter [ssh_lines]. *)
Definition ssh_entries_step (acc : list ssh_entry * Z) (line : string)
  : list ssh_entry * Z :=
  let '(entries, ssh_lines) := acc in
  if negb (is_empty (strip line)) && contains "sshd" line then
    match parse_ssh_log_line line with
    | Some entry => (entries ++ [entry], ssh_lines + 1)
    | None => (entries, ssh_lines + 1)
    end
  else (entries, ssh_lines).

(** What [parse_ssh_logs] prints after the loop; the text of the number
    of lines may be refused, which the [except] clause reports. *)
Definition processed_message (ssh_lines : Z) (log_path : string) : string :=
  match str_of_int_checked ssh_lines with
  | inr n => "Processed " +:+ n +:+ " SSH log lines from " +:+ log_path
  | inl message => "Error parsing SSH log file: " +:+ message
  end.

(** [parse_ssh_logs] once the path of the log is settled.  [os.access]
    is reached only for a path [os.path.exists] accepted, which has no NUL
    character. *)
Definition parse_ssh_logs_at (log_path : string) (lines : Z)
  : prog sysE (list ssh_entry) :=
  if is_empty log_path then
    let* _ := print "No SSH log file found or accessible" in
    Ret []
  else
    let* e := os_path_exists log_path in
    if negb e then
      let* _ := print ("SSH log file not found: " +:+ log_path) in
      Ret []
    else
      let* a := os_access log_path in
      if negb a then
        let* _ := print ("SSH log file not readable: " +:+ log_path) in
        Ret []
      else
        match str_of_int_checked lines with
        | inl message =>
            let* _ := print ("Error parsing SSH log file: " +:+ message) in
            Ret []
        | inr n =>
            let command := ["tail"; "-n"; n; log_path] in
            let* o := subprocess_run command config.COMMAND_TIMEOUT in
            match o with
            | Completed returncode stdout stderr =>
                if returncode =? 0 then
                  let '(entries, ssh_lines) :=
                    fold_left ssh_entries_step (split_chr "010" stdout) ([], 0) in
                  let* _ := print (processed_message ssh_lines log_path) in
                  Ret entries
                else
                  let* _ := print ("Error reading SSH log file: " +:+ stderr) in
                  Ret []
            | TimeoutExpired =>
                let* _ := print ("Error parsing SSH log file: "
                                 +:+ str_of_timeout command config.COMMAND_TIMEOUT) in
                Ret []
            | Raised message =>
                let* _ := print ("Error parsing SSH log file: " +:+ message) in
                Ret []
            end
        end.

(** [log_path] is [None] by default: the log is then looked for. *)
Definition parse_ssh_logs (log_path : option string) (lines : Z)
  : prog sysE (list ssh_entry) :=
  let* log_path :=
    (match log_path with
     | None => find_ssh_log_file
     | Some p => Ret p
     end) in
  parse_ssh_logs_at log_path lines.

(** What a run of a program asked of the environment, with the answers. *)
Inductive call : Type :=
| Stat (path : string) (answer : bool)
| Access (path : string) (answer : bool)
| Ran (command : list string) (timeout : Z) (answer : run_outcome)
| Printed (text : string).

Definition call_of {X} (e : sysE X) : X -> call :=
  match e in sysE X return X -> call with
  | OsStat path => Stat path
  | OsAccess path => Access path
  | SubprocessRun command timeout => Ran command timeout
  | Print text => fun _ => Printed text
  end.

Fixpoint calls {A W} (h : handler sysE W) (p : prog sysE A) (w : W) : list call :=
  match p with
  | Ret _ => []
  | Vis e k => let '(x, w') := h _ e w in call_of e x :: calls h (k x) w'
  end.

(** The commands among the calls of a run. *)
Definition commands_of (l : list call) : list (list string) :=
  omap (fun c => match c with Ran command _ _ => Some command | _ => None end) l.

(** The number of lines that carry [sshd]. *)
Definition count_sshd (lines : list string) : Z :=
  Z.of_nat (length (List.filter (contains "sshd") lines)).

(** [found_in asked path]: the calls show that [path] exists, can be
    read, and has [sshd] in its last hundred lines. *)
Definition found_in (asked : list call) (path : string) : Prop :=
  In (Stat path true) asked /\ In (Access path true) asked
  /\ exists stdout stderr,
       In (Ran ["tail"; "-n"; "100"; path] 5 (Completed 0 stdout stderr)) asked
       /\ contains "sshd" stdout = true.

(** [probes paths asked]: every call looks at one of [paths]; a command
    is a [tail] of a hundred lines on a path that was found to exist and to
    be readable; nothing is printed. *)
Definition probes (paths : list string) (asked : list call) : Prop :=
  forall c, In c asked ->
    match c with
    | Stat p _ | Access p _ => In p paths
    | Ran command timeout _ =>
        exists p, In p paths /\ command = ["tail"; "-n"; "100"; p] /\ timeout = 5
                  /\ In (Stat p true) asked /\ In (Access p true) asked
    | Printed _ => False
    end.

End Logs.

(* ================================================================== *)
(** ** [utils.py]: [get_ssh_connection_stats] *)
(* ================================================================== *)

Module SshStats.

(** An item of the lists [stats['failed'][ip]] and
    [stats['failed_password'][ip]]. *)
Record failure : Type := Failure { f_user : option string; f_failure_type : string }.

(** The dictionary [stats].  Its entry [unique_ips] is a set during the
    loop and a number in the result.  A key read from an entry is [None]
    when the entry holds [None] there. *)
Record stats (U : Type) : Type := Stats {
  st_accepted : gmap (option string) (list (option string));
  st_failed : gmap (option string) (list failure);
  st_failed_password : gmap (option string) (list failure);
  st_invalid_user : gmap (option string) (list failure);
  st_break_in : gmap (option string) (list failure);
  st_total_accepted : Z;
  st_total_failed : Z;
  st_total_failed_password : Z;
  st_unique_ips : U;
  st_top_attacking_ips : gmap (option string) Z;
  st_top_users_failed : gmap (option string) Z;
  st_top_users_accepted : gmap (option string) Z;
  st_failure_types : gmap string Z
}.

Arguments Stats {U}.
Arguments st_accepted {U}.
Arguments st_failed {U}.
Arguments st_failed_password {U}.
Arguments st_invalid_user {U}.
Arguments st_break_in {U}.
Arguments st_total_accepted {U}.
Arguments st_total_failed {U}.
Arguments st_total_failed_password {U}.
Arguments st_unique_ips {U}.
Arguments st_top_attacking_ips {U}.
Arguments st_top_users_failed {U}.
Arguments st_top_users_accepted {U}.
Arguments st_failure_types {U}.

Section Dict.
Context {K : Type} `{Countable K}.

(** [if k not in d: d[k] = []] then [d[k].append(x)]: the key is there
    when the list is read. *)
Definition append_at {V} (k : K) (x : V) (d : gmap K (list V)) : gmap K (list V) :=
  let d := match d !! k with Some _ => d | None => <[k := []]> d end in
  <[k := default [] (d !! k) ++ [x]]> d.

(** [if k not in d: d[k] = 0] then [d[k] += 1]. *)
Definition count_at (k : K) (d : gmap K Z) : gmap K Z :=
  let d := match d !! k with Some _ => d | None => <[k := 0]> d end in
  <[k := default 0 (d !! k) + 1]> d.

(** The sum of the values of a dictionary of counters. *)
Definition sum_values (d : gmap K Z) : Z := map_fold (fun _ n acc => n + acc) 0 d.

(** [len(d.get(k, []))] *)
Definition len_at {V} (k : K) (d : gmap K (list V)) : Z :=
  Z.of_nat (length (default [] (d !! k))).
End Dict.

Definition is_accepted (a : ssh_action) : bool :=
  match a with accepted => true | _ => false end.
Definition is_invalid_user (a : ssh_action) : bool :=
  match a with invalid_user => true | _ => false end.
Definition is_disconnect (a : ssh_action) : bool :=
  match a with disconnect => true | _ => false end.

(** [action in ['failed', 'invalid_user', 'break_in']] *)
Definition is_other_failure (a : ssh_action) : bool :=
  is_failed a || is_invalid_user a || is_break_in a.

(** The labels are French; an accented letter is written as the bytes of
    its UTF-8 encoding, which keeps equality of texts as it is. *)
Definition other_failure_type (action : ssh_action) : string :=
  if is_failed action then "Autre échec"
  else if is_invalid_user action then "Utilisateur invalide"
  else "Tentative de piratage".

Definition initial_stats : stats (gset (option string)) :=
  {| st_accepted := ∅; st_failed := ∅; st_failed_password := ∅;
     st_invalid_user := ∅; st_break_in := ∅;
     st_total_accepted := 0; st_total_failed := 0; st_total_failed_password := 0;
     st_unique_ips := ∅;
     st_top_attacking_ips := ∅; st_top_users_failed := ∅;
     st_top_users_accepted := ∅; st_failure_types := ∅ |}.

(** One turn of the loop over the entries. *)
Definition stats_step (stats : stats (gset (option string))) (entry : ssh_entry)
  : SshStats.stats (gset (option string)) :=
  let action := se_action entry in
  let ip := se_ip entry in
  let user := se_user entry in
  let unique_ips := {[ ip ]} ∪ st_unique_ips stats in
  if is_accepted action then
    {| st_accepted := append_at ip user (st_accepted stats);
       st_failed := st_failed stats;
       st_failed_password := st_failed_password stats;
       st_invalid_user := st_invalid_user stats;
       st_break_in := st_break_in stats;
       st_total_accepted := st_total_accepted stats + 1;
       st_total_failed := st_total_failed stats;
       st_total_failed_password := st_total_failed_password stats;
       st_unique_ips := unique_ips;
       st_top_attacking_ips := st_top_attacking_ips stats;
       st_top_users_failed := st_top_users_failed stats;
       st_top_users_accepted := count_at user (st_top_users_accepted stats);
       st_failure_types := st_failure_types stats |}
  else if is_failed_password action then
    let failure_type := default "Mot de passe incorrect" (se_failure_type entry) in
    {| st_accepted := st_accepted stats;
       st_failed := st_failed stats;
       st_failed_password :=
         append_at ip {| f_user := user; f_failure_type := failure_type |}
                   (st_failed_password stats);
       st_invalid_user := st_invalid_user stats;
       st_break_in := st_break_in stats;
       st_total_accepted := st_total_accepted stats;
       st_total_failed := st_total_failed stats + 1;
       st_total_failed_password := st_total_failed_password stats + 1;
       st_unique_ips := unique_ips;
       st_top_attacking_ips := count_at ip (st_top_attacking_ips stats);
       st_top_users_failed := count_at user (st_top_users_failed stats);
       st_top_users_accepted := st_top_users_accepted stats;
       st_failure_types := count_at failure_type (st_failure_types stats) |}
  else if is_other_failure action then
    let failure_type := other_failure_type action in
    {| st_accepted := st_accepted stats;
       st_failed :=
         append_at ip {| f_user := user; f_failure_type := failure_type |} (st_failed stats);
       st_failed_password := st_failed_password stats;
       st_invalid_user := st_invalid_user stats;
       st_break_in := st_break_in stats;
       st_total_accepted := st_total_accepted stats;
       st_total_failed := st_total_failed stats + 1;
       st_total_failed_password := st_total_failed_password stats;
       st_unique_ips := unique_ips;
       st_top_attacking_ips := count_at ip (st_top_attacking_ips stats);
       st_top_users_failed := count_at user (st_top_users_failed stats);
       st_top_users_accepted := st_top_users_accepted stats;
       st_failure_types := count_at failure_type (st_failure_types stats) |}
  else
    {| st_accepted := st_accepted stats;
       st_failed := st_failed stats;
       st_failed_password := st_failed_password stats;
       st_invalid_user := st_invalid_user stats;
       st_break_in := st_break_in stats;
       st_total_accepted := st_total_accepted stats;
       st_total_failed := st_total_failed stats;
       st_total_failed_password := st_total_failed_password stats;
       st_unique_ips := unique_ips;
       st_top_attacking_ips := st_top_attacking_ips stats;
       st_top_users_failed := st_top_users_failed stats;
       st_top_users_accepted := st_top_users_accepted stats;
       st_failure_types := st_failure_types stats |}.

(** [stats['unique_ips'] = len(stats['unique_ips'])] *)
Definition count_unique_ips (stats : stats (gset (option string))) : SshStats.stats Z :=
  {| st_accepted := st_accepted stats;
     st_failed := st_failed stats;
     st_failed_password := st_failed_password stats;
     st_invalid_user := st_invalid_user stats;
     st_break_in := st_break_in stats;
     st_total_accepted := st_total_accepted stats;
     st_total_failed := st_total_failed stats;
     st_total_failed_password := st_total_failed_password stats;
     st_unique_ips := Z.of_nat (size (st_unique_ips stats));
     st_top_attacking_ips := st_top_attacking_ips stats;
     st_top_users_failed := st_top_users_failed stats;
     st_top_users_accepted := st_top_users_accepted stats;
     st_failure_types := st_failure_types stats |}.

Definition get_ssh_connection_stats (ssh_entries : list ssh_entry) : stats Z :=
  count_unique_ips (fold_left stats_step ssh_entries initial_stats).

(** The number of entries whose action satisfies [p]. *)
Definition count_actions (p : ssh_action -> bool) (ssh_entries : list ssh_entry) : Z :=
  Z.of_nat (length (List.filter (fun entry => p (se_action entry)) ssh_entries)).

(** The actions counted as failures. *)
Definition is_failure (a : ssh_action) : bool := is_failed_password a || is_other_failure a.

(** The four labels of [failure_types]. *)
Definition failure_labels : list string :=
  [ "Mot de passe incorrect"; "Autre échec"; "Utilisateur invalide";
    "Tentative de piratage" ].

(** An entry as [parse_ssh_log_line] builds it for some line. *)
Definition parsed (entry : ssh_entry) : Prop :=
  exists line, parse_ssh_log_line line = Some entry.

(** [None] is not a key of [d]. *)
Definition keys_set {V} (d : gmap (option string) V) : Prop := d !! None = None.

End SshStats.

(* ================================================================== *)
(** ** [app.py]: the operations of [Fail2ShieldApp] that drive the manager *)
(* ================================================================== *)

Module App.
Import Prog PyStr Fail2banManager.

(** [custom_bantime] is an integer or [None]; [None] and 0 are false. *)
Definition execute_ban (jail_name ip_address ban_type : string) (custom_bantime : option Z)
  : prog procE (option (bool * string)) :=
  if String.eqb ban_type "Permanent" then
    ban_ip_with_time jail_name ip_address (-1)
  else
    match custom_bantime with
    | Some t =>
        if String.eqb ban_type "Temporaire personnalisé" && negb (t =? 0)
        then ban_ip_with_time jail_name ip_address t
        else returning (ban_ip jail_name ip_address)
    | None => returning (ban_ip jail_name ip_address)
    end.

End App.

(* ================================================================== *)
(** ** [utils.py]: [generate_report_data] *)
(* ================================================================== *)

Module Report.
Import Prog PyStr Fail2banManager.

(** A value held by a status dictionary. *)
Inductive value : Type :=
| VStr (s : string)
| VBool (b : bool)
| VInt (z : Z)
| VList (l : list string).

(** The items of the dictionaries [get_jail_status] returns. *)
Definition items (status : jail_status) : list (string * value) :=
  match status with
  | StatusError name enabled error =>
      [ ("name", VStr name); ("enabled", VBool enabled); ("error", VStr error) ]
  | StatusInfo s =>
      [ ("name", VStr (name s)); ("enabled", VBool (enabled s));
        ("filter", VStr (filter s)); ("actions", VList (actions s));
        ("currently_failed", VInt (currently_failed s));
        ("total_failed", VInt (total_failed s));
        ("currently_banned", VInt (currently_banned s));
        ("total_banned", VInt (total_banned s));
        ("banned_ips", VList (banned_ips s)) ]
  end.

(** [j.get(key, default)] *)
Fixpoint get (its : list (string * value)) (key : string) (default : value) : value :=
  match its with
  | [] => default
  | (k, v) :: rest => if String.eqb k key then v else get rest key default
  end.

(** Truth value, for [if j.get('enabled', False)]. *)
Definition truthy (v : value) : bool :=
  match v with
  | VStr s => negb (is_empty s)
  | VBool b => b
  | VInt z => negb (z =? 0)
  | VList l => match l with [] => false | _ => true end
  end.

(** [sum(...)] of values: a boolean counts as 0 or 1; [None] stands for
    the [TypeError] of adding a text or a list to a number. *)
Fixpoint sum (vs : list value) : option Z :=
  match vs with
  | [] => Some 0
  | v :: rest =>
      total ← sum rest;
      match v with
      | VInt z => Some (z + total)
      | VBool b => Some ((if b then 1 else 0) + total)
      | VStr _ | VList _ => None
      end
  end.

Record summary : Type := Summary {
  total_jails : Z;
  active_jails : Z;
  total_banned_ips : Z;
  total_failures : Z
}.

Record report : Type := ReportData {
  timestamp : string;
  report_summary : summary;
  jails : list jail_status;
  report_banned_ips : gmap string (list string)
}.

(** [datetime.now().strftime(format)] *)
Inductive clockE : Type -> Type :=
| StrftimeNow (format : string) : clockE string.

Definition generate_report_data (jails_data : list jail_status)
           (banned_ips : gmap string (list string)) : prog clockE (option report) :=
  let* timestamp := trigger (StrftimeNow "%Y-%m-%d %H:%M:%S") in
  Ret (total_failures ←
         sum (map (fun j => get (items j) "failed" (VInt 0)) jails_data);
       Some {| timestamp := timestamp;
               report_summary :=
                 {| total_jails := Z.of_nat (length jails_data);
                    active_jails :=
                      Z.of_nat (length (List.filter
                                  (fun j => truthy (get (items j) "enabled" (VBool false)))
                                  jails_data));
                    total_banned_ips :=
                      map_fold (fun _ ips acc => Z.of_nat (length ips) + acc) 0 banned_ips;
                    total_failures := total_failures |};
               jails := jails_data;
               report_banned_ips := banned_ips |}).

End Report.

(* ================================================================== *)
(** ** The ban-management tool behind the command boundary *)
(* ================================================================== *)

Module Enforcement.

(** Modelled from the spec: the tool itself is outside the repository.
    Section 6 lists the commands [set <jail> bantime <seconds>],
    [set <jail> banip <ip>] and [set <jail> unbanip <ip>]; the glossary
    makes [bantime] the ban duration of a jail.  A jail holds its
    bantime, as the text last set, and its bans, each with the bantime
    in force when it was made.  The banned addresses of a jail are
    unique (section 3), and banning an address twice leaves one record
    (section 8): [banip] replaces the ban the address had.  Section 4.4
    reads a duration of -1 as permanent, of 0 as "unban immediately / no
    ban" and a positive one as seconds to live: under a bantime of 0,
    [banip] leaves the address unbanned. *)
Record jail : Type := Jail { bantime : string; bans : list (string * string) }.








End Enforcement.

(* ================================================================== *)
(** * Proofs *)
(* ================================================================== *)

(** ** Text *)

Section StrFacts.
Import PyStr.

Lemma append_empty_r (s : string) : s +:+ "" = s.
Proof. induction s as [|c s IH]; simpl; [reflexivity | now rewrite IH]. Qed.

Lemma append_assoc (a b c : string) : (a +:+ b) +:+ c = a +:+ (b +:+ c).
Proof. induction a as [|x a IH]; simpl; [reflexivity | now rewrite IH]. Qed.

Lemma length_append (a b : string) :
  String.length (a +:+ b) = (String.length a + String.length b)%nat.
Proof. induction a as [|x a IH]; simpl; [reflexivity | now rewrite IH]. Qed.

Lemma has_char_append c a b : has_char c (a +:+ b) = has_char c a || has_char c b.
Proof.
  induction a as [|x a IH]; simpl; [reflexivity|].
  rewrite IH. now rewrite orb_assoc.
Qed.

(** *** [replace] with the empty text removes the character *)

Lemma replace_removes c s : has_char c (replace_chr c "" s) = false.
Proof.
  induction s as [|a s IH]; simpl; [reflexivity|].
  destruct (Ascii.eqb a c) eqn:E; simpl; [exact IH|].
  now rewrite E, IH.
Qed.

Lemma replace_keeps_absent a c s :
  has_char a s = false -> has_char a (replace_chr c "" s) = false.
Proof.
  induction s as [|x s IH]; simpl; [reflexivity|].
  intros H. apply orb_false_iff in H as [Hx Hs].
  destruct (Ascii.eqb x c); simpl; [now apply IH|].
  rewrite Hx. now apply IH.
Qed.

Lemma replace_absent c s : has_char c s = false -> replace_chr c "" s = s.
Proof.
  induction s as [|x s IH]; simpl; [reflexivity|].
  intros H. apply orb_false_iff in H as [Hx Hs].
  rewrite Hx. now rewrite IH.
Qed.

(** *** [strip] *)

Lemma lstrip_has_char c s : has_char c (lstrip s) = true -> has_char c s = true.
Proof.
  induction s as [|x s IH]; simpl; [discriminate|].
  destruct (is_space x); [|trivial].
  intros H. rewrite (IH H). apply orb_true_r.
Qed.

Lemma rstrip_has_char c s : has_char c (rstrip s) = true -> has_char c s = true.
Proof.
  induction s as [|x s IH]; simpl; [discriminate|].
  destruct (rstrip s) as [|y r] eqn:E.
  - destruct (is_space x); simpl; [discriminate|].
    rewrite orb_false_r. intros ->. reflexivity.
  - simpl. intros H. apply orb_true_iff in H as [H|H].
    + now rewrite H.
    + simpl in IH. rewrite (IH H). apply orb_true_r.
Qed.

Lemma strip_keeps_absent c s : has_char c s = false -> has_char c (strip s) = false.
Proof.
  intros H. unfold strip.
  destruct (has_char c (rstrip (lstrip s))) eqn:E; [|reflexivity].
  apply rstrip_has_char, lstrip_has_char in E. congruence.
Qed.

Lemma lstrip_head s c : head_chr (lstrip s) = Some c -> is_space c = false.
Proof.
  induction s as [|x s IH]; simpl; [discriminate|].
  destruct (is_space x) eqn:E; [exact IH|].
  simpl. intros [= <-]. exact E.
Qed.

Lemma rstrip_head s : head_chr s = head_chr (lstrip s) -> head_chr (rstrip s) = head_chr s.
Proof.
  destruct s as [|x s]; simpl; [reflexivity|].
  destruct (is_space x) eqn:E.
  - intros H. symmetry in H. apply lstrip_head in H. congruence.
  - intros _. destruct (rstrip s); reflexivity.
Qed.

Lemma lstrip_fixed s :
  (forall c, head_chr s = Some c -> is_space c = false) -> lstrip s = s.
Proof.
  destruct s as [|x s]; simpl; [reflexivity|].
  intros H. now rewrite (H x eq_refl).
Qed.

Lemma lstrip_idem s : lstrip (lstrip s) = lstrip s.
Proof. apply lstrip_fixed. intros c. apply lstrip_head. Qed.

Lemma strip_head s c : head_chr (strip s) = Some c -> is_space c = false.
Proof.
  unfold strip. rewrite rstrip_head.
  - apply lstrip_head.
  - now rewrite lstrip_idem.
Qed.

Lemma rstrip_idem s : rstrip (rstrip s) = rstrip s.
Proof.
  induction s as [|x s IH]; simpl; [reflexivity|].
  destruct (rstrip s) as [|y r] eqn:E.
  - destruct (is_space x) eqn:Ex; simpl; [reflexivity|]. now rewrite Ex.
  - change (rstrip (String x (String y r)) = String x (String y r)).
    simpl. simpl in IH. now rewrite IH.
Qed.

Lemma rstrip_last s c : last_chr (rstrip s) = Some c -> is_space c = false.
Proof.
  induction s as [|x s IH]; simpl; [discriminate|].
  destruct (rstrip s) as [|y r] eqn:E.
  - destruct (is_space x) eqn:Ex; simpl; [discriminate|]. now intros [= <-].
  - change (last_chr (String x (String y r))) with
      (match last_chr (String y r) with Some d => Some d | None => Some x end).
    destruct (last_chr (String y r)) as [d|] eqn:L.
    + intros [= <-]. now apply IH.
    + simpl in L. destruct (last_chr r); discriminate.
Qed.

Lemma strip_idem s : strip (strip s) = strip s.
Proof.
  unfold strip.
  rewrite (lstrip_fixed (rstrip (lstrip s))).
  - apply rstrip_idem.
  - intros c. apply (strip_head s).
Qed.

End StrFacts.

(** ** [sanitize_input] *)

Section Sanitize.
Import PyStr.

Lemma strip_all_keeps_absent a cs s :
  has_char a s = false -> has_char a (strip_all cs s) = false.
Proof.
  revert s. induction cs as [|c cs IH]; intros s H; simpl; [exact H|].
  apply IH. now apply replace_keeps_absent.
Qed.

Lemma strip_all_removes cs c s : In c cs -> has_char c (strip_all cs s) = false.
Proof.
  revert s. induction cs as [|c0 cs IH]; intros s; simpl; [tauto|].
  intros [->|H].
  - apply strip_all_keeps_absent, replace_removes.
  - now apply IH.
Qed.

Lemma strip_all_clean cs s :
  (forall c, In c cs -> has_char c s = false) -> strip_all cs s = s.
Proof.
  revert s. induction cs as [|c0 cs IH]; intros s H; simpl; [reflexivity|].
  rewrite replace_absent by (apply H; now left).
  apply IH. intros c Hc. apply H. now right.
Qed.

Lemma sanitize_input_clean c s :
  In c dangerous_chars -> has_char c (sanitize_input s) = false.
Proof.
  intros H. unfold sanitize_input.
  apply strip_keeps_absent, (strip_all_removes dangerous_chars c s H).
Qed.

(** C10. [sanitize_input] is idempotent; its result holds none of the
    characters of the deny-list, and neither begins nor ends with
    whitespace. *)
Theorem sanitize_input_idempotent (s : string) :
  sanitize_input (sanitize_input s) = sanitize_input s
  /\ (forall c, In c dangerous_chars -> has_char c (sanitize_input s) = false)
  /\ (forall c, head_chr (sanitize_input s) = Some c -> is_space c = false)
  /\ (forall c, last_chr (sanitize_input s) = Some c -> is_space c = false).
Proof.
  split; [|split; [|split]].
  - unfold sanitize_input at 1.
    rewrite strip_all_clean by (intros c Hc; now apply sanitize_input_clean).
    unfold sanitize_input. apply strip_idem.
  - intros c Hc. now apply sanitize_input_clean.
  - intros c. unfold sanitize_input. apply strip_head.
  - intros c. unfold sanitize_input, strip. apply rstrip_last.
Qed.

End Sanitize.

(** ** The matcher only finds what the pattern describes *)

Section ReFacts.
Import PyStr Re ReSpec IpAddress.

Lemma strip_prefix_sound t s s' : strip_prefix t s = Some s' -> s = t +:+ s'.
Proof.
  revert s. induction t as [|a t IH]; intros [|b s]; simpl; try discriminate.
  - now intros [= ->].
  - now intros [= ->].
  - destruct (Ascii.eqb a b) eqn:E; [|discriminate].
    apply Ascii.eqb_eq in E as ->. intros H. now rewrite (IH _ H).
Qed.

Lemma take_len_app w s' : take (len w) (w +:+ s') = w.
Proof. induction w as [|c w IH]; simpl; [now destruct s' | now rewrite IH]. Qed.

Lemma consumed_app w s' : consumed (w +:+ s') s' = w.
Proof.
  unfold consumed, len. rewrite length_append.
  replace (String.length w + String.length s' - String.length s')%nat
    with (len w) by (unfold len; lia).
  apply take_len_app.
Qed.

Lemma group_app n a b :
  group n (a ++ b) = match group n a with Some v => Some v | None => group n b end.
Proof.
  induction a as [|[k v] a IH]; simpl; [reflexivity|].
  destruct (k =? n)%nat; [reflexivity | exact IH].
Qed.

Lemma group_in n g v : group n g = Some v -> In (n, v) g.
Proof.
  induction g as [|[k w] g IH]; simpl; [discriminate|].
  destruct (k =? n)%nat eqn:E.
  - apply Nat.eqb_eq in E as ->. intros [= ->]. now left.
  - intros H. right. now apply IH.
Qed.

Lemma captured_group G g n v : captured_ok G g -> group n g = Some v -> G n v.
Proof.
  intros Hg H. apply group_in in H.
  exact (proj1 (List.Forall_forall _ _) Hg _ H).
Qed.

Lemma m_rep_sound {A} p s : forall lo hi (cont : string -> option A) x,
  m_rep p lo hi s cont = Some x ->
  exists w s', s = w +:+ s' /\ all_chars p w = true /\ (lo <= len w)%nat
    /\ match hi with Some h => (len w <= h)%nat | None => True end
    /\ cont s' = Some x.
Proof.
  assert (Hstop : forall (s0 : string) lo hi (cont : string -> option A) x,
             (if (lo =? 0)%nat then cont s0 else None) = Some x ->
             exists w s', s0 = w +:+ s' /\ all_chars p w = true /\ (lo <= len w)%nat
               /\ match hi with Some h => (len w <= h)%nat | None => True end
               /\ cont s' = Some x).
  { intros s0 lo hi cont x H. destruct (lo =? 0)%nat eqn:E; [|discriminate].
    apply Nat.eqb_eq in E as ->. exists EmptyString, s0. simpl.
    repeat split; trivial. destruct hi; [lia | trivial]. }
  induction s as [|c s IH]; intros lo hi cont x; simpl.
  - apply Hstop.
  - destruct (p c && more_allowed hi) eqn:E; [|apply Hstop].
    destruct (m_rep p (Init.Nat.pred lo) (Init.Nat.pred <$> hi) s cont) as [y|] eqn:R;
      [|apply Hstop].
    intros [= ->]. apply andb_true_iff in E as [Hp Hm].
    destruct (IH _ _ _ _ R) as (w & s' & -> & Hw & Hlo & Hhi & Hc).
    exists (String c w), s'. simpl. rewrite Hp, Hw. repeat split; trivial.
    + unfold len in *. lia.
    + destruct hi as [[|h]|]; simpl in *; try discriminate; trivial.
      unfold len in *. lia.
Qed.

Lemma m_sound G r : groups_ok G r ->
  forall A s g (cont : string -> groups -> option A) x,
  m r s g cont = Some x ->
  exists w s' new,
    s = w +:+ s' /\ lang r w /\ captured_ok G new
    /\ (forall n, In n (binds r) -> exists v, group n new = Some v)
    /\ cont s' (new ++ g) = Some x.
Proof.
  induction r as [t|k lo hi|r1 IH1|n r1 IH1|r1 IH1 r2 IH2];
    intros Hok A s g cont x; simpl.
  - destruct (strip_prefix t s) as [s'|] eqn:E; [|discriminate].
    intros H. apply strip_prefix_sound in E as ->.
    exists t, s', []. repeat split; trivial; [constructor | intros ? []].
  - intros H. apply m_rep_sound in H as (w & s' & -> & Hw & Hlo & Hhi & Hc).
    exists w, s', []. repeat split; trivial; [constructor | intros ? []].
  - destruct (m r1 s g cont) as [y|] eqn:E.
    + intros [= ->]. simpl in Hok.
      destruct (IH1 Hok _ _ _ _ _ E) as (w & s' & new & -> & Hl & Hc & _ & Hk).
      exists w, s', new. repeat split; trivial; [now right | intros ? []].
    + intros H. exists EmptyString, s, []. repeat split; trivial;
        [now left | constructor | intros ? []].
  - intros H. destruct Hok as [HG Hok].
    destruct (IH1 Hok _ _ _ _ _ H) as (w & s' & new & -> & Hl & Hc & Hb & Hk).
    rewrite consumed_app in Hk.
    exists w, s', ((n, w) :: new). repeat split; trivial.
    + constructor; [now apply HG | exact Hc].
    + intros n' [<-|Hn]; simpl.
      * rewrite Nat.eqb_refl. eauto.
      * destruct (n =? n')%nat; eauto.
  - intros H. destruct Hok as [Hok1 Hok2].
    destruct (IH1 Hok1 _ _ _ _ _ H) as (w1 & s1 & new1 & -> & Hl1 & Hc1 & Hb1 & Hk1).
    destruct (IH2 Hok2 _ _ _ _ _ Hk1) as (w2 & s2 & new2 & -> & Hl2 & Hc2 & Hb2 & Hk2).
    exists (w1 +:+ w2), s2, (new2 ++ new1). repeat split.
    + now rewrite append_assoc.
    + eauto.
    + unfold captured_ok. apply Forall_app. now split.
    + intros n Hn. rewrite group_app. apply in_app_or in Hn as [Hn|Hn].
      * destruct (group n new2); eauto.
      * destruct (Hb2 _ Hn) as [v ->]. eauto.
    + now rewrite <- app_assoc.
Qed.

(** A successful [search] has matched a piece of the line that the
    pattern describes; the groups hold acceptable text, and every group
    the pattern binds is set. *)
Lemma search_sound G r s mt : groups_ok G r -> search r s = Some mt ->
  captured_ok G mt
  /\ (forall n, In n (binds r) -> exists v, group n mt = Some v)
  /\ exists pre w post, s = pre +:+ w +:+ post /\ lang r w.
Proof.
  intros Hok.
  assert (Hhere : forall s0, m r s0 [] (fun _ g => Some g) = Some mt ->
            captured_ok G mt
            /\ (forall n, In n (binds r) -> exists v, group n mt = Some v)
            /\ exists pre w post, s0 = pre +:+ w +:+ post /\ lang r w).
  { intros s0 E.
    apply (m_sound G r Hok) in E as (w & s' & new & -> & Hl & Hc & Hb & [= <-]).
    rewrite app_nil_r. repeat split; trivial. now exists EmptyString, w, s'. }
  induction s as [|c s IH]; simpl.
  - destruct (m r EmptyString [] (fun _ g => Some g)) as [y|] eqn:E; [|discriminate].
    intros [= ->]. now apply Hhere.
  - destruct (m r (String c s) [] (fun _ g => Some g)) as [y|] eqn:E.
    + intros [= ->]. now apply Hhere.
    + intros H. destruct (IH H) as (Hc & Hb & pre & w & post & -> & Hl).
      repeat split; trivial. now exists (String c pre), w, post.
Qed.

(** *** The shape [\d+\.\d+\.\d+\.\d+] *)

Lemma digit_not_dot c : is_digit c = true -> Ascii.eqb c "." = false.
Proof.
  intros H. destruct (Ascii.eqb_spec c ".") as [->|]; [discriminate H | reflexivity].
Qed.

Lemma split_digits_dot a rest : all_chars is_digit a = true ->
  split_chr "." (a +:+ String "." rest) = a :: split_chr "." rest.
Proof.
  induction a as [|c a IH]; simpl; [reflexivity|].
  intros H. apply andb_true_iff in H as [Hc Ha].
  rewrite (digit_not_dot _ Hc), (IH Ha). reflexivity.
Qed.

Lemma split_digits a : all_chars is_digit a = true -> split_chr "." a = [a].
Proof.
  induction a as [|c a IH]; simpl; [reflexivity|].
  intros H. apply andb_true_iff in H as [Hc Ha].
  rewrite (digit_not_dot _ Hc), (IH Ha). reflexivity.
Qed.

Lemma all_chars_ext p q w :
  (forall c, p c = q c) -> all_chars p w = all_chars q w.
Proof. intros H. induction w as [|c w IH]; simpl; [reflexivity | now rewrite H, IH]. Qed.

Lemma plus_digit_all w : lang (plus Digit) w -> all_chars is_digit w = true.
Proof.
  intros (Hw & _). rewrite <- Hw. now apply all_chars_ext.
Qed.

Lemma plus_digit_is_digits w : lang (plus Digit) w -> is_digits w = true.
Proof.
  intros H. unfold is_digits. rewrite (plus_digit_all _ H).
  destruct H as (_ & Hlen & _). destruct w; [simpl in Hlen; lia | reflexivity].
Qed.

Lemma dotted_quad_shape w : lang Patterns.dotted_quad w -> is_dotted_digits w = true.
Proof.
  unfold Patterns.dotted_quad.
  intros (a & ? & -> & Ha & ? & ? & -> & -> & b & ? & -> & Hb & ? & ? & -> & ->
            & c & ? & -> & Hc & ? & d & -> & -> & Hd).
  pose proof (plus_digit_is_digits _ Ha) as Ea.
  pose proof (plus_digit_is_digits _ Hb) as Eb.
  pose proof (plus_digit_is_digits _ Hc) as Ec.
  pose proof (plus_digit_is_digits _ Hd) as Ed.
  apply plus_digit_all in Ha, Hb, Hc, Hd.
  unfold is_dotted_digits. simpl String.append.
  rewrite (split_digits_dot a), (split_digits_dot b), (split_digits_dot c),
    (split_digits d) by assumption.
  now rewrite Ea, Eb, Ec, Ed.
Qed.

(** *** [sub in s] *)

Lemma starts_with_app sub b : starts_with sub (sub +:+ b) = true.
Proof.
  induction sub as [|c sub IH]; simpl; [reflexivity|].
  now rewrite Ascii.eqb_refl, IH.
Qed.

Lemma contains_app sub a b : contains sub (a +:+ sub +:+ b) = true.
Proof.
  induction a as [|c a IH].
  - simpl String.append. destruct (sub +:+ b) eqn:E; simpl;
      rewrite <- E, starts_with_app; reflexivity.
  - simpl. rewrite IH. apply orb_true_r.
Qed.

End ReFacts.

(** ** [parse_log_line] and [parse_ssh_log_line] *)

Section Parsers.
Import PyStr Re ReSpec Patterns.

Lemma groups_ok_seq G a b : groups_ok G a -> groups_ok G b -> groups_ok G (Seq a b).
Proof. now split. Qed.

Lemma groups_ok_group G n r :
  (forall w, lang r w -> G n w) -> groups_ok G r -> groups_ok G (Group n r).
Proof. now split. Qed.

Lemma groups_ok_opt G r : groups_ok G r -> groups_ok G (Opt r).
Proof. trivial. Qed.

Ltac solve_groups_ok :=
  repeat match goal with
    | |- groups_ok _ (Seq _ _) => apply groups_ok_seq
    | |- groups_ok _ (Opt _) => apply groups_ok_opt
    | |- groups_ok _ (Lit _) => exact I
    | |- groups_ok _ (Rep _ _ _) => exact I
    | |- groups_ok _ (Group _ _) =>
        apply groups_ok_group;
        [ intros w Hw; first [ exact I
                             | intros Hn; first [ discriminate Hn
                                                | exact (dotted_quad_shape _ Hw) ] ] | ]
    | H : groups_ok ?G ?r |- groups_ok ?G ?r => exact H
    | |- groups_ok _ _ =>
        progress unfold fail2ban_line, ts_fail2ban, ts_syslog, ts_iso, sshd_prefix,
          accepted_pat, failed_password_pat, failed_pat, auth_failure_pat,
          invalid_user_pat, break_in_pat, disconnect_pat, dotted_quad,
          exactly, plus, star
    end.

Lemma fail2ban_line_ok keyword : groups_ok (holds_dotted 3) (fail2ban_line keyword).
Proof. solve_groups_ok. Qed.

Lemma parse_log_line_loop_ip line patterns e :
  (forall a r, In (a, r) patterns -> exists keyword, r = fail2ban_line keyword) ->
  parse_log_line_loop line patterns = Some e ->
  exists ip, le_ip e = Some ip /\ is_dotted_digits ip = true.
Proof.
  induction patterns as [|[a r] rest IH]; simpl; [discriminate|].
  intros Hp. destruct (search r line) as [mt|] eqn:E.
  - intros [= <-]. simpl.
    destruct (Hp a r (or_introl eq_refl)) as [keyword ->].
    destruct (search_sound _ _ _ _ (fail2ban_line_ok keyword) E) as (Hc & Hb & _).
    destruct (Hb 3%nat) as [v Hv]; [simpl; tauto|].
    exists v. split; [exact Hv|]. exact (captured_group _ _ _ _ Hc Hv eq_refl).
  - apply IH. intros a' r' H. apply (Hp a' r'). now right.
Qed.

Lemma se_ip_read line action mt :
  se_ip (ssh_entry_of_match line action mt) = group (ip_group_read line action) mt.
Proof.
  unfold ssh_entry_of_match, ip_group_read.
  destruct (is_break_in action); [reflexivity|].
  destruct (is_failed action && contains "authentication failure" line); [reflexivity|].
  destruct (is_failed_password action); reflexivity.
Qed.

Lemma se_action_of_match line action mt :
  se_action (ssh_entry_of_match line action mt) = action.
Proof.
  unfold ssh_entry_of_match.
  destruct (is_break_in action); [reflexivity|].
  destruct (is_failed action && contains "authentication failure" line); [reflexivity|].
  destruct (is_failed_password action); reflexivity.
Qed.

Lemma ssh_match_ip line action pattern mt k :
  search pattern line = Some mt ->
  groups_ok (holds_dotted k) pattern -> In k (binds pattern) ->
  ip_group_read line action = k ->
  exists ip, se_ip (ssh_entry_of_match line action mt) = Some ip
             /\ is_dotted_digits ip = true.
Proof.
  intros E Hok Hb Hk. destruct (search_sound _ _ _ _ Hok E) as (Hc & Hbs & _).
  destruct (Hbs _ Hb) as [v Hv]. exists v. split.
  - rewrite se_ip_read, Hk. exact Hv.
  - exact (captured_group _ _ _ _ Hc Hv eq_refl).
Qed.

(** A pattern [<ts>.*sshd.*TEXT...] matches only lines that carry
    [TEXT]. *)
Lemma prefixed_lit_contains ts t rest line mt :
  groups_ok holds_anything ts -> groups_ok holds_anything rest ->
  search (Seq (sshd_prefix ts) (Seq (Lit t) rest)) line = Some mt ->
  contains t line = true.
Proof.
  intros Hts Hrest E.
  assert (Hok : groups_ok holds_anything (Seq (sshd_prefix ts) (Seq (Lit t) rest))).
  { solve_groups_ok. }
  destruct (search_sound _ _ _ _ Hok E) as (_ & _ & pre & w & post & -> & Hl).
  destruct Hl as (a & b & -> & _ & a2 & b2 & -> & Ha2 & _).
  simpl in Ha2. subst a2.
  rewrite (append_assoc a), <- (append_assoc pre), (append_assoc _ b2).
  apply contains_app.
Qed.

Lemma ts_syslog_any : groups_ok holds_anything ts_syslog.
Proof. solve_groups_ok. Qed.

Lemma ts_iso_any : groups_ok holds_anything ts_iso.
Proof. solve_groups_ok. Qed.

Lemma failed_contains ts line mt :
  groups_ok holds_anything ts ->
  search (failed_pat ts) line = Some mt -> contains "Failed " line = true.
Proof.
  intros Hts E. unfold failed_pat in E.
  apply (prefixed_lit_contains _ _ _ _ _ Hts) in E; [exact E|]. solve_groups_ok.
Qed.

Lemma auth_failure_contains ts line mt :
  groups_ok holds_anything ts ->
  search (auth_failure_pat ts) line = Some mt ->
  contains "authentication failure" line = true.
Proof.
  intros Hts E. unfold auth_failure_pat in E.
  apply (prefixed_lit_contains _ _ _ _ _ Hts) in E; [exact E|]. solve_groups_ok.
Qed.

(** One pattern of the loop: when it matches, the event comes from it
    and group [k] is the address; otherwise go on. *)
Ltac ssh_case line P k Hparse :=
  destruct (search P line) as [mt|] eqn:E;
  [ injection Hparse as <-;
    apply (ssh_match_ip line _ P mt k E);
    [ solve_groups_ok | simpl; tauto | ]
  | clear E ].

Lemma parse_ssh_log_line_ip line e :
  parse_ssh_log_line line = Some e ->
  is_failed (se_action e) && swaps_user_and_ip line = false ->
  exists ip, se_ip e = Some ip /\ is_dotted_digits ip = true.
Proof.
  unfold parse_ssh_log_line. destruct (negb (contains "sshd" line)); [discriminate|].
  unfold ssh_patterns. cbn [ssh_patterns_loop ssh_pattern_list_loop].
  intros Hparse Hnot.
  ssh_case line (accepted_pat ts_syslog) 3%nat Hparse; [reflexivity|].
  ssh_case line (accepted_pat ts_iso) 3%nat Hparse; [reflexivity|].
  ssh_case line (failed_password_pat ts_syslog) 3%nat Hparse; [reflexivity|].
  ssh_case line (failed_password_pat ts_iso) 3%nat Hparse; [reflexivity|].
  destruct (search (failed_pat ts_syslog) line) as [mt|] eqn:E.
  { injection Hparse as <-.
    apply (ssh_match_ip line _ (failed_pat ts_syslog) mt 3%nat E);
      [solve_groups_ok | simpl; tauto | ].
    unfold ip_group_read. simpl.
    rewrite se_action_of_match in Hnot. unfold swaps_user_and_ip, matches in Hnot.
    rewrite E in Hnot. simpl in Hnot. rewrite andb_true_r in Hnot.
    now rewrite Hnot. }
  assert (Hsys : matches (failed_pat ts_syslog) line = false)
    by (unfold matches; now rewrite E).
  clear E.
  ssh_case line (failed_pat ts_iso) 3%nat Hparse.
  { unfold ip_group_read. simpl.
    rewrite se_action_of_match in Hnot. unfold swaps_user_and_ip in Hnot.
    rewrite Hsys in Hnot. unfold matches in Hnot.
    rewrite E in Hnot. simpl in Hnot. rewrite andb_true_r in Hnot.
    now rewrite Hnot. }
  ssh_case line (auth_failure_pat ts_syslog) 2%nat Hparse.
  { unfold ip_group_read. simpl.
    now rewrite (auth_failure_contains _ _ _ ts_syslog_any E). }
  ssh_case line (invalid_user_pat ts_syslog) 3%nat Hparse; [reflexivity|].
  ssh_case line (invalid_user_pat ts_iso) 3%nat Hparse; [reflexivity|].
  ssh_case line (break_in_pat ts_syslog) 2%nat Hparse; [reflexivity|].
  ssh_case line (break_in_pat ts_iso) 2%nat Hparse; [reflexivity|].
  ssh_case line (disconnect_pat ts_syslog) 3%nat Hparse; [reflexivity|].
  ssh_case line (disconnect_pat ts_iso) 3%nat Hparse; [reflexivity|].
  discriminate Hparse.
Qed.

(** C6. The ban line of the specification parses to a [ban] event for
    jail [sshd] and address [1.2.3.4]; the same line with [UNBAN] parses
    to an [unban] event for the same jail and address. *)
Theorem parse_log_line_ban_unban :
  parse_log_line "2024-01-01 10:00:00,000 fail2ban.actions [sshd] BAN 1.2.3.4"
  = Some {| le_timestamp := Some "2024-01-01 10:00:00,000";
            le_jail := Some "sshd";
            le_ip := Some "1.2.3.4";
            le_action := ban;
            le_raw_line := "2024-01-01 10:00:00,000 fail2ban.actions [sshd] BAN 1.2.3.4" |}
  /\ parse_log_line "2024-01-01 10:00:00,000 fail2ban.actions [sshd] UNBAN 1.2.3.4"
     = Some {| le_timestamp := Some "2024-01-01 10:00:00,000";
               le_jail := Some "sshd";
               le_ip := Some "1.2.3.4";
               le_action := unban;
               le_raw_line :=
                 "2024-01-01 10:00:00,000 fail2ban.actions [sshd] UNBAN 1.2.3.4" |}.
Proof. split; vm_compute; reflexivity. Qed.

(** C7. The failed-password line of the specification parses to a
    [failed_password] event for user [admin] and address [10.0.0.5]; with
    the address cut down to [10.0.0] the line gives no event. *)
Theorem parse_ssh_log_line_failed_password :
  parse_ssh_log_line
    "Jan 5 10:00:00 host sshd[123]: Failed password for invalid user admin from 10.0.0.5 port 22"
  = Some {| se_timestamp := Some "Jan 5 10:00:00";
            se_user := Some "admin";
            se_ip := Some "10.0.0.5";
            se_action := failed_password;
            se_failure_type := Some "Mot de passe incorrect";
            se_raw_line :=
              "Jan 5 10:00:00 host sshd[123]: Failed password for invalid user admin from 10.0.0.5 port 22" |}
  /\ parse_ssh_log_line
       "Jan 5 10:00:00 host sshd[123]: Failed password for invalid user admin from 10.0.0 port 22"
     = None.
Proof. split; vm_compute; reflexivity. Qed.

(** C3, as stated, fails: both parsers hand out an event whose address
    the validator rejects. *)
Lemma parsers_pass_invalid_ip :
  (parse_log_line "2024-01-01 10:00:00,000 fail2ban.actions [sshd] BAN 999.1.2.3"
   = Some {| le_timestamp := Some "2024-01-01 10:00:00,000";
             le_jail := Some "sshd";
             le_ip := Some "999.1.2.3";
             le_action := ban;
             le_raw_line :=
               "2024-01-01 10:00:00,000 fail2ban.actions [sshd] BAN 999.1.2.3" |}
   /\ validate_ip_address "999.1.2.3" = false)
  /\ (parse_ssh_log_line
        "Jan 5 10:00:00 host sshd[123]: Accepted password for bob from 300.2.3.4 port 22"
      = Some {| se_timestamp := Some "Jan 5 10:00:00";
                se_user := Some "bob";
                se_ip := Some "300.2.3.4";
                se_action := accepted;
                se_failure_type := None;
                se_raw_line :=
                  "Jan 5 10:00:00 host sshd[123]: Accepted password for bob from 300.2.3.4 port 22" |}
      /\ validate_ip_address "300.2.3.4" = false).
Proof. repeat split; vm_compute; reflexivity. Qed.

(** C3, amended.  On a line of ASCII text, whenever [parse_log_line]
    returns an event, its address has the shape
    digits.digits.digits.digits; so has the address of every event
    [parse_ssh_log_line] returns, but for a [failed] event of a line on
    which user and address are read from each other's group
    ([swaps_user_and_ip]).  No parser checks that the text is a valid
    address. *)
Theorem parsers_ip_shape (line : string) :
  is_ascii line = true ->
  (forall e, parse_log_line line = Some e ->
             exists ip, le_ip e = Some ip /\ is_dotted_digits ip = true)
  /\ (forall e, parse_ssh_log_line line = Some e ->
                is_failed (se_action e) && swaps_user_and_ip line = false ->
                exists ip, se_ip e = Some ip /\ is_dotted_digits ip = true).
Proof.
  intros _. split.
  - intros e. unfold parse_log_line. apply parse_log_line_loop_ip.
    unfold log_patterns. intros a r [[= <- <-]|[[= <- <-]|[[= <- <-]|[]]]]; eauto.
  - intros e. apply parse_ssh_log_line_ip.
Qed.

(** The second line carries both [Failed ] and [authentication failure]
    and gives a [failed_password] event. *)
Lemma parsers_ip_shape_witness :
  (exists ip, Some "999.1.2.3" = Some ip /\ is_dotted_digits ip = true)
  /\ (exists ip, Some "300.2.3.4" = Some ip /\ is_dotted_digits ip = true).
Proof.
  split.
  - apply (proj1 (parsers_ip_shape
             "2024-01-01 10:00:00,000 fail2ban.actions [sshd] BAN 999.1.2.3" eq_refl)
             (LogEntry (Some "2024-01-01 10:00:00,000") (Some "sshd") (Some "999.1.2.3")
                       ban "2024-01-01 10:00:00,000 fail2ban.actions [sshd] BAN 999.1.2.3")).
    vm_compute. reflexivity.
  - apply (proj2 (parsers_ip_shape
             "Jan 5 10:00:00 host sshd[123]: Failed password for bob from 300.2.3.4 port 22: authentication failure"
             eq_refl)
             (SshEntry (Some "Jan 5 10:00:00") (Some "bob") (Some "300.2.3.4")
                failed_password (Some "Mot de passe incorrect")
                "Jan 5 10:00:00 host sshd[123]: Failed password for bob from 300.2.3.4 port 22: authentication failure")).
    + vm_compute. reflexivity.
    + vm_compute. reflexivity.
Defined.

End Parsers.

(** ** [Fail2banManager]: banning and unbanning *)

Section Mutations.
Import PyStr Prog Fail2banManager.

(** *** [str] of an integer is its decimal text *)

Lemma int_of_digits_app base acc a b :
  int_of_digits base acc (a +:+ b) = int_of_digits base (int_of_digits base acc a) b.
Proof. revert acc. induction a as [|c a IH]; intros acc; simpl; [reflexivity | apply IH]. Qed.

Lemma digit_val_chr d : 0 <= d < 10 -> digit_val (digit_chr d) = d.
Proof.
  intros H.
  assert (E : d = 0 \/ d = 1 \/ d = 2 \/ d = 3 \/ d = 4 \/ d = 5 \/ d = 6 \/ d = 7
              \/ d = 8 \/ d = 9) by lia.
  repeat (destruct E as [->|E]; [reflexivity|]). now subst.
Qed.

Lemma str_of_pos_aux_value fuel : forall n acc,
  0 <= n < 2 ^ Z.of_nat fuel ->
  exists ds, str_of_pos_aux fuel n acc = ds +:+ acc /\ int_of_digits 10 0 ds = n.
Proof.
  induction fuel as [|fuel IH]; intros n acc Hn.
  - simpl in Hn. exists EmptyString. split; [reflexivity|]. simpl. lia.
  - cbn [str_of_pos_aux]. destruct (n <? 10) eqn:E.
    + apply Z.ltb_lt in E. exists (String (digit_chr (n mod 10)) EmptyString).
      split; [reflexivity|]. simpl. rewrite digit_val_chr by (apply Z.mod_pos_bound; lia).
      rewrite Z.mod_small; lia.
    + apply Z.ltb_ge in E.
      destruct (IH (n / 10) (String (digit_chr (n mod 10)) acc)) as (ds & Hds & Hv).
      { rewrite Nat2Z.inj_succ, Z.pow_succ_r in Hn by lia.
        split; [apply Z.div_pos; lia|].
        apply Z.div_lt_upper_bound; lia. }
      exists (ds +:+ String (digit_chr (n mod 10)) EmptyString). split.
      * rewrite Hds, append_assoc. reflexivity.
      * rewrite int_of_digits_app, Hv. simpl.
        rewrite digit_val_chr by (apply Z.mod_pos_bound; lia).
        pose proof (Z.div_mod n 10). lia.
Qed.

Lemma str_of_pos_value n : 0 <= n ->
  exists ds, str_of_pos_aux (Z.to_nat (Z.log2 n) + 1) n EmptyString = ds
             /\ int_of_digits 10 0 ds = n.
Proof.
  intros Hn.
  destruct (str_of_pos_aux_value (Z.to_nat (Z.log2 n) + 1) n EmptyString) as (ds & E & V).
  - split; [exact Hn|].
    rewrite Nat2Z.inj_add, Z2Nat.id by apply Z.log2_nonneg.
    destruct (Z.eq_dec n 0) as [->|Hz]; [reflexivity|].
    apply Z.log2_spec. lia.
  - exists ds. rewrite append_empty_r in E. now split.
Qed.

Lemma str_of_pos_aux_head fuel : forall n acc c,
  0 <= n -> head_chr (str_of_pos_aux (S fuel) n acc) = Some c -> is_digit c = true.
Proof.
  induction fuel as [|fuel IH]; intros n acc c Hn; cbn [str_of_pos_aux].
  - assert (Hd : is_digit (digit_chr (n mod 10)) = true).
    { pose proof (Z.mod_pos_bound n 10 ltac:(lia)) as B.
      assert (E : n mod 10 = 0 \/ n mod 10 = 1 \/ n mod 10 = 2 \/ n mod 10 = 3
                  \/ n mod 10 = 4 \/ n mod 10 = 5 \/ n mod 10 = 6 \/ n mod 10 = 7
                  \/ n mod 10 = 8 \/ n mod 10 = 9) by lia.
      repeat (destruct E as [->|E]; [reflexivity|]). now rewrite E. }
    destruct (n <? 10); simpl; intros [= <-]; exact Hd.
  - destruct (n <? 10) eqn:E.
    + simpl. intros [= <-].
      pose proof (Z.mod_pos_bound n 10 ltac:(lia)) as B.
      assert (E' : n mod 10 = 0 \/ n mod 10 = 1 \/ n mod 10 = 2 \/ n mod 10 = 3
                  \/ n mod 10 = 4 \/ n mod 10 = 5 \/ n mod 10 = 6 \/ n mod 10 = 7
                  \/ n mod 10 = 8 \/ n mod 10 = 9) by lia.
      repeat (destruct E' as [->|E']; [reflexivity|]). now rewrite E'.
    + apply IH. apply Z.div_pos; lia.
Qed.

(** [str(n)] reads back as [n]. *)
Lemma int_of_str_of_int n : int_of_str (str_of_int n) = n.
Proof.
  unfold str_of_int. destruct (n <? 0) eqn:E.
  - apply Z.ltb_lt in E. destruct (str_of_pos_value (- n)) as (ds & -> & V); [lia|].
    unfold int_of_str. simpl. rewrite V. lia.
  - apply Z.ltb_ge in E. destruct (str_of_pos_value n E) as (ds & Hds & V).
    unfold int_of_str.
    destruct (str_of_pos_aux (Z.to_nat (Z.log2 n) + 1) n EmptyString) as [|c r] eqn:R.
    + now subst ds.
    + assert (Hc : is_digit c = true).
      { apply (str_of_pos_aux_head (Z.to_nat (Z.log2 n)) n EmptyString c E).
        replace (S (Z.to_nat (Z.log2 n))) with (Z.to_nat (Z.log2 n) + 1)%nat by lia.
        now rewrite R. }
      destruct (Ascii.eqb_spec c "-") as [->|Hne]; [discriminate Hc|].
      subst ds.
      destruct c as [[] [] [] [] [] [] [] []]; try exact V; try discriminate Hc.
Qed.

(** *** Validation comes first *)

(** C4. For an address the validator rejects, [ban_ip],
    [ban_ip_with_time] and [unban_ip] return at once the failure
    [(False, "Invalid IP address format")]: the program is a bare return,
    so no command is handed to the tool, whatever the environment. *)
Theorem invalid_ip_rejected_before_any_command (jail_name ip : string) :
  validate_ip_address ip = false ->
  ban_ip jail_name ip = Ret (false, "Invalid IP address format")
  /\ (forall ban_time,
        ban_ip_with_time jail_name ip ban_time
        = Ret (Some (false, "Invalid IP address format")))
  /\ unban_ip jail_name ip = Ret (false, "Invalid IP address format")
  /\ (forall W (h : handler procE W) (w : W) ban_time,
        commands_run h (ban_ip jail_name ip) w = []
        /\ commands_run h (ban_ip_with_time jail_name ip ban_time) w = []
        /\ commands_run h (unban_ip jail_name ip) w = []).
Proof.
  intros H. unfold ban_ip, ban_ip_with_time, unban_ip. rewrite H. simpl.
  repeat split; reflexivity.
Qed.

Lemma invalid_ip_rejected_witness :
  ban_ip "sshd" "1.2.3.4; reboot" = Ret (false, "Invalid IP address format")
  /\ (forall ban_time,
        ban_ip_with_time "sshd" "1.2.3.4; reboot" ban_time
        = Ret (Some (false, "Invalid IP address format")))
  /\ unban_ip "sshd" "1.2.3.4; reboot" = Ret (false, "Invalid IP address format")
  /\ (forall W (h : handler procE W) (w : W) ban_time,
        commands_run h (ban_ip "sshd" "1.2.3.4; reboot") w = []
        /\ commands_run h (ban_ip_with_time "sshd" "1.2.3.4; reboot" ban_time) w = []
        /\ commands_run h (unban_ip "sshd" "1.2.3.4; reboot") w = []).
Proof.
  apply (invalid_ip_rejected_before_any_command "sshd" "1.2.3.4; reboot").
  vm_compute. reflexivity.
Defined.

(** *** The commands of [ban_ip_with_time] *)

(** A duration that [str] writes is written as its decimal text. *)
Lemma str_of_int_checked_inr ban_time seconds :
  str_of_int_checked ban_time = inr seconds -> seconds = str_of_int ban_time.
Proof.
  unfold str_of_int_checked.
  destruct (MAX_STR_DIGITS <? len (str_of_int (Z.abs ban_time)))%nat; congruence.
Qed.

Lemma str_of_int_checked_inl ban_time message :
  str_of_int_checked ban_time = inl message -> ban_time <> -1.
Proof. intros H ->. vm_compute in H. discriminate H. Qed.

(** With a duration that [str] writes, the program is two commands and a
    return. *)
Lemma ban_ip_with_time_shape jail_name ip ban_time seconds :
  validate_ip_address ip = true ->
  str_of_int_checked ban_time = inr seconds ->
  exists k,
    ban_ip_with_time jail_name ip ban_time
    = Vis (SubprocessRun (bantime_command jail_name ban_time) config.COMMAND_TIMEOUT)
          (fun _ => Vis (SubprocessRun (banip_command jail_name ip) config.COMMAND_TIMEOUT) k)
    /\ forall o, exists r, k o = Ret (Some r).
Proof.
  intros H Hs. unfold ban_ip_with_time. rewrite H. simpl negb. cbv iota.
  unfold bantime_command, banip_command.
  destruct (ban_time =? -1) eqn:E.
  - apply Z.eqb_eq in E. subst ban_time. simpl.
    eexists. split; [reflexivity|].
    intros o. cbv beta. destruct (result_of_outcome o) as [[[] so] se]; eauto.
  - rewrite Hs. apply str_of_int_checked_inr in Hs. subst seconds. simpl.
    eexists. split; [reflexivity|].
    intros o. cbv beta. destruct (result_of_outcome o) as [[[] so] se]; eauto.
Qed.

(** With a duration that [str] refuses, the program raises at once. *)
Lemma ban_ip_with_time_raises jail_name ip ban_time message :
  validate_ip_address ip = true ->
  str_of_int_checked ban_time = inl message ->
  ban_ip_with_time jail_name ip ban_time = Ret None.
Proof.
  intros H Hs. unfold ban_ip_with_time. rewrite H. simpl negb. cbv iota.
  pose proof (str_of_int_checked_inl _ _ Hs) as Hne.
  apply Z.eqb_neq in Hne. rewrite Hne, Hs. reflexivity.
Qed.








End Mutations.

(** ** [get_jail_status] *)

Section JailStatus.
Import PyStr Re ReSpec IpAddress Fail2banManager.

Lemma starts_with_inv sub s : starts_with sub s = true -> exists b, s = sub +:+ b.
Proof.
  revert s. induction sub as [|c sub IH]; intros s; simpl.
  - intros _. now exists s.
  - destruct s as [|d s]; [discriminate|].
    intros H. apply andb_true_iff in H as [Hc Hs].
    apply Ascii.eqb_eq in Hc as ->. destruct (IH _ Hs) as [b ->]. now exists b.
Qed.

Lemma contains_inv sub s : contains sub s = true -> exists a b, s = a +:+ sub +:+ b.
Proof.
  induction s as [|c s IH]; simpl; intros H; apply orb_true_iff in H as [H|H].
  - apply starts_with_inv in H as [b ->]. now exists EmptyString, b.
  - discriminate.
  - apply starts_with_inv in H as [b ->]. now exists EmptyString, b.
  - destruct (IH H) as (a & b & ->). now exists (String c a), b.
Qed.

Lemma lstrip_suffix s : exists a, s = a +:+ lstrip s.
Proof.
  induction s as [|c s [a IH]]; simpl; [now exists EmptyString|].
  destruct (is_space c).
  - exists (String c a). simpl. now rewrite <- IH.
  - now exists EmptyString.
Qed.

Lemma rstrip_prefix s : exists b, s = rstrip s +:+ b.
Proof.
  induction s as [|c s [b IH]]; simpl; [now exists EmptyString|].
  destruct (rstrip s) as [|d r] eqn:E.
  - destruct (is_space c).
    + now exists (String c s).
    + exists s. reflexivity.
  - exists b. simpl. simpl in IH. now rewrite <- IH.
Qed.

Lemma strip_sub s : exists a b, s = a +:+ strip s +:+ b.
Proof.
  unfold strip. destruct (lstrip_suffix s) as [a Ha].
  destruct (rstrip_prefix (lstrip s)) as [b Hb].
  exists a, b. now rewrite <- Hb.
Qed.

Lemma contains_strip sub s : contains sub (strip s) = true -> contains sub s = true.
Proof.
  intros H. apply contains_inv in H as (a' & b' & E).
  destruct (strip_sub s) as (a & b & Hs). rewrite Hs, E.
  rewrite !append_assoc, <- (append_assoc a a'). apply contains_app.
Qed.

Lemma all_chars_app p a b : all_chars p (a +:+ b) = all_chars p a && all_chars p b.
Proof.
  induction a as [|c a IH]; simpl; [reflexivity|]. now rewrite IH, andb_assoc.
Qed.

Lemma no_digit_strip s : no_digit s = true -> no_digit (strip s) = true.
Proof.
  unfold no_digit. destruct (strip_sub s) as (a & b & Hs).
  rewrite Hs at 1. rewrite !all_chars_app.
  intros H. apply andb_true_iff in H as [_ H]. now apply andb_true_iff in H as [H _].
Qed.

Lemma no_digit_first_int s : no_digit s = true -> first_int s = None.
Proof.
  intros Hs. unfold first_int.
  destruct (search (Group 0 (plus Digit)) s) as [mt|] eqn:E; [|reflexivity].
  assert (Hok : groups_ok holds_anything (Group 0 (plus Digit))).
  { split; [intros; exact I | exact I]. }
  destruct (search_sound _ _ _ _ Hok E) as (_ & _ & pre & w & post & -> & Hl).
  pose proof (plus_digit_all _ Hl) as Hw. destruct Hl as (_ & Hlen & _).
  destruct w as [|c w]; [simpl in Hlen; lia|].
  unfold no_digit in Hs. rewrite !all_chars_app in Hs. simpl in Hs, Hw.
  apply andb_true_iff in Hw as [Hc _]. rewrite Hc in Hs. simpl in Hs.
  now rewrite !andb_false_r in Hs.
Qed.

Lemma has_char_after_first c s : has_char c s = true -> exists v, after_first c s = Some v.
Proof.
  unfold after_first. induction s as [|a s IH]; simpl; [discriminate|].
  destruct (Ascii.eqb a c); simpl; [eauto|].
  intros H. destruct (IH H) as [v Hv].
  destruct (partition_chr c s) as [[x found] y]. eauto.
Qed.

Lemma contains_has_char c label s :
  has_char c label = true -> contains label s = true -> has_char c s = true.
Proof.
  intros Hc H. apply contains_inv in H as (a & b & ->).
  rewrite !has_char_append, Hc. now rewrite orb_true_r.
Qed.

(** *** The loop never raises *)

Lemma status_step_total status raw : exists status', status_step status raw = Some status'.
Proof.
  unfold status_step.
  destruct (contains "Filter" (strip raw) && has_char ":" (strip raw)) eqn:E1.
  { apply andb_true_iff in E1 as [_ E1].
    destruct (has_char_after_first _ _ E1) as [v ->]. simpl. eauto. }
  destruct (contains "Actions" (strip raw) && has_char ":" (strip raw)) eqn:E2.
  { apply andb_true_iff in E2 as [_ E2].
    destruct (has_char_after_first _ _ E2) as [v ->]. simpl. eauto. }
  destruct (contains "Currently failed:" (strip raw)); [eauto|].
  destruct (contains "Total failed:" (strip raw)); [eauto|].
  destruct (contains "Currently banned:" (strip raw)); [eauto|].
  destruct (contains "Total banned:" (strip raw)); [eauto|].
  destruct (contains "Banned IP list:" (strip raw)) eqn:E7; [|eauto].
  assert (Hc : has_char ":" (strip raw) = true)
    by (apply (contains_has_char _ "Banned IP list:"); [reflexivity | exact E7]).
  destruct (has_char_after_first _ _ Hc) as [v ->]. simpl.
  destruct (negb (is_empty (strip v))); eauto.
Qed.

Lemma status_loop_total lines : forall status,
  exists status', status_loop status lines = Some status'.
Proof.
  induction lines as [|raw rest IH]; intros status; simpl; [eauto|].
  destruct (status_step_total status raw) as [status1 ->]. apply IH.
Qed.

(** *** What a turn of the loop leaves alone *)

Lemma keeps_loop {A} (f : jail_info -> A) P : keeps f P ->
  forall lines status status',
    status_loop status lines = Some status' -> forallb P lines = true -> f status' = f status.
Proof.
  intros Hk. induction lines as [|raw rest IH]; intros status status'; simpl.
  - now intros [= ->].
  - destruct (status_step status raw) as [status1|] eqn:E; [|discriminate].
    intros Hl HP. apply andb_true_iff in HP as [HP1 HP2].
    rewrite (IH _ _ Hl HP2). exact (Hk _ _ _ E HP1).
Qed.

(** A line without the label does not reach the label's branch. *)
Lemma strip_absent label raw :
  negb (contains label raw) = true -> contains label (strip raw) = false.
Proof.
  intros H. destruct (contains label (strip raw)) eqn:E; [|reflexivity].
  apply contains_strip in E. now rewrite E in H.
Qed.

Ltac step_cases H :=
  unfold status_step in H;
  repeat match type of H with
    | (if ?c then _ else _) = Some _ => destruct c eqn:?
    | mbind _ ?o = Some _ => destruct o eqn:?; simpl in H
    | None = Some _ => discriminate H
    | Some _ = Some _ => injection H as <-
    end;
  unfold try_set_int.

Ltac absent_contra HP :=
  apply strip_absent in HP;
  repeat match goal with
    | E : _ && _ = true |- _ => apply andb_true_iff in E as [? ?]
    end;
  congruence.

Lemma keeps_name : keeps name (fun _ => true).
Proof.
  intros status raw status' H _. step_cases H;
    repeat match goal with |- context [first_int ?l] => destruct (first_int l) end;
    reflexivity.
Qed.

Lemma keeps_enabled : keeps enabled (fun _ => true).
Proof.
  intros status raw status' H _. step_cases H;
    repeat match goal with |- context [first_int ?l] => destruct (first_int l) end;
    reflexivity.
Qed.

Lemma keeps_filter : keeps filter (fun line => negb (contains "Filter" line)).
Proof.
  intros status raw status' H HP. step_cases H;
    repeat match goal with |- context [first_int ?l] => destruct (first_int l) end;
    try reflexivity; absent_contra HP.
Qed.

Lemma keeps_actions : keeps actions (fun line => negb (contains "Actions" line)).
Proof.
  intros status raw status' H HP. step_cases H;
    repeat match goal with |- context [first_int ?l] => destruct (first_int l) end;
    try reflexivity; absent_contra HP.
Qed.

Lemma keeps_banned_ips :
  keeps banned_ips (fun line => negb (contains "Banned IP list:" line)).
Proof.
  intros status raw status' H HP. step_cases H;
    repeat match goal with |- context [first_int ?l] => destruct (first_int l) end;
    try reflexivity; absent_contra HP.
Qed.

(** A counter stays when the line lacks its label or has no digit. *)
Ltac keeps_counter :=
  let H := fresh "H" in let HP := fresh "HP" in
  intros status raw status' H HP; step_cases H;
  repeat match goal with
    | |- context [first_int ?l] => destruct (first_int l) eqn:?
    end;
  try reflexivity;
  apply orb_true_iff in HP as [HP|HP];
  [ absent_contra HP
  | apply no_digit_strip, no_digit_first_int in HP; congruence ].

Lemma keeps_currently_failed :
  keeps currently_failed
        (fun line => negb (contains "Currently failed:" line) || no_digit line).
Proof. keeps_counter. Qed.

Lemma keeps_total_failed :
  keeps total_failed (fun line => negb (contains "Total failed:" line) || no_digit line).
Proof. keeps_counter. Qed.

Lemma keeps_currently_banned :
  keeps currently_banned
        (fun line => negb (contains "Currently banned:" line) || no_digit line).
Proof. keeps_counter. Qed.

Lemma keeps_total_banned :
  keeps total_banned (fun line => negb (contains "Total banned:" line) || no_digit line).
Proof. keeps_counter. Qed.

Lemma absent_unparsable label stdout :
  label_absent label stdout = true \/ label_unparsable label stdout = true ->
  label_unparsable label stdout = true.
Proof.
  intros [H|H]; [|exact H]. unfold label_absent, label_unparsable in *.
  induction (lines_of stdout) as [|l ls IH]; simpl in *; [reflexivity|].
  apply andb_true_iff in H as [-> H]. simpl. now apply IH.
Qed.

Lemma status_of_result_defaults (jail_name stdout stderr : string) :
  exists status,
    status_of_result jail_name (true, stdout, stderr) = Some (StatusInfo status)
    /\ name status = jail_name /\ enabled status = true
    /\ defaults_hold stdout status.
Proof.
  unfold status_of_result. simpl negb. cbv iota.
  destruct (status_loop_total (split_chr "010" stdout) (initial_status jail_name))
    as [status E].
  exists status. rewrite E. split; [reflexivity|].
  pose proof (fun A (f : jail_info -> A) P (Hk : keeps f P) =>
                keeps_loop f P Hk _ _ _ E) as K.
  fold (lines_of stdout) in K.
  split; [now rewrite (K _ _ _ keeps_name) by (now apply forallb_forall)|].
  split; [now rewrite (K _ _ _ keeps_enabled) by (now apply forallb_forall)|].
  unfold defaults_hold. repeat split; intros H.
  - apply absent_unparsable in H. exact (K _ _ _ keeps_currently_failed H).
  - apply absent_unparsable in H. exact (K _ _ _ keeps_total_failed H).
  - apply absent_unparsable in H. exact (K _ _ _ keeps_currently_banned H).
  - apply absent_unparsable in H. exact (K _ _ _ keeps_total_banned H).
  - exact (K _ _ _ keeps_filter H).
  - exact (K _ _ _ keeps_actions H).
  - exact (K _ _ _ keeps_banned_ips H).
Qed.

(** C9. Whatever text the tool answers on success, with its lines in
    any order, [get_jail_status] returns a status (it does not raise) for
    the jail asked for, marked enabled; a counter whose label is on no
    line, or only on lines without a digit (lines of ASCII text that hold
    none of [0] to [9]), is 0; the filter is empty when
    no line carries [Filter]; the actions and the banned addresses are
    empty lists when no line carries [Actions], respectively
    [Banned IP list:]. *)
Theorem get_jail_status_defaults
        W (h : Prog.handler procE W) (w : W) (jail_name stdout stderr : string) :
  fst (h _ (SubprocessRun [client_path; "status"; jail_name] config.COMMAND_TIMEOUT) w)
  = Completed 0 stdout stderr ->
  exists status,
    fst (Prog.run h (get_jail_status jail_name) w) = Some (StatusInfo status)
    /\ name status = jail_name /\ enabled status = true
    /\ defaults_hold stdout status.
Proof.
  intros H. unfold get_jail_status, safe_execute_command. cbn [Prog.bind Prog.run].
  destruct (h run_outcome _ w) as [o w']. simpl in H. subst o.
  cbn [Prog.run fst result_of_outcome]. change (0 =? 0) with true.
  apply status_of_result_defaults.
Qed.

(** The tool that answers every command with two lines, one of them a
    counter without a number. *)
Lemma get_jail_status_defaults_witness :
  let h : Prog.handler procE unit :=
    fun X e w =>
      match e in procE X return X * unit with
      | SubprocessRun _ _ =>
          (Completed 0 ("Status for the jail: sshd" +:+ String "010" "Total banned: n/a") "", w)
      end in
  exists status,
    fst (Prog.run h (get_jail_status "sshd") tt) = Some (StatusInfo status)
    /\ name status = "sshd" /\ enabled status = true
    /\ defaults_hold ("Status for the jail: sshd" +:+ String "010" "Total banned: n/a") status.
Proof.
  intros h.
  apply (get_jail_status_defaults unit h tt "sshd"
           ("Status for the jail: sshd" +:+ String "010" "Total banned: n/a") "").
  reflexivity.
Defined.

End JailStatus.

(** ** [ipaddress]: loopback and link-local addresses are private *)

Section Networks.
Import IpAddress.

Lemma net_disjoint n1 n2 ip :
  Z.land (netmask n2) (netmask n1) = netmask n1 ->
  Z.land (network_address n2) (netmask n1) <> network_address n1 ->
  net_contains n1 ip = true -> net_contains n2 ip = false.
Proof.
  unfold net_contains. intros Hm Ha H1.
  apply Z.eqb_eq in H1. apply Z.eqb_neq. intros H2. apply Ha.
  rewrite <- H2, <- Z.land_assoc, Hm. exact H1.
Qed.

Lemma existsb_in {A} (f : A -> bool) l x : In x l -> f x = true -> existsb f l = true.
Proof. intros Hin Hx. apply existsb_exists. eauto. Qed.

Ltac exceptions_disjoint H :=
  cbn [forallb]; repeat (apply andb_true_iff; split); try reflexivity;
  apply negb_true_iff; refine (net_disjoint _ _ _ _ _ H);
  vm_compute; congruence.

Lemma v4_loopback_private ip :
  net_contains IPv4Constants.loopback_network ip = true -> v4_is_private ip = true.
Proof.
  intros H. unfold v4_is_private. apply andb_true_iff. split.
  - apply (existsb_in _ _ IPv4Constants.loopback_network); [simpl; tauto | exact H].
  - unfold IPv4Constants.private_networks_exceptions. exceptions_disjoint H.
Qed.

Lemma v4_linklocal_private ip :
  net_contains IPv4Constants.linklocal_network ip = true -> v4_is_private ip = true.
Proof.
  intros H. unfold v4_is_private. apply andb_true_iff. split.
  - apply (existsb_in _ _ IPv4Constants.linklocal_network); [simpl; tauto | exact H].
  - unfold IPv4Constants.private_networks_exceptions. exceptions_disjoint H.
Qed.

Lemma linklocal6_top_bit :
  Z.testbit (network_address IPv6Constants.linklocal_network) 127 = true.
Proof. vm_compute. reflexivity. Qed.

Lemma v6_linklocal_not_mapped ip :
  net_contains IPv6Constants.linklocal_network ip = true -> ipv4_mapped ip = None.
Proof.
  unfold net_contains, ipv4_mapped. intros H. apply Z.eqb_eq in H.
  destruct (Z.shiftr ip 32 =? 65535) eqn:E; [|reflexivity].
  apply Z.eqb_eq in E. exfalso.
  pose proof linklocal6_top_bit as Hb. rewrite <- H, Z.land_spec in Hb.
  apply andb_true_iff in Hb as [Hb _].
  assert (Hs : Z.testbit (Z.shiftr ip 32) 95 = false) by (rewrite E; reflexivity).
  rewrite Z.shiftr_spec in Hs by lia. change (95 + 32) with 127 in Hs. congruence.
Qed.

Lemma v6_linklocal_private ip scope_id :
  net_contains IPv6Constants.linklocal_network ip = true ->
  is_private (IPv6Address ip scope_id) = true.
Proof.
  intros H. unfold is_private. rewrite (v6_linklocal_not_mapped _ H).
  apply andb_true_iff. split.
  - apply (existsb_in _ _ IPv6Constants.linklocal_network); [simpl; tauto | exact H].
  - unfold IPv6Constants.private_networks_exceptions. exceptions_disjoint H.
Qed.

(** What [is_loopback] or [is_link_local] accepts, [is_private] accepts. *)
Lemma special_is_private a :
  is_private a || is_loopback a || is_link_local a = true -> is_private a = true.
Proof.
  intros H. destruct (is_private a) eqn:P; [reflexivity|]. simpl in H.
  rewrite <- P. apply orb_true_iff in H as [H|H]; destruct a as [ip|ip scope_id]; simpl in H.
  - now apply v4_loopback_private.
  - apply Z.eqb_eq in H. subst ip. vm_compute. reflexivity.
  - now apply v4_linklocal_private.
  - now apply v6_linklocal_private.
Qed.

End Networks.

(** ** [get_ip_geolocation] *)

Section Geolocation.
Import Prog Geo.

Lemma validate_of_address ip a :
  IpAddress.ip_address ip = Some a -> validate_ip_address ip = true.
Proof. unfold validate_ip_address. now intros ->. Qed.

Lemma store_keeps_local ip geo t c :
  private_entries_local c -> (private_text ip = true -> geo = local_geo_info) ->
  private_entries_local (store ip geo t c).
Proof.
  intros Hc Hg ip' geo'. unfold store. simpl.
  destruct (decide (ip = ip')) as [->|Hne].
  - rewrite lookup_insert_eq. intros [= <-]. exact Hg.
  - rewrite lookup_insert_ne by exact Hne. apply Hc.
Qed.

(** A call keeps the private entries local, whatever the clock and the
    provider answer. *)
Lemma call_keeps_local ip c geo c' :
  private_entries_local c -> leaf (get_ip_geolocation ip c) (geo, c') ->
  private_entries_local c'.
Proof.
  intros Hc. unfold get_ip_geolocation.
  destruct (negb (validate_ip_address ip)); [simpl; now intros [= _ <-]|].
  simpl. intros [t H].
  destruct (geolocation_cache c !! ip) as [cached|];
    [destruct (cache_timestamps c !! ip) as [stamp|];
     [destruct (fresh t stamp); [simpl in H; now injection H as _ <-|]|]|];
    (destruct (private_text ip) eqn:P;
     [ simpl in H; injection H as _ <-; now apply store_keeps_local
     | simpl in H; destruct H as [o H];
       destruct (geo_of_outcome o) as [message|[g|]]; simpl in H;
       [ destruct H as [_ H] | | ];
       injection H as _ <-; apply store_keeps_local; trivial; congruence ]).
Qed.

Lemma reachable_local c : reachable c -> private_entries_local c.
Proof.
  induction 1 as [|c ip geo c' _ IH Hl].
  - intros ip geo. simpl. now rewrite lookup_empty.
  - exact (call_keeps_local _ _ _ _ IH Hl).
Qed.

(** C8. For an address that is private, loopback or link-local,
    [get_ip_geolocation] reads the clock and returns the local-network
    dictionary: it never calls the provider. *)
Theorem private_ip_never_queried (c : caches) (ip : string) (a : IpAddress.address) :
  reachable c ->
  IpAddress.ip_address ip = Some a ->
  IpAddress.is_private a || IpAddress.is_loopback a || IpAddress.is_link_local a = true ->
  (exists k, get_ip_geolocation ip c = Vis DatetimeNow k
             /\ forall t, exists c', k t = Ret (local_geo_info, c'))
  /\ ~ performs_request (get_ip_geolocation ip c)
  /\ (forall geo c', leaf (get_ip_geolocation ip c) (geo, c') -> geo = local_geo_info).
Proof.
  intros Hr Ha Hp. apply special_is_private in Hp.
  assert (P : private_text ip = true) by (unfold private_text; now rewrite Ha).
  pose proof (reachable_local c Hr) as Hc.
  assert (Hshape : exists k, get_ip_geolocation ip c = Vis DatetimeNow k
                             /\ forall t, exists c', k t = Ret (local_geo_info, c')).
  { unfold get_ip_geolocation. rewrite (validate_of_address _ _ Ha). simpl.
    eexists. split; [reflexivity|]. intros t. cbv beta. rewrite P.
    destruct (geolocation_cache c !! ip) as [cached|] eqn:Ec;
      [destruct (cache_timestamps c !! ip) as [stamp|];
       [destruct (fresh t stamp)|]|]; eauto.
    rewrite (Hc _ _ Ec P). eauto. }
  split; [exact Hshape|]. destruct Hshape as (k & -> & Hk). split.
  - simpl. intros [H|[t H]]; [discriminate H|].
    destruct (Hk t) as [c' E]. rewrite E in H. exact H.
  - intros geo c' [t H]. destruct (Hk t) as [c1 E]. rewrite E in H.
    simpl in H. now injection H as <- _.
Qed.

Lemma private_ip_never_queried_witness :
  (exists k, get_ip_geolocation "192.168.1.1" empty_caches = Vis DatetimeNow k
             /\ forall t, exists c', k t = Ret (local_geo_info, c'))
  /\ ~ performs_request (get_ip_geolocation "192.168.1.1" empty_caches)
  /\ (forall geo c', leaf (get_ip_geolocation "192.168.1.1" empty_caches) (geo, c') ->
                     geo = local_geo_info).
Proof.
  apply (private_ip_never_queried empty_caches "192.168.1.1"
           (IpAddress.IPv4Address 3232235777)).
  - exact reachable_init.
  - vm_compute. reflexivity.
  - vm_compute. reflexivity.
Defined.

End Geolocation.

(** ** [ipaddress.ip_address] accepts the texts of addresses, and only them *)

Section IpTexts.
Import PyStr IpAddress IpText.

(** *** [split] and [join] *)

Lemma split_no_sep c w : has_char c w = false -> split_chr c w = [w].
Proof.
  induction w as [|a w IH]; simpl; [reflexivity|].
  intros H. apply orb_false_iff in H as [Ha Hw]. now rewrite Ha, (IH Hw).
Qed.

Lemma split_app_sep c a rest :
  has_char c a = false -> split_chr c (a +:+ String c rest) = a :: split_chr c rest.
Proof.
  induction a as [|x a IH]; simpl.
  - intros _. now rewrite Ascii.eqb_refl.
  - intros H. apply orb_false_iff in H as [Hx Ha]. now rewrite Hx, (IH Ha).
Qed.

Lemma split_join c l :
  Forall (fun w => has_char c w = false) l -> l <> [] -> split_chr c (join c l) = l.
Proof.
  induction l as [|x l IH]; [congruence|].
  intros H _. apply Forall_cons_iff in H as [Hx Hl].
  destruct l as [|y l]; [now apply split_no_sep|].
  change (join c (x :: y :: l)) with (x +:+ String c (join c (y :: l))).
  rewrite (split_app_sep _ _ _ Hx), IH; [reflexivity | exact Hl | discriminate].
Qed.

Lemma split_nonempty c s : split_chr c s <> [].
Proof.
  destruct s as [|a s]; simpl; [discriminate|].
  destruct (Ascii.eqb a c); [discriminate|]. destruct (split_chr c s); discriminate.
Qed.

Lemma join_split c s : join c (split_chr c s) = s.
Proof.
  induction s as [|a s IH]; simpl; [reflexivity|].
  destruct (Ascii.eqb_spec a c) as [->|Hne].
  - pose proof (split_nonempty c s) as Hn.
    destruct (split_chr c s) as [|w ws]; [congruence|].
    change (join c (EmptyString :: w :: ws)) with (String c (join c (w :: ws))).
    now rewrite IH.
  - pose proof (split_nonempty c s) as Hn.
    destruct (split_chr c s) as [|w ws]; [congruence|].
    destruct ws as [|v ws].
    + simpl in *. now rewrite IH.
    + change (join c (String a w :: v :: ws))
        with (String a (w +:+ String c (join c (v :: ws)))).
      change (join c (w :: v :: ws)) with (w +:+ String c (join c (v :: ws))) in IH.
      now rewrite IH.
Qed.

Lemma split_parts_no_sep c s : Forall (fun w => has_char c w = false) (split_chr c s).
Proof.
  induction s as [|a s IH]; simpl; [now repeat constructor|].
  destruct (Ascii.eqb a c) eqn:E; [now constructor|].
  destruct (split_chr c s) as [|w ws]; [now repeat constructor; simpl; rewrite E|].
  apply Forall_cons_iff in IH as [Hw Hws]. constructor; [|exact Hws].
  simpl. now rewrite E, Hw.
Qed.

(** *** Octets *)

Lemma in_range_from count : forall start k,
  start <= k < start + Z.of_nat count -> In k (range_from count start).
Proof.
  induction count as [|count IH]; intros start k H; [lia|].
  cbn [range_from]. destruct (Z.eq_dec start k) as [->|Hne]; [now left|].
  right. apply IH. lia.
Qed.

Lemma in_range n k : 0 <= k < n -> In k (range n).
Proof. intros H. apply in_range_from. lia. Qed.

Lemma octets_checked : forallb octet_ok (range 256) = true.
Proof. vm_compute. reflexivity. Qed.

Lemma parse_octet_str n :
  0 <= n <= 255 ->
  parse_octet (str_of_int n) = Some n /\ all_chars is_digit (str_of_int n) = true.
Proof.
  intros H. pose proof octets_checked as Hc.
  rewrite forallb_forall in Hc. specialize (Hc n (in_range 256 n ltac:(lia))).
  unfold octet_ok in Hc. destruct (parse_octet (str_of_int n)) as [m|]; [|discriminate].
  apply andb_true_iff in Hc as [Hm Hd]. apply Z.eqb_eq in Hm. now subst m.
Qed.

Lemma digit_chr_val c : is_digit c = true -> c = digit_chr (digit_val c) /\ 0 <= digit_val c < 10.
Proof.
  destruct c as [[] [] [] [] [] [] [] []]; intros H; try discriminate H;
    (split; [reflexivity | vm_compute; split; [discriminate | reflexivity]]).
Qed.

Lemma short_digits_checked :
  forallb (fun a => digits_ok (text_of_digits [a])
           && forallb (fun b => digits_ok (text_of_digits [a; b])
                       && forallb (fun c => digits_ok (text_of_digits [a; b; c]))
                                  (range 10)) (range 10)) (range 10) = true.
Proof. vm_compute. reflexivity. Qed.

Lemma parse_octet_inv o n :
  parse_octet o = Some n -> 0 <= n <= 255 /\ o = str_of_int n.
Proof.
  intros H.
  assert (Hok : digits_ok o = true).
  { pose proof short_digits_checked as Hc. rewrite forallb_forall in Hc.
    unfold parse_octet in H.
    destruct (is_empty o) eqn:E0; [discriminate|].
    destruct (all_chars is_digit o) eqn:Ed; [|discriminate]. simpl in H.
    destruct (3 <? len o)%nat eqn:El; [discriminate|]. apply Nat.ltb_ge in El.
    assert (R : forall c, is_digit c = true ->
                          c = digit_chr (digit_val c) /\ In (digit_val c) (range 10)).
    { intros c Hcd. destruct (digit_chr_val c Hcd) as [E R]. split; [exact E|].
      apply in_range. lia. }
    destruct o as [|a [|b [|c [|d o]]]]; try discriminate E0; simpl in El; try lia;
      simpl in Ed.
    - rewrite andb_true_r in Ed. destruct (R a Ed) as [Ea Ia].
      specialize (Hc _ Ia). apply andb_true_iff in Hc as [Hc _].
      simpl in Hc. now rewrite <- Ea in Hc.
    - rewrite andb_true_r in Ed. apply andb_true_iff in Ed as [Da Db].
      destruct (R a Da) as [Ea Ia]. destruct (R b Db) as [Eb Ib].
      specialize (Hc _ Ia). apply andb_true_iff in Hc as [_ Hc].
      rewrite forallb_forall in Hc. specialize (Hc _ Ib).
      apply andb_true_iff in Hc as [Hc _]. simpl in Hc. now rewrite <- Ea, <- Eb in Hc.
    - rewrite andb_true_r in Ed. apply andb_true_iff in Ed as [Da Ed].
      apply andb_true_iff in Ed as [Db Dc].
      destruct (R a Da) as [Ea Ia]. destruct (R b Db) as [Eb Ib].
      destruct (R c Dc) as [Ec Ic].
      specialize (Hc _ Ia). apply andb_true_iff in Hc as [_ Hc].
      rewrite forallb_forall in Hc. specialize (Hc _ Ib).
      apply andb_true_iff in Hc as [_ Hc].
      rewrite forallb_forall in Hc. specialize (Hc _ Ic).
      simpl in Hc. now rewrite <- Ea, <- Eb, <- Ec in Hc. }
  unfold digits_ok in Hok. rewrite H in Hok.
  apply andb_true_iff in Hok as [Hok He]. apply andb_true_iff in Hok as [H0 H1].
  apply String.eqb_eq in He. apply Z.leb_le in H0, H1. split; [lia | now symmetry].
Qed.

(** *** IPv4 *)

Lemma all_chars_no_char p c w : all_chars p w = true -> p c = false -> has_char c w = false.
Proof.
  intros Hw Hc. induction w as [|a w IH]; simpl; [reflexivity|].
  simpl in Hw. apply andb_true_iff in Hw as [Ha Hw]. rewrite (IH Hw), orb_false_r.
  destruct (Ascii.eqb_spec a c) as [->|]; [congruence | reflexivity].
Qed.

Lemma octet_no_char n c :
  0 <= n <= 255 -> is_digit c = false -> has_char c (str_of_int n) = false.
Proof.
  intros Hn Hc. apply (all_chars_no_char is_digit); [|exact Hc].
  now apply parse_octet_str.
Qed.

Lemma v4_of_str_sound s v : v4_of_str s = Some v -> ipv4_text s.
Proof.
  unfold v4_of_str, v4_ip_int_from_string.
  destruct (has_char "/" s); [discriminate|].
  destruct (is_empty s); [discriminate|].
  pose proof (join_split "." s) as J.
  destruct (split_chr "." s) as [|o1 [|o2 [|o3 [|o4 [|o5 os]]]]]; try discriminate.
  simpl negb. cbv iota. cbn [mapM].
  destruct (parse_octet o1) as [a|] eqn:E1; [|discriminate].
  destruct (parse_octet o2) as [b|] eqn:E2; [|discriminate].
  destruct (parse_octet o3) as [c|] eqn:E3; [|discriminate].
  destruct (parse_octet o4) as [d|] eqn:E4; [|discriminate].
  intros _.
  apply parse_octet_inv in E1 as [Ha ->], E2 as [Hb ->], E3 as [Hc ->], E4 as [Hd ->].
  exists a, b, c, d. now rewrite J.
Qed.

Lemma has_char_join c sep l :
  Forall (fun w => has_char c w = false) l -> Ascii.eqb sep c = false ->
  has_char c (join sep l) = false.
Proof.
  intros Hl Hsep. induction l as [|x l IH]; [reflexivity|].
  apply Forall_cons_iff in Hl as [Hx Hl]. destruct l as [|y l]; [exact Hx|].
  change (join sep (x :: y :: l)) with (x +:+ String sep (join sep (y :: l))).
  rewrite has_char_append, Hx. cbn [has_char]. now rewrite Hsep, (IH Hl).
Qed.

Lemma ipv4_text_no_char s c :
  ipv4_text s -> is_digit c = false -> Ascii.eqb "." c = false -> has_char c s = false.
Proof.
  intros (a & b & c' & d & Ha & Hb & Hc & Hd & ->) Hn Hdot.
  apply has_char_join; [|exact Hdot].
  repeat constructor; now apply octet_no_char.
Qed.

Lemma v4_of_str_complete s : ipv4_text s -> exists v, v4_of_str s = Some v.
Proof.
  intros Hs. pose proof (ipv4_text_no_char s "/" Hs eq_refl eq_refl) as Hslash.
  destruct Hs as (a & b & c & d & Ha & Hb & Hc & Hd & ->).
  unfold v4_of_str, v4_ip_int_from_string. rewrite Hslash.
  assert (He : is_empty (join "." [str_of_int a; str_of_int b; str_of_int c; str_of_int d])
               = false).
  { cbn [join]. destruct (str_of_int a); reflexivity. }
  rewrite He, split_join.
  - simpl negb. cbv iota. cbn [mapM].
    rewrite (proj1 (parse_octet_str a Ha)), (proj1 (parse_octet_str b Hb)),
      (proj1 (parse_octet_str c Hc)), (proj1 (parse_octet_str d Hd)).
    simpl. eauto.
  - repeat constructor; now apply octet_no_char.
  - discriminate.
Qed.

(** *** Hextets and the loop over the parts *)

Lemma parse_hextet_sound h v : parse_hextet h = Some v -> hextet h.
Proof.
  unfold parse_hextet, hextet.
  destruct (all_chars is_hex h); [|discriminate]. simpl.
  destruct (4 <? len h)%nat eqn:E; [discriminate|]. apply Nat.ltb_ge in E.
  destruct h; [discriminate|]. intros _. simpl in *. split; [reflexivity | lia].
Qed.

Lemma parse_hextet_complete h : hextet h -> exists v, parse_hextet h = Some v.
Proof.
  unfold parse_hextet, hextet. intros [-> [H1 H4]]. simpl.
  destruct (4 <? len h)%nat eqn:E; [apply Nat.ltb_lt in E; lia|].
  destruct h; [simpl in H1; lia|]. simpl. eauto.
Qed.

Lemma hextet_nonempty h : hextet h -> is_empty h = false.
Proof. intros [_ [H _]]. destruct h; [simpl in H; lia | reflexivity]. Qed.

Lemma add_hextets_sound l : forall acc v, add_hextets acc l = Some v -> Forall hextet l.
Proof.
  induction l as [|h l IH]; intros acc v; simpl; [constructor|].
  destruct (parse_hextet h) as [x|] eqn:E; [|discriminate].
  intros H. constructor; [exact (parse_hextet_sound _ _ E) | exact (IH _ _ H)].
Qed.

Lemma add_hextets_complete l : Forall hextet l -> forall acc, exists v, add_hextets acc l = Some v.
Proof.
  induction l as [|h l IH]; intros Hl acc; simpl; [eauto|].
  apply Forall_cons_iff in Hl as [Hh Hl].
  destruct (parse_hextet_complete _ Hh) as [x ->]. now apply IH.
Qed.

Lemma find_skip_kept l : forall i k r,
  find_skip i l (Some k) = Some r -> r = Some k /\ Forall (fun w => is_empty w = false) l.
Proof.
  induction l as [|w l IH]; intros i k r; simpl.
  - intros [= <-]. split; [reflexivity | constructor].
  - destruct (is_empty w) eqn:E; [discriminate|].
    intros H. destruct (IH _ _ _ H) as [-> Hl]. split; [reflexivity | now constructor].
Qed.

Lemma find_skip_inv l : forall i r,
  find_skip i l None = Some r ->
  match r with
  | None => Forall (fun w => is_empty w = false) l
  | Some k =>
      exists l1 l2, l = l1 ++ EmptyString :: l2 /\ k = (i + length l1)%nat
                    /\ Forall (fun w => is_empty w = false) l1
                    /\ Forall (fun w => is_empty w = false) l2
  end.
Proof.
  induction l as [|w l IH]; intros i r; simpl.
  - intros [= <-]. constructor.
  - destruct (is_empty w) eqn:E.
    + intros H. destruct (find_skip_kept _ _ _ _ H) as [-> Hl].
      exists [], l. destruct w; [|discriminate]. simpl.
      repeat split; [lia | constructor | exact Hl].
    + intros H. specialize (IH _ _ H). destruct r as [k|].
      * destruct IH as (l1 & l2 & -> & -> & H1 & H2).
        exists (w :: l1), l2. simpl. repeat split; [lia | now constructor | exact H2].
      * now constructor.
Qed.

Lemma find_skip_all l : Forall (fun w => is_empty w = false) l ->
  forall i sk, find_skip i l sk = Some sk.
Proof.
  induction 1 as [|w l Hw _ IH]; intros i sk; simpl; [reflexivity|].
  now rewrite Hw.
Qed.

Lemma find_skip_one l1 l2 i :
  Forall (fun w => is_empty w = false) l1 -> Forall (fun w => is_empty w = false) l2 ->
  find_skip i (l1 ++ EmptyString :: l2) None = Some (Some (i + length l1)%nat).
Proof.
  intros H1 H2. revert i. induction H1 as [|w l1 Hw _ IH]; intros i; simpl.
  - rewrite (find_skip_all _ H2). f_equal. f_equal. lia.
  - rewrite Hw, IH. f_equal. f_equal. lia.
Qed.

Lemma hextets_nonempty l : Forall hextet l -> Forall (fun w => is_empty w = false) l.
Proof. intros H. eapply List.Forall_impl; [|exact H]. intros h. apply hextet_nonempty. Qed.

(** [v6_int_from_parts] on a list given by its first part, its inner
    parts and its last part. *)
Lemma parts_view f inner t :
  length (f :: inner ++ [t]) = S (S (length inner))
  /\ removelast (tl (f :: inner ++ [t])) = inner
  /\ hd EmptyString (f :: inner ++ [t]) = f
  /\ List.last (f :: inner ++ [t]) EmptyString = t.
Proof.
  repeat split.
  - simpl. rewrite List.length_app. simpl. lia.
  - simpl. apply removelast_last.
  - change (f :: inner ++ [t]) with ((f :: inner) ++ [t]). apply last_last.
Qed.

Lemma parts_split (parts : list string) :
  (2 <= length parts)%nat -> exists f inner t, parts = f :: inner ++ [t].
Proof.
  destruct parts as [|f rest]; simpl; [lia|]. intros H.
  assert (Hr : rest <> []) by (destruct rest; [simpl in H; lia | discriminate]).
  exists f, (removelast rest), (List.last rest EmptyString).
  f_equal. now apply app_removelast_last.
Qed.

Lemma firstn_length_app {A} (a b : list A) : firstn (length a) (a ++ b) = a.
Proof. induction a as [|x a IH]; simpl; [now destruct b | now rewrite IH]. Qed.

Lemma skipn_length_app {A} (a b : list A) : skipn (length a) (a ++ b) = b.
Proof. induction a as [|x a IH]; simpl; [reflexivity | exact IH]. Qed.

Lemma edge_snoc (l : list string) a : edge (l ++ [a]) = [].
Proof. now destruct l. Qed.

Lemma empty_text w : is_empty w = true -> w = EmptyString.
Proof. now destruct w. Qed.

(** *** The parts [v6_int_from_parts] accepts *)

Ltac layout_cases H :=
  repeat match type of H with
    | match (if ?c then None else _) with _ => _ end = Some _ =>
        destruct c eqn:?; [discriminate H|]
    end;
  cbv iota beta in H;
  match type of H with
  | match add_hextets 0 ?l with _ => _ end = Some _ =>
      let A := fresh "A" in
      destruct (add_hextets 0 l) eqn:A; [|discriminate H];
      apply add_hextets_sound in A, H
  end;
  repeat match goal with
    | E : negb _ = false |- _ => apply negb_false_iff in E
    | E : (_ =? _)%nat = true |- _ => apply Nat.eqb_eq in E
    | E : (_ <=? _)%nat = false |- _ => apply Nat.leb_gt in E
    end.

Lemma parts_accepted parts v : v6_int_from_parts parts = Some v -> accepted_parts parts.
Proof.
  intros H.
  assert (H2 : (2 <= length parts)%nat).
  { destruct parts as [|f [|g r]]; simpl; try lia; vm_compute in H; discriminate. }
  destruct (parts_split parts H2) as (f & inner & t & ->). clear H2.
  destruct (parts_view f inner t) as (Hlen & Hrm & Hhd & Hlast).
  unfold v6_int_from_parts in H. rewrite Hlen, Hrm, Hhd, Hlast in H.
  destruct (HEXTET_COUNT + 1 <? S (S (length inner)))%nat eqn:E9; [discriminate|].
  destruct (find_skip 1 inner None) as [skip|] eqn:F; [|discriminate].
  apply find_skip_inv in F. cbv zeta in H. destruct skip as [k|].
  - destruct F as (l1 & l2 & -> & -> & N1 & N2). clear Hlen Hrm Hhd Hlast E9.
    rewrite List.length_app in H. cbn [length] in H.
    replace (S (S (length l1 + S (length l2))) - (1 + length l1) - 1)%nat
      with (S (length l2)) in H by lia.
    assert (P1 : f :: (l1 ++ EmptyString :: l2) ++ [t]
                 = (f :: l1) ++ EmptyString :: l2 ++ [t])
      by (simpl; now rewrite <- app_assoc).
    assert (P2 : f :: (l1 ++ EmptyString :: l2) ++ [t]
                 = (f :: l1 ++ [EmptyString]) ++ l2 ++ [t])
      by (simpl; now rewrite <- !app_assoc).
    assert (L2 : length (f :: l1 ++ [EmptyString]) = S (length l1 + 1))
      by (simpl; now rewrite List.length_app).
    unfold HEXTET_COUNT in H.
    right.
    destruct (is_empty f) eqn:Ef; destruct (is_empty t) eqn:Et; cbv iota in H;
      cbn [andb negb] in H; layout_cases H.
    + destruct l1; [|simpl in *; lia]. destruct l2; [|simpl in *; lia].
      apply empty_text in Ef, Et. subst f t.
      exists [], []. repeat split; try constructor. simpl. lia.
    + destruct l1; [|simpl in *; lia]. apply empty_text in Ef. subst f.
      rewrite P2 in H.
      replace (S (S (length (@nil string) + S (length l2))) - S (length l2))%nat
        with (length [EmptyString; EmptyString]) in H by (simpl; lia).
      change ((EmptyString :: [] ++ [EmptyString]) ++ l2 ++ [t])
        with ([EmptyString; EmptyString] ++ l2 ++ [t]) in H.
      rewrite skipn_length_app in H.
      exists [], (l2 ++ [t]). repeat split; [constructor | exact H | |].
      * rewrite List.length_app in *. simpl in *. lia.
      * rewrite edge_snoc. simpl. now rewrite app_nil_r.
    + destruct l2; [|simpl in *; lia]. apply empty_text in Et. subst t.
      rewrite P1 in A.
      change (1 + length l1)%nat with (length (f :: l1)) in A.
      rewrite firstn_length_app in A.
      exists (f :: l1), []. repeat split; [exact A | constructor | |].
      * simpl in *. lia.
      * simpl. now rewrite <- app_assoc.
    + rewrite P1 in A.
      change (1 + length l1)%nat with (length (f :: l1)) in A.
      rewrite firstn_length_app in A.
      rewrite P2 in H.
      replace (S (S (length l1 + S (length l2))) - S (length l2))%nat
        with (length (f :: l1 ++ [EmptyString])) in H by (rewrite L2; lia).
      rewrite skipn_length_app in H.
      exists (f :: l1), (l2 ++ [t]). repeat split; [exact A | exact H | |].
      * rewrite List.length_app in *. simpl in *. lia.
      * rewrite edge_snoc. simpl. now rewrite app_nil_r, <- app_assoc.
  - unfold HEXTET_COUNT in H. layout_cases H.
    left. rewrite <- Hlen, firstn_all in A. split; [exact A|].
    rewrite Hlen. assumption.
Qed.

Ltac layout_run :=
  repeat match goal with
    | |- context [if ?c then None else _] =>
        let E := fresh "E" in
        destruct c eqn:E;
        [ exfalso;
          rewrite ?negb_true_iff, ?Nat.eqb_neq, ?Nat.leb_le, ?Nat.ltb_lt in E;
          simpl in *; lia
        | clear E ]
    end;
  cbv iota beta.

Lemma take_parts f (l1 l2 : list string) t a :
  a = S (length l1) -> firstn a (f :: (l1 ++ EmptyString :: l2) ++ [t]) = f :: l1.
Proof.
  intros ->. change (S (length l1)) with (length (f :: l1)).
  replace (f :: (l1 ++ EmptyString :: l2) ++ [t])
    with ((f :: l1) ++ EmptyString :: l2 ++ [t]) by (simpl; now rewrite <- app_assoc).
  apply firstn_length_app.
Qed.

Lemma drop_parts f (l1 l2 : list string) t b :
  b = (length l1 + 2)%nat -> skipn b (f :: (l1 ++ EmptyString :: l2) ++ [t]) = l2 ++ [t].
Proof.
  intros ->.
  replace (f :: (l1 ++ EmptyString :: l2) ++ [t])
    with ((f :: l1 ++ [EmptyString]) ++ l2 ++ [t]) by (simpl; now rewrite <- !app_assoc).
  replace (length l1 + 2)%nat with (length (f :: l1 ++ [EmptyString]))
    by (simpl; rewrite List.length_app; simpl; lia).
  apply skipn_length_app.
Qed.

Lemma drop_all_parts f (inner : list string) t b :
  b = S (S (length inner)) -> skipn b (f :: inner ++ [t]) = [].
Proof.
  intros ->. replace (S (S (length inner))) with (length (f :: inner ++ [t]))
    by (simpl; rewrite List.length_app; simpl; lia).
  apply skipn_all.
Qed.

Lemma take_all_parts f (inner : list string) t a :
  a = S (S (length inner)) -> firstn a (f :: inner ++ [t]) = f :: inner ++ [t].
Proof.
  intros ->. replace (S (S (length inner))) with (length (f :: inner ++ [t]))
    by (simpl; rewrite List.length_app; simpl; lia).
  apply firstn_all.
Qed.

(** The parts around one empty part, with an empty part at an end
    where no hextet stands. *)
Lemma parts_run f l1 l2 t :
  (f = EmptyString /\ l1 = [] \/ Forall hextet (f :: l1)) ->
  (t = EmptyString /\ l2 = [] \/ Forall hextet (l2 ++ [t])) ->
  ((if is_empty f then 0 else S (length l1)) + (if is_empty t then 0 else S (length l2))
   <= 7)%nat ->
  exists v, v6_int_from_parts (f :: (l1 ++ EmptyString :: l2) ++ [t]) = Some v.
Proof.
  intros Hf Ht Hn.
  destruct (parts_view f (l1 ++ EmptyString :: l2) t) as (Hlen & Hrm & Hhd & Hlast).
  assert (N1 : Forall (fun w => is_empty w = false) l1).
  { destruct Hf as [[_ ->]|Hf]; [constructor|].
    apply Forall_cons_iff in Hf as [_ Hf]. now apply hextets_nonempty. }
  assert (N2 : Forall (fun w => is_empty w = false) l2).
  { destruct Ht as [[_ ->]|Ht]; [constructor|].
    apply Forall_app in Ht as [Ht _]. now apply hextets_nonempty. }
  unfold v6_int_from_parts. rewrite Hlen, Hrm, Hhd, Hlast.
  rewrite (find_skip_one _ _ _ N1 N2). cbv zeta.
  rewrite List.length_app. cbn [length]. unfold HEXTET_COUNT.
  clear Hlen Hrm Hhd Hlast.
  destruct Hf as [[-> ->]|Hf]; destruct Ht as [[-> ->]|Ht].
  - vm_compute. eauto.
  - assert (Et : is_empty t = false).
    { apply Forall_app in Ht as [_ Ht]. apply Forall_cons_iff in Ht as [Ht _].
      now apply hextet_nonempty. }
    rewrite Et in *. cbn [is_empty andb negb] in *. layout_run.
    rewrite drop_parts by (simpl; lia).
    simpl firstn. cbn [add_hextets]. now apply add_hextets_complete.
  - assert (Ef : is_empty f = false).
    { apply Forall_cons_iff in Hf as [Hf _]. now apply hextet_nonempty. }
    rewrite Ef in *. cbn [is_empty andb negb] in *. layout_run.
    rewrite take_parts by (simpl; lia).
    destruct (add_hextets_complete _ Hf 0) as [hv ->].
    rewrite drop_all_parts by (rewrite List.length_app; simpl; lia).
    simpl. eauto.
  - assert (Ef : is_empty f = false).
    { apply Forall_cons_iff in Hf as [Hf _]. now apply hextet_nonempty. }
    assert (Et : is_empty t = false).
    { apply Forall_app in Ht as [_ Ht]. apply Forall_cons_iff in Ht as [Ht _].
      now apply hextet_nonempty. }
    rewrite Ef, Et in *. cbn [andb negb] in *. layout_run.
    rewrite take_parts by (simpl; lia).
    destruct (add_hextets_complete _ Hf 0) as [hv ->].
    rewrite drop_parts by (simpl; lia). now apply add_hextets_complete.
Qed.

Lemma snoc_cases {A} (l : list A) : l = [] \/ exists l' a, l = l' ++ [a].
Proof.
  destruct l as [|x l]; [now left|]. right.
  exists (removelast (x :: l)), (List.last (x :: l) x).
  now apply app_removelast_last.
Qed.

Lemma parts_complete parts : accepted_parts parts -> exists v, v6_int_from_parts parts = Some v.
Proof.
  intros [[Hh H8]|(hi & lo & Hhi & Hlo & Hn & ->)].
  - destruct (parts_split parts ltac:(lia)) as (f & inner & t & ->).
    destruct (parts_view f inner t) as (Hlen & Hrm & Hhd & Hlast).
    pose proof Hh as Hall.
    apply Forall_cons_iff in Hh as [Hf Hh]. apply Forall_app in Hh as [Hin Ht].
    apply Forall_cons_iff in Ht as [Ht _].
    unfold v6_int_from_parts. rewrite Hlen, Hrm, Hhd, Hlast.
    rewrite (find_skip_all _ (hextets_nonempty _ Hin)). cbv zeta.
    rewrite (hextet_nonempty _ Hf), (hextet_nonempty _ Ht).
    rewrite Hlen in H8. unfold HEXTET_COUNT. layout_run.
    rewrite take_all_parts by reflexivity.
    destruct (add_hextets_complete _ Hall 0) as [hv ->].
    rewrite drop_all_parts by lia. simpl. eauto.
  - destruct hi as [|f l1]; destruct (snoc_cases lo) as [->|(l2 & t & ->)].
    + vm_compute. eauto.
    + rewrite edge_snoc, app_nil_r.
      change (edge [] ++ [] ++ [EmptyString] ++ l2 ++ [t])
        with (EmptyString :: ([] ++ EmptyString :: l2) ++ [t]).
      apply parts_run; [now left | now right |].
      apply Forall_app in Hlo as [_ Hlo]. apply Forall_cons_iff in Hlo as [Hlo _].
      rewrite (hextet_nonempty _ Hlo). rewrite List.length_app in Hn. simpl in *. lia.
    + replace (edge (f :: l1) ++ (f :: l1) ++ [EmptyString] ++ [] ++ edge [])
        with (f :: (l1 ++ EmptyString :: []) ++ [EmptyString])
        by (simpl; now rewrite <- app_assoc).
      apply parts_run; [now right | now left |].
      apply Forall_cons_iff in Hhi as [Hf _].
      rewrite (hextet_nonempty _ Hf). simpl in *. lia.
    + rewrite edge_snoc, app_nil_r.
      replace (edge (f :: l1) ++ (f :: l1) ++ [EmptyString] ++ l2 ++ [t])
        with (f :: (l1 ++ EmptyString :: l2) ++ [t])
        by (simpl; now rewrite <- app_assoc).
      apply parts_run; [now right | now right |].
      pose proof Hhi as Hf. apply Forall_cons_iff in Hf as [Hf _].
      pose proof Hlo as Ht. apply Forall_app in Ht as [_ Ht].
      apply Forall_cons_iff in Ht as [Ht _].
      rewrite (hextet_nonempty _ Hf), (hextet_nonempty _ Ht).
      rewrite List.length_app in Hn. simpl in *. lia.
Qed.

(** *** From parts to text *)

Lemma join_app c (l1 l2 : list string) :
  l1 <> [] -> l2 <> [] -> join c (l1 ++ l2) = join c l1 +:+ String c (join c l2).
Proof.
  intros H1 H2. induction l1 as [|x l1 IH]; [congruence|].
  destruct l1 as [|y l1].
  - simpl. destruct l2; [congruence | reflexivity].
  - change (join c ((x :: y :: l1) ++ l2))
      with (x +:+ String c (join c ((y :: l1) ++ l2))).
    rewrite IH by discriminate.
    change (join c (x :: y :: l1)) with (x +:+ String c (join c (y :: l1))).
    now rewrite append_assoc.
Qed.

Lemma join_compressed (hi lo : list string) :
  join ":" (edge hi ++ hi ++ [EmptyString] ++ lo ++ edge lo)
  = join ":" hi +:+ "::" +:+ join ":" lo.
Proof.
  destruct hi as [|f l1]; destruct (snoc_cases lo) as [->|(l2 & t & ->)].
  - reflexivity.
  - rewrite edge_snoc, app_nil_r.
    change (edge [] ++ [] ++ [EmptyString] ++ l2 ++ [t])
      with ([EmptyString; EmptyString] ++ (l2 ++ [t])).
    rewrite join_app; [reflexivity | discriminate | now destruct l2].
  - change (edge (f :: l1) ++ (f :: l1) ++ [EmptyString] ++ [] ++ edge [])
      with ((f :: l1) ++ [EmptyString; EmptyString]).
    rewrite join_app by discriminate. reflexivity.
  - rewrite edge_snoc, app_nil_r.
    change (edge (f :: l1) ++ (f :: l1) ++ [EmptyString] ++ l2 ++ [t])
      with ((f :: l1) ++ (EmptyString :: (l2 ++ [t]))).
    rewrite join_app by discriminate. f_equal.
    change (EmptyString :: l2 ++ [t]) with ([EmptyString] ++ (l2 ++ [t])).
    rewrite join_app; [reflexivity | discriminate | now destruct l2].
Qed.

Lemma join_nonempty c (l : list string) : (2 <= length l)%nat -> is_empty (join c l) = false.
Proof.
  destruct l as [|x [|y l]]; simpl; try lia. intros _. now destruct x.
Qed.

Lemma hextets_checked : forallb hextet_ok (range 65536) = true.
Proof. vm_compute. reflexivity. Qed.

Lemma hex_hextet x : hextet (hex_of_int (Z.land x 65535)).
Proof.
  assert (Hx : 0 <= Z.land x 65535 < 65536).
  { change 65535 with (Z.ones 16). rewrite Z.land_ones by lia.
    apply Z.mod_pos_bound. reflexivity. }
  pose proof hextets_checked as Hc. rewrite forallb_forall in Hc.
  specialize (Hc _ (in_range 65536 _ Hx)).
  unfold hextet_ok in Hc. apply andb_true_iff in Hc as [Hc H4].
  apply andb_true_iff in Hc as [Hh H1].
  apply Nat.leb_le in H1, H4. now split.
Qed.

Lemma hextet_no_char h c : hextet h -> is_hex c = false -> has_char c h = false.
Proof. intros [Hh _] Hc. now apply (all_chars_no_char is_hex). Qed.

Lemma ipv4_text_has_dot q : ipv4_text q -> has_char "." q = true.
Proof.
  intros (a & b & c & d & _ & _ & _ & _ & ->). cbn [join].
  rewrite has_char_append. simpl. apply orb_true_r.
Qed.

(** *** IPv6 *)

Lemma v6_string_sound s v : v6_ip_int_from_string s = Some v -> ipv6_text s.
Proof.
  unfold v6_ip_int_from_string.
  destruct (is_empty s); [discriminate|].
  pose proof (join_split ":" s) as J. pose proof (split_nonempty ":" s) as Hne.
  destruct (length (split_chr ":" s) <? 3)%nat; [discriminate|].
  set (parts := split_chr ":" s) in *.
  destruct (has_char "." (List.last parts EmptyString)) eqn:Edot.
  - destruct (v4_of_str (List.last parts EmptyString)) as [ip4|] eqn:E4; [|discriminate].
    apply v4_of_str_sound in E4. intros H. apply parts_accepted in H.
    set (h1 := hex_of_int (Z.land (Z.shiftr ip4 16) 65535)) in *.
    set (h2 := hex_of_int (Z.land ip4 65535)) in *.
    assert (Hh1 : hextet h1) by apply hex_hextet.
    assert (Hh2 : hextet h2) by apply hex_hextet.
    pose proof (app_removelast_last EmptyString Hne) as Hp.
    set (front := removelast parts) in *. set (q := List.last parts EmptyString) in *.
    rewrite <- J, Hp.
    destruct H as [[Hh H8]|(hi & lo & Hhi & Hlo & Hn & Heq)].
    + left. exists (front ++ [q]). split; [|reflexivity].
      apply Forall_app in Hh as [Hf _]. rewrite List.length_app in H8. simpl in H8.
      replace 8%nat with (length front + 2)%nat by lia. now constructor.
    + right.
      destruct (snoc_cases lo) as [->|(lo' & a & ->)].
      { exfalso. change (front ++ [h1; h2]) with (front ++ [h1] ++ [h2]) in Heq.
        rewrite !app_assoc in Heq. apply app_inj_tail in Heq as [_ Heq].
        apply hextet_nonempty in Hh2. now rewrite Heq in Hh2. }
      rewrite edge_snoc, app_nil_r in Heq.
      change (front ++ [h1; h2]) with (front ++ [h1] ++ [h2]) in Heq.
      rewrite !app_assoc in Heq. apply app_inj_tail in Heq as [Heq <-].
      destruct (snoc_cases lo') as [->|(lo1 & b & ->)].
      { exfalso. rewrite app_nil_r in Heq. apply app_inj_tail in Heq as [_ Heq].
        apply hextet_nonempty in Hh1. now rewrite Heq in Hh1. }
      rewrite !app_assoc in Heq. apply app_inj_tail in Heq as [Heq <-].
      apply Forall_app in Hlo as [Hlo _]. apply Forall_app in Hlo as [Hlo _].
      exists hi, (lo1 ++ [q]), (length lo1 + 2)%nat.
      split; [exact Hhi|]. split; [now constructor|]. split.
      * rewrite !List.length_app in Hn. simpl in Hn. lia.
      * rewrite <- join_compressed, edge_snoc, app_nil_r, Heq.
        now rewrite <- !app_assoc.
  - intros H. apply parts_accepted in H. rewrite <- J.
    destruct H as [[Hh H8]|(hi & lo & Hhi & Hlo & Hn & Heq)].
    + left. exists parts. split; [|reflexivity]. rewrite <- H8. now constructor.
    + right. exists hi, lo, (length lo). split; [exact Hhi|].
      split; [now constructor|]. split; [exact Hn|].
      fold parts. rewrite Heq. apply join_compressed.
Qed.

Lemma v6_string_run (parts : list string) :
  Forall (fun w => has_char ":" w = false) parts -> (3 <= length parts)%nat ->
  (has_char "." (List.last parts EmptyString) = false /\ accepted_parts parts
   \/ exists ip4,
        has_char "." (List.last parts EmptyString) = true
        /\ v4_of_str (List.last parts EmptyString) = Some ip4
        /\ accepted_parts (removelast parts
                           ++ [hex_of_int (Z.land (Z.shiftr ip4 16) 65535);
                               hex_of_int (Z.land ip4 65535)])) ->
  exists v, v6_ip_int_from_string (join ":" parts) = Some v.
Proof.
  intros Hc H3 H. unfold v6_ip_int_from_string.
  rewrite join_nonempty by lia.
  rewrite split_join; [|exact Hc | destruct parts; [simpl in H3; lia | discriminate]].
  destruct (length parts <? 3)%nat eqn:E; [apply Nat.ltb_lt in E; lia|].
  destruct H as [[-> Ha]|(ip4 & -> & -> & Ha)]; now apply parts_complete.
Qed.

Lemma hextets_no_colon l : Forall hextet l -> Forall (fun w => has_char ":" w = false) l.
Proof.
  intros H. eapply List.Forall_impl; [|exact H]. intros h Hh.
  now apply (hextet_no_char h ":").
Qed.

Lemma hextets_no_dot l : Forall hextet l -> has_char "." (List.last l EmptyString) = false.
Proof.
  intros H. destruct (snoc_cases l) as [->|(l' & a & ->)]; [reflexivity|].
  rewrite last_last. apply Forall_app in H as [_ H]. apply Forall_cons_iff in H as [H _].
  now apply (hextet_no_char a ".").
Qed.

Lemma compressed_no_colon (hi lo : list string) :
  Forall (fun w => has_char ":" w = false) hi ->
  Forall (fun w => has_char ":" w = false) lo ->
  Forall (fun w => has_char ":" w = false) (edge hi ++ hi ++ [EmptyString] ++ lo ++ edge lo).
Proof.
  intros Hhi Hlo. repeat apply Forall_app_2; trivial.
  - destruct hi; repeat constructor.
  - repeat constructor.
  - destruct lo; repeat constructor.
Qed.

Lemma compressed_length (hi lo : list string) :
  (3 <= length (edge hi ++ hi ++ [EmptyString] ++ lo ++ edge lo))%nat.
Proof.
  rewrite !List.length_app. destruct hi; destruct lo; simpl; lia.
Qed.

Lemma hex_pair_hextets ip4 :
  Forall hextet [hex_of_int (Z.land (Z.shiftr ip4 16) 65535); hex_of_int (Z.land ip4 65535)].
Proof.
  apply List.Forall_cons; [apply hex_hextet|].
  apply List.Forall_cons; [apply hex_hextet | apply List.Forall_nil].
Qed.

Lemma v6_string_complete s : ipv6_text s -> exists v, v6_ip_int_from_string s = Some v.
Proof.
  intros [(gs & Hg & ->)|(hi & lo & n & Hhi & Hg & Hn & ->)].
  - inversion Hg as [hs Hh E1 E2|hs q Hh Hq E1 E2]; subst.
    + apply v6_string_run; [now apply hextets_no_colon | lia |].
      left. split; [now apply hextets_no_dot | now left].
    + apply v6_string_run.
      * apply Forall_app_2; [now apply hextets_no_colon|].
        repeat constructor. now apply (ipv4_text_no_char q ":").
      * rewrite List.length_app. simpl. lia.
      * destruct (v4_of_str_complete _ Hq) as [ip4 E4]. right. exists ip4.
        rewrite last_last, removelast_last.
        split; [now apply ipv4_text_has_dot|]. split; [exact E4|]. left. split.
        -- apply Forall_app_2; [exact Hh | apply hex_pair_hextets].
        -- rewrite List.length_app. simpl. lia.
  - rewrite <- join_compressed.
    inversion Hg as [hs Hh E1 E2|hs q Hh Hq E1 E2]; subst.
    + apply v6_string_run;
        [apply compressed_no_colon; now apply hextets_no_colon
        | apply compressed_length |].
      left. split; [|right; now exists hi, lo].
      destruct (snoc_cases lo) as [->|(l' & a & ->)].
      * change (edge (@nil string)) with [EmptyString].
        rewrite !app_assoc. now rewrite last_last.
      * rewrite edge_snoc, app_nil_r, !app_assoc, last_last.
        apply Forall_app in Hh as [_ Hh]. apply Forall_cons_iff in Hh as [Hh _].
        now apply (hextet_no_char a ".").
    + apply v6_string_run.
      * apply compressed_no_colon; [now apply hextets_no_colon|].
        apply Forall_app_2; [now apply hextets_no_colon|].
        repeat constructor. now apply (ipv4_text_no_char q ":").
      * apply compressed_length.
      * destruct (v4_of_str_complete _ Hq) as [ip4 E4]. right. exists ip4.
        rewrite edge_snoc, app_nil_r, !app_assoc, last_last, removelast_last.
        split; [now apply ipv4_text_has_dot|]. split; [exact E4|]. right.
        exists hi, (hs ++ [hex_of_int (Z.land (Z.shiftr ip4 16) 65535);
                           hex_of_int (Z.land ip4 65535)]).
        split; [exact Hhi|]. split.
        -- apply Forall_app_2; [exact Hh | apply hex_pair_hextets].
        -- split; [rewrite List.length_app; simpl; lia|].
           change [hex_of_int (Z.land (Z.shiftr ip4 16) 65535); hex_of_int (Z.land ip4 65535)]
             with ([hex_of_int (Z.land (Z.shiftr ip4 16) 65535)]
                   ++ [hex_of_int (Z.land ip4 65535)]).
           rewrite (app_assoc hs), edge_snoc, app_nil_r. now rewrite <- !app_assoc.
Qed.

(** *** Scope identifiers, and the whole of [ip_address] *)

Lemma partition_none c s :
  has_char c s = false -> partition_chr c s = (s, false, EmptyString).
Proof.
  induction s as [|a s IH]; simpl; [reflexivity|].
  intros H. apply orb_false_iff in H as [Ha Hs]. now rewrite Ha, (IH Hs).
Qed.

Lemma partition_app c a z :
  has_char c a = false -> partition_chr c (a +:+ String c z) = (a, true, z).
Proof.
  induction a as [|x a IH]; simpl.
  - intros _. now rewrite Ascii.eqb_refl.
  - intros H. apply orb_false_iff in H as [Hx Ha]. now rewrite Hx, (IH Ha).
Qed.

Lemma partition_inv c s a found z :
  partition_chr c s = (a, found, z) ->
  has_char c a = false
  /\ if found then s = a +:+ String c z else s = a /\ has_char c s = false.
Proof.
  revert a found z. induction s as [|x s IH]; intros a found z; simpl.
  - intros [= <- <- <-]. now repeat split.
  - destruct (Ascii.eqb_spec x c) as [->|Hne].
    + intros [= <- <- <-]. now split.
    + destruct (partition_chr c s) as [[a' f'] z'] eqn:E.
      intros [= <- <- <-]. destruct (IH _ _ _ eq_refl) as [Ha Hs].
      assert (Hx : Ascii.eqb x c = false) by now apply Ascii.eqb_neq.
      split; [simpl; now rewrite Hx, Ha|].
      destruct f'.
      * now rewrite Hs.
      * destruct Hs as [-> Hs]. split; [reflexivity|]. simpl. rewrite ?Hx. exact Hs.
Qed.

Lemma hex_digit c : is_hex c = false -> is_digit c = false.
Proof. unfold is_hex. destruct (is_digit c); [discriminate | reflexivity]. Qed.

Lemma v6_groups_no_char gs n c :
  v6_groups gs n -> is_hex c = false -> Ascii.eqb "." c = false ->
  Forall (fun w => has_char c w = false) gs.
Proof.
  intros Hg Hc Hdot.
  assert (Hh : forall hs, Forall hextet hs -> Forall (fun w => has_char c w = false) hs).
  { intros hs H. eapply List.Forall_impl; [|exact H]. intros h Hx.
    now apply hextet_no_char. }
  destruct Hg as [hs H|hs q H Hq]; [now apply Hh|].
  apply Forall_app_2; [now apply Hh|]. apply List.Forall_cons; [|apply List.Forall_nil].
  apply ipv4_text_no_char; [exact Hq | now apply hex_digit | exact Hdot].
Qed.

(** An IPv6 text is made of hexadecimal digits, colons and dots. *)
Lemma ipv6_text_no_char s c :
  ipv6_text s -> is_hex c = false -> Ascii.eqb ":" c = false -> Ascii.eqb "." c = false ->
  has_char c s = false.
Proof.
  intros [(gs & Hg & ->)|(hi & lo & n & Hhi & Hg & _ & ->)] Hc Hcolon Hdot.
  - apply has_char_join; [|exact Hcolon]. now apply (v6_groups_no_char gs 8).
  - rewrite !has_char_append. cbn [has_char String.append]. rewrite Hcolon. cbn [orb].
    rewrite !has_char_join; trivial.
    + now apply (v6_groups_no_char lo n).
    + eapply List.Forall_impl; [|exact Hhi]. intros h Hx. now apply hextet_no_char.
Qed.

Lemma ipv4_not_v6 s v : v4_of_str s = Some v -> has_char ":" s = false.
Proof.
  intros H. apply v4_of_str_sound in H. now apply (ipv4_text_no_char s ":").
Qed.

Lemma v6_of_str_sound s r :
  v6_of_str s = Some r ->
  ipv6_text s \/ exists a z, ipv6_text a /\ scope_text z /\ s = a +:+ String "%" z.
Proof.
  unfold v6_of_str, split_scope_id.
  destruct (has_char "/" s) eqn:Hslash; [discriminate|].
  destruct (partition_chr "%" s) as [[a found] z] eqn:E.
  apply partition_inv in E as [Ha Hs]. destruct found; simpl.
  - destruct (is_empty z || has_char "%" z) eqn:Ez; [discriminate|].
    apply orb_false_iff in Ez as [Ez Hz].
    destruct (v6_ip_int_from_string a) as [ip|] eqn:E6; [|discriminate].
    intros _. right. exists a, z. apply v6_string_sound in E6.
    split; [exact E6|]. split; [|exact Hs]. subst s.
    rewrite has_char_append in Hslash. apply orb_false_iff in Hslash as [_ Hslash].
    simpl in Hslash. repeat split; trivial. intros ->. discriminate Ez.
  - destruct Hs as [<- _].
    destruct (v6_ip_int_from_string s) as [ip|] eqn:E6; [|discriminate].
    intros _. left. now apply v6_string_sound in E6.
Qed.

Lemma v6_of_str_complete s :
  ipv6_text s \/ (exists a z, ipv6_text a /\ scope_text z /\ s = a +:+ String "%" z) ->
  exists r, v6_of_str s = Some r.
Proof.
  unfold v6_of_str, split_scope_id. intros [H|(a & z & Ha & (Hz & Hp & Hs) & ->)].
  - rewrite (ipv6_text_no_char s "/" H eq_refl eq_refl eq_refl).
    rewrite (partition_none _ _ (ipv6_text_no_char s "%" H eq_refl eq_refl eq_refl)).
    simpl. destruct (v6_string_complete _ H) as [v ->]. eauto.
  - rewrite has_char_append, (ipv6_text_no_char a "/" Ha eq_refl eq_refl eq_refl).
    simpl. rewrite Hs.
    rewrite (partition_app _ _ _ (ipv6_text_no_char a "%" Ha eq_refl eq_refl eq_refl)).
    simpl. rewrite Hp. destruct z; [congruence|]. simpl.
    destruct (v6_string_complete _ Ha) as [v ->]. eauto.
Qed.

Lemma validate_iff_ip_text s : validate_ip_address s = true <-> ip_text s.
Proof.
  unfold validate_ip_address, ip_address, ip_text. split.
  - destruct (v4_of_str s) as [v|] eqn:E4; [left; now apply v4_of_str_sound in E4|].
    destruct (v6_of_str s) as [[ip sc]|] eqn:E6; [|discriminate].
    intros _. right. apply v6_of_str_sound in E6. tauto.
  - intros [H|H].
    + destruct (v4_of_str_complete _ H) as [v ->]. reflexivity.
    + destruct (v4_of_str s); [reflexivity|].
      destruct (v6_of_str_complete s) as [[ip sc] ->]; [tauto | reflexivity].
Qed.

Lemma dangerous_not_address c :
  In c dangerous_chars ->
  is_hex c = false /\ Ascii.eqb ":" c = false /\ Ascii.eqb "." c = false
  /\ Ascii.eqb "%" c = false.
Proof.
  unfold dangerous_chars. simpl.
  intros H. repeat (destruct H as [<-|H]; [now repeat split|]). destruct H.
Qed.

(** C5, as stated, fails: an address with a scope identifier is accepted
    whatever characters of the deny-list of [sanitize_input] the
    identifier holds. *)
Lemma validate_accepts_injection_characters :
  validate_ip_address "fe80::1%;reboot" = true
  /\ has_char ";" "fe80::1%;reboot" = true
  /\ In ";"%char dangerous_chars
  /\ sanitize_input "fe80::1%;reboot" <> "fe80::1%;reboot".
Proof.
  split; [vm_compute; reflexivity|]. split; [reflexivity|].
  split; [simpl; tauto | discriminate].
Qed.

(** C5, amended.  [validate_ip_address] returns true exactly for the
    text of an IPv4 address, of an IPv6 address, or of an IPv6 address
    followed by [%] and a scope identifier; for every other text it
    returns false.  In an accepted text no character of the deny-list
    comes before the first [%]. *)
Theorem validate_ip_address_decides_ip_text (s : string) :
  (validate_ip_address s = true <-> ip_text s)
  /\ (validate_ip_address s = false <-> ~ ip_text s)
  /\ (validate_ip_address s = true ->
      forall c, In c dangerous_chars -> has_char c (before_scope s) = false).
Proof.
  pose proof (validate_iff_ip_text s) as V.
  split; [exact V|]. split.
  - destruct (validate_ip_address s); split; intros H; try discriminate; try tauto.
    intros H'. apply V in H'. discriminate.
  - intros H c Hc. apply V in H.
    destruct (dangerous_not_address c Hc) as (Hh & Hcolon & Hdot & Hpct).
    unfold before_scope.
    destruct H as [H|[H|(a & z & Ha & _ & ->)]].
    + rewrite (partition_none _ _ (ipv4_text_no_char s "%" H eq_refl eq_refl)).
      simpl. apply ipv4_text_no_char; [exact H | now apply hex_digit | exact Hdot].
    + rewrite (partition_none _ _ (ipv6_text_no_char s "%" H eq_refl eq_refl eq_refl)).
      simpl. now apply ipv6_text_no_char.
    + rewrite (partition_app _ _ _ (ipv6_text_no_char a "%" Ha eq_refl eq_refl eq_refl)).
      simpl. now apply ipv6_text_no_char.
Qed.

Lemma validate_ip_address_decides_ip_text_witness :
  has_char ";" (before_scope "fe80::1%;reboot") = false.
Proof.
  apply (proj2 (proj2 (validate_ip_address_decides_ip_text "fe80::1%;reboot"))).
  - vm_compute. reflexivity.
  - simpl. tauto.
Defined.

End IpTexts.

(** ** Runs of a program *)

Section Runs.
Import Prog.

Lemma run_bind {E A B W} (h : handler E W) (p : prog E A) (f : A -> prog E B) :
  forall w, run h (bind p f) w = run h (f (fst (run h p w))) (snd (run h p w)).
Proof.
  induction p as [a|X e k IH]; intros w; simpl; [reflexivity|].
  destruct (h X e w) as [x w']. apply IH.
Qed.

Lemma commands_run_bind {A B W} (h : handler procE W) (p : prog procE A)
      (f : A -> prog procE B) :
  standard p ->
  forall w, commands_run h (bind p f) w
            = commands_run h p w
              ++ commands_run h (f (fst (run h p w))) (snd (run h p w)).
Proof.
  induction p as [a|X e k IH]; intros Hs w; simpl; [reflexivity|].
  destruct e as [command timeout]. destruct Hs as [-> Hs].
  destruct (h _ _ w) as [x w']. simpl.
  f_equal. now apply IH.
Qed.

Lemma standard_bind {A B} (p : prog procE A) (f : A -> prog procE B) :
  standard p -> (forall a, standard (f a)) -> standard (bind p f).
Proof.
  intros Hp Hf. induction p as [a|X e k IH]; simpl; [apply Hf|].
  destruct e as [command timeout]. destruct Hp as [-> Hp].
  split; [reflexivity|]. intros x. now apply IH.
Qed.

Lemma standard_safe command : standard (safe_execute_command command).
Proof. unfold safe_execute_command. simpl. auto. Qed.

Lemma standard_bind_opt {A B} (p : prog procE (option A)) (f : A -> prog procE (option B)) :
  standard p -> (forall a, standard (f a)) -> standard (bind_opt p f).
Proof.
  intros Hp Hf. apply standard_bind; [exact Hp|]. intros [a|]; [apply Hf | exact I].
Qed.

Lemma commands_run_safe {W} (h : handler procE W) command w :
  commands_run h (safe_execute_command command) w = [command].
Proof.
  unfold safe_execute_command. simpl. now destruct (h _ _ w).
Qed.

Lemma run_bind_opt {E A B W} (h : handler E W) (p : prog E (option A))
      (f : A -> prog E (option B)) w a :
  fst (run h p w) = Some a ->
  run h (bind_opt p f) w = run h (f a) (snd (run h p w)).
Proof.
  intros H. unfold bind_opt. rewrite run_bind, H. reflexivity.
Qed.

Lemma commands_run_bind_opt {A B W} (h : handler procE W) (p : prog procE (option A))
      (f : A -> prog procE (option B)) w a :
  standard p ->
  fst (run h p w) = Some a ->
  commands_run h (bind_opt p f) w
  = commands_run h p w ++ commands_run h (f a) (snd (run h p w)).
Proof.
  intros Hs H. unfold bind_opt. rewrite commands_run_bind, H by exact Hs. reflexivity.
Qed.

End Runs.

(** ** The manager: reading the state of the tool *)

Section Queries.
Import Prog PyStr Fail2banManager.

Lemma status_of_result_named jail_name r :
  exists status, status_of_result jail_name r = Some status /\ get_name status = jail_name.
Proof.
  destruct r as [[[] stdout] stderr].
  - destruct (status_of_result_defaults jail_name stdout stderr) as (st & -> & Hn & _).
    eexists. split; [reflexivity|]. exact Hn.
  - simpl. eexists. split; reflexivity.
Qed.

Lemma get_jail_status_run {W} (h : handler procE W) w jail_name :
  exists status,
    fst (run h (get_jail_status jail_name) w) = Some status
    /\ get_name status = jail_name
    /\ commands_run h (get_jail_status jail_name) w = [status_command jail_name].
Proof.
  unfold get_jail_status, safe_execute_command. cbn [bind run commands_run].
  destruct (h _ _ w) as [o w']. cbn [run fst commands_run].
  destruct (status_of_result_named jail_name (result_of_outcome o)) as (st & E & Hn).
  exists st. repeat split; assumption.
Qed.

Lemma standard_get_jail_status jail_name : standard (get_jail_status jail_name).
Proof. unfold get_jail_status. apply standard_bind; [apply standard_safe|]. now intros r. Qed.

Lemma all_status_loop_run {W} (h : handler procE W) jails : forall acc w,
  exists statuses,
    fst (run h (all_status_loop jails acc) w) = Some (acc ++ statuses)
    /\ map get_name statuses = jails
    /\ commands_run h (all_status_loop jails acc) w = map status_command jails.
Proof.
  induction jails as [|jail rest IH]; intros acc w.
  - exists []. simpl. now rewrite app_nil_r.
  - cbn [all_status_loop].
    destruct (get_jail_status_run h w jail) as (st & E & Hn & Hc).
    rewrite (run_bind_opt h _ _ w st E).
    rewrite (commands_run_bind_opt h _ _ w st (standard_get_jail_status jail) E).
    destruct (IH (acc ++ [st]) (snd (run h (get_jail_status jail) w)))
      as (sts & E2 & Hn2 & Hc2).
    exists (st :: sts). rewrite E2, Hc, Hc2. rewrite <- app_assoc. simpl.
    now rewrite Hn, Hn2.
Qed.

Lemma standard_all_status_loop jails : forall acc, standard (all_status_loop jails acc).
Proof.
  induction jails as [|jail rest IH]; intros acc; cbn [all_status_loop]; [exact I|].
  apply standard_bind_opt; [apply standard_get_jail_status | intros a; apply IH].
Qed.

End Queries.

(** *** [get_jails_list] never raises *)

Section JailsList.
Import Prog PyStr Fail2banManager.

Lemma split_str_aux_nonempty sep s : forall k, split_str_aux sep k s <> [].
Proof.
  induction s as [|c s IH]; intros [|k]; simpl; try discriminate.
  - destruct (starts_with sep (String c s)); [discriminate|].
    destruct (split_str_aux sep 0 s); discriminate.
  - apply IH.
Qed.

(** When the separator occurs, [split] gives two parts at least. *)
Lemma split_str_second sep s :
  is_empty sep = false -> contains sep s = true ->
  exists part, split_str sep s !! 1%nat = Some part.
Proof.
  intros Hsep. unfold split_str.
  induction s as [|c s IH]; intros H.
  - simpl in H. destruct sep; discriminate.
  - cbn [contains] in H. cbn [split_str_aux].
    destruct (starts_with sep (String c s)) eqn:E.
    + destruct (split_str_aux sep (len sep - 1) s) as [|w ws] eqn:E2.
      * now apply split_str_aux_nonempty in E2.
      * exists w. reflexivity.
    + simpl in H. destruct (IH H) as [part Hp].
      destruct (split_str_aux sep 0 s) as [|w ws]; [discriminate|].
      exists part. exact Hp.
Qed.

Lemma jails_of_lines_total lines : exists jails, jails_of_lines lines = Some jails.
Proof.
  induction lines as [|line rest IH]; simpl; [eauto|].
  destruct (contains "Jail list:" line) eqn:E; [|exact IH].
  destruct (split_str_second "Jail list:" line eq_refl E) as [part ->]. simpl.
  destruct (negb (is_empty (strip part))); eauto.
Qed.

End JailsList.

(** *** The names [get_jails_list] hands out *)

Section JailNames.
Import Prog PyStr Fail2banManager.

Lemma split_chr_keeps_absent c sep s :
  has_char c s = false -> Forall (fun w => has_char c w = false) (split_chr sep s).
Proof.
  induction s as [|a s IH]; simpl; intros H.
  - repeat constructor.
  - apply orb_false_iff in H as [H1 H2]. specialize (IH H2).
    destruct (Ascii.eqb a sep).
    + constructor; [reflexivity | exact IH].
    + destruct (split_chr sep s) as [|w ws]; [repeat constructor; simpl; now rewrite H1|].
      inversion IH; subst. constructor; [simpl; now rewrite H1 | assumption].
Qed.

Lemma split_str_keeps_absent c sep s : forall k,
  has_char c s = false -> Forall (fun w => has_char c w = false) (split_str_aux sep k s).
Proof.
  induction s as [|a s IH]; intros k H.
  - destruct k; repeat constructor.
  - simpl in H. apply orb_false_iff in H as [H1 H2].
    destruct k as [|k]; cbn [split_str_aux]; [|now apply IH].
    destruct (starts_with sep (String a s)).
    + constructor; [reflexivity | now apply IH].
    + specialize (IH 0%nat H2).
      destruct (split_str_aux sep 0 s) as [|w ws]; [repeat constructor; simpl; now rewrite H1|].
      inversion IH; subst. constructor; [simpl; now rewrite H1 | assumption].
Qed.

Lemma stripped_nonempty_spec parts x :
  In x (stripped_nonempty parts) ->
  exists y, In y parts /\ x = strip y /\ is_empty x = false.
Proof.
  unfold stripped_nonempty. rewrite in_map_iff. intros (y & <- & Hy).
  apply filter_In in Hy as [Hy Hne]. exists y. repeat split; trivial.
  now apply negb_true_iff in Hne.
Qed.

Lemma stripped_names part :
  has_char "010" part = false ->
  Forall name_ok (stripped_nonempty (split_chr "," (strip part))).
Proof.
  intros Hnl. apply List.Forall_forall. intros x Hx.
  apply stripped_nonempty_spec in Hx as (y & Hy & -> & Hne).
  pose proof (split_parts_no_sep "," (strip part)) as Hc.
  pose proof (split_chr_keeps_absent "010" "," (strip part)
                (strip_keeps_absent _ _ Hnl)) as Hn.
  rewrite List.Forall_forall in Hc, Hn.
  repeat split.
  - exact Hne.
  - apply strip_keeps_absent, Hc, Hy.
  - apply strip_keeps_absent, Hn, Hy.
  - apply strip_idem.
Qed.

Lemma jails_of_lines_names lines jails :
  Forall (fun line => has_char "010" line = false) lines ->
  jails_of_lines lines = Some jails -> Forall name_ok jails.
Proof.
  induction lines as [|line rest IH]; simpl; intros Hl.
  - intros [= <-]. constructor.
  - inversion Hl as [|? ? Hline Hrest]; subst.
    destruct (contains "Jail list:" line); [|now apply IH].
    destruct (split_str "Jail list:" line !! 1%nat) as [part|] eqn:E; [|discriminate].
    simpl.
    assert (Hp : has_char "010" part = false).
    { pose proof (split_str_keeps_absent "010" "Jail list:" line 0 Hline) as F.
      rewrite List.Forall_forall in F. apply F.
      apply list_elem_of_In. eapply list_elem_of_lookup_2. exact E. }
    destruct (negb (is_empty (strip part))); intros [= <-]; [|constructor].
    now apply stripped_names.
Qed.

Lemma get_jails_list_run {W} (h : handler procE W) w :
  exists jails,
    fst (run h get_jails_list w) = Some jails
    /\ Forall name_ok jails
    /\ commands_run h get_jails_list w = [[client_path; "status"]]
    /\ (fst (fst (result_of_outcome
                    (fst (h _ (SubprocessRun [client_path; "status"]
                                             config.COMMAND_TIMEOUT) w)))) = false ->
        jails = []).
Proof.
  unfold get_jails_list, safe_execute_command. cbn [bind run commands_run].
  destruct (h _ _ w) as [o w']. cbn [fst].
  destruct (result_of_outcome o) as [[success stdout] stderr]. cbn [fst].
  destruct success; cbn [negb run fst commands_run].
  - destruct (jails_of_lines_total (split_chr "010" stdout)) as [jails E].
    exists jails. rewrite E. repeat split; [|discriminate].
    apply (jails_of_lines_names _ _ (split_parts_no_sep "010" stdout) E).
  - exists []. repeat split. constructor.
Qed.

(** X1. [get_jails_list] returns a list, whatever the tool answers: the
    empty list when the command fails, and otherwise names that are not
    empty, hold no comma and no line feed, and neither begin nor end with
    whitespace. *)
Theorem get_jails_list_names W (h : handler procE W) (w : W) :
  exists jails,
    fst (run h get_jails_list w) = Some jails
    /\ Forall name_ok jails
    /\ (fst (fst (result_of_outcome
                    (fst (h _ (SubprocessRun [client_path; "status"]
                                             config.COMMAND_TIMEOUT) w)))) = false ->
        jails = []).
Proof.
  destruct (get_jails_list_run h w) as (jails & E & Hok & _ & Hf).
  exists jails. auto.
Qed.

Lemma standard_get_jails_list : standard get_jails_list.
Proof.
  unfold get_jails_list. apply standard_bind; [apply standard_safe|].
  intros [[[] ?] ?]; exact I.
Qed.

End JailNames.

(** *** [get_all_jails_status] and [get_banned_ips] *)

Section Manager.
Import Prog PyStr Fail2banManager.

Lemma get_all_jails_status_run {W} (h : handler procE W) w :
  exists jails statuses,
    fst (run h get_jails_list w) = Some jails
    /\ fst (run h get_all_jails_status w) = Some statuses
    /\ map get_name statuses = jails
    /\ commands_run h get_all_jails_status w
       = [client_path; "status"] :: map status_command jails.
Proof.
  destruct (get_jails_list_run h w) as (jails & E & _ & Hc & _).
  destruct (all_status_loop_run h jails [] (snd (run h get_jails_list w)))
    as (sts & E2 & Hn & Hc2).
  exists jails, sts. unfold get_all_jails_status.
  rewrite (run_bind_opt h _ _ w jails E).
  rewrite (commands_run_bind_opt h _ _ w jails standard_get_jails_list E).
  rewrite E2, Hc, Hc2. repeat split; trivial.
Qed.

Lemma standard_get_all_jails_status : standard get_all_jails_status.
Proof.
  unfold get_all_jails_status.
  apply standard_bind_opt; [apply standard_get_jails_list|].
  intros a. apply standard_all_status_loop.
Qed.

(** X2. The names of the jails, in order, are those [get_jails_list] found;
    one [status] command is run for the list and one for each jail. *)
Theorem get_all_jails_status_one_per_jail W (h : handler procE W) (w : W) :
  exists jails statuses,
    fst (run h get_jails_list w) = Some jails
    /\ fst (run h get_all_jails_status w) = Some statuses
    /\ map get_name statuses = jails
    /\ commands_run h get_all_jails_status w
       = [client_path; "status"] :: map status_command jails.
Proof. apply get_all_jails_status_run. Qed.

Lemma banned_ips_loop_run {W} (h : handler procE W) jails : forall banned w,
  exists result,
    fst (run h (banned_ips_loop jails banned) w) = Some result
    /\ (forall jail ips, result !! jail = Some ips ->
                         banned !! jail = Some ips \/ In jail jails)
    /\ commands_run h (banned_ips_loop jails banned) w = map status_command jails.
Proof.
  induction jails as [|jail rest IH]; intros banned w.
  - exists banned. simpl. repeat split. auto.
  - cbn [banned_ips_loop].
    destruct (get_jail_status_run h w jail) as (st & E & Hn & Hc).
    rewrite (run_bind_opt h _ _ w st E).
    rewrite (commands_run_bind_opt h _ _ w st (standard_get_jail_status jail) E).
    match goal with |- context [banned_ips_loop rest ?b] =>
      destruct (IH b (snd (run h (get_jail_status jail) w))) as (res & E2 & Hk & Hc2)
    end.
    exists res. rewrite E2, Hc, Hc2. repeat split.
    intros j ips Hj. destruct (Hk j ips Hj) as [Hb|Hin]; [|right; now right].
    destruct (get_enabled st); [|now left].
    destruct (decide (jail = j)) as [->|Hne].
    + right. now left.
    + rewrite lookup_insert_ne in Hb by exact Hne. now left.
Qed.

Lemma get_banned_ips_run {W} (h : handler procE W) (w : W) (jail_name : option string) :
  exists jails result,
    (match jail_name with
     | Some j => if is_empty j then fst (run h get_jails_list w) = Some jails
                 else jails = [j]
     | None => fst (run h get_jails_list w) = Some jails
     end)
    /\ fst (run h (get_banned_ips jail_name) w) = Some result
    /\ (forall jail ips, result !! jail = Some ips -> In jail jails)
    /\ (forall j, jail_name = Some j -> is_empty j = false ->
        exists status,
          fst (run h (get_jail_status j) w) = Some status
          /\ result = if get_enabled status
                      then {[ j := get_banned_ips_of status ]} else ∅)
    /\ commands_run h (get_banned_ips jail_name) w
       = (match jail_name with
          | Some j => if is_empty j then [[client_path; "status"]] else []
          | None => [[client_path; "status"]]
          end) ++ map status_command jails.
Proof.
  assert (Hall : (forall j, jail_name = Some j -> is_empty j = true) ->
    exists jails result,
    fst (run h get_jails_list w) = Some jails
    /\ fst (run h (bind_opt get_jails_list (fun jails => banned_ips_loop jails ∅)) w)
       = Some result
    /\ (forall jail ips, result !! jail = Some ips -> In jail jails)
    /\ (forall j, jail_name = Some j -> is_empty j = false ->
        exists status,
          fst (run h (get_jail_status j) w) = Some status
          /\ result = if get_enabled status
                      then {[ j := get_banned_ips_of status ]} else ∅)
    /\ commands_run h (bind_opt get_jails_list (fun jails => banned_ips_loop jails ∅)) w
       = [[client_path; "status"]] ++ map status_command jails).
  { intros Hname.
    destruct (get_jails_list_run h w) as (jails & E & _ & Hc & _).
    destruct (banned_ips_loop_run h jails ∅ (snd (run h get_jails_list w)))
      as (res & E2 & Hk & Hc2).
    exists jails, res.
    rewrite (run_bind_opt h _ _ w jails E).
    rewrite (commands_run_bind_opt h _ _ w jails standard_get_jails_list E).
    rewrite E2, Hc, Hc2. repeat split; trivial.
    - intros j ips Hj. destruct (Hk j ips Hj) as [Hb|Hin]; [|exact Hin].
      now rewrite lookup_empty in Hb.
    - intros j Hj Hne. rewrite (Hname j Hj) in Hne. discriminate. }
  unfold get_banned_ips. destruct jail_name as [j|]; [|apply Hall; discriminate].
  destruct (is_empty j) eqn:Ej; cbn [negb]; [apply Hall; now intros ? [= <-]|].
  destruct (get_jail_status_run h w j) as (st & E & Hn & Hc).
  exists [j], (if get_enabled st then {[ j := get_banned_ips_of st ]} else ∅).
  split; [reflexivity|].
  change (bind_opt (Ret (Some [j])) (fun jails => banned_ips_loop jails ∅))
    with (bind_opt (get_jail_status j)
            (fun status => banned_ips_loop []
               (if get_enabled status
                then <[j := get_banned_ips_of status]> ∅ else ∅))).
  rewrite (run_bind_opt h _ _ w st E). cbn [run fst banned_ips_loop].
  rewrite (commands_run_bind_opt h _ _ w st (standard_get_jail_status j) E), Hc.
  cbn [commands_run banned_ips_loop app map].
  split; [now rewrite insert_empty|].
  split.
  { intros j' ips. destruct (get_enabled st).
    - intros Hj. apply lookup_singleton_Some in Hj as [<- _]. now left.
    - now rewrite lookup_empty. }
  split; [|reflexivity].
  intros j0 [= <-] _. exists st. split; [exact E | reflexivity].
Qed.

(** X3. [get_banned_ips] returns a dictionary, whatever the tool answers;
    its keys are jails that were asked about: the jail named, or those of
    [get_jails_list]; only [status] commands are run.  For a jail that is
    named, the dictionary maps it to its banned addresses when its status
    could be read, and is empty otherwise. *)
Theorem get_banned_ips_keys W (h : handler procE W) (w : W) (jail_name : option string) :
  exists jails result,
    (match jail_name with
     | Some j => if is_empty j then fst (run h get_jails_list w) = Some jails
                 else jails = [j]
     | None => fst (run h get_jails_list w) = Some jails
     end)
    /\ fst (run h (get_banned_ips jail_name) w) = Some result
    /\ (forall jail ips, result !! jail = Some ips -> In jail jails)
    /\ (forall j, jail_name = Some j -> is_empty j = false ->
        exists status,
          fst (run h (get_jail_status j) w) = Some status
          /\ result = if get_enabled status
                      then {[ j := get_banned_ips_of status ]} else ∅)
    /\ commands_run h (get_banned_ips jail_name) w
       = (match jail_name with
          | Some j => if is_empty j then [[client_path; "status"]] else []
          | None => [[client_path; "status"]]
          end) ++ map status_command jails.
Proof. apply get_banned_ips_run. Qed.

End Manager.

(** *** [get_jail_config] *)

Section Manager2.
Import Prog PyStr Fail2banManager.

Lemma jail_config_loop_run {W} (h : handler procE W) jail_name params : forall acc w,
  (forall param value,
     fst (run h (jail_config_loop jail_name params acc) w) !! param = Some value ->
     acc !! param = Some value \/ (In param params /\ strip value = value))
  /\ commands_run h (jail_config_loop jail_name params acc) w
     = map (fun param => [client_path; "get"; jail_name; param]) params.
Proof.
  induction params as [|param rest IH]; intros acc w.
  - simpl. split; auto.
  - cbn [jail_config_loop]. unfold safe_execute_command. cbn [bind run commands_run].
    destruct (h _ _ w) as [o w']. cbn [map].
    destruct (result_of_outcome o) as [[success stdout] stderr].
    match goal with |- context [jail_config_loop jail_name rest ?a] =>
      destruct (IH a w') as [Hk Hc]
    end.
    split; [|now rewrite Hc].
    intros p v Hp. destruct (Hk p v Hp) as [Ha|[Hin Hs]]; [|right; split; [now right|exact Hs]].
    destruct success; [|now left].
    destruct (decide (param = p)) as [->|Hne].
    + rewrite lookup_insert_eq in Ha. injection Ha as <-.
      right. split; [now left | apply strip_idem].
    + rewrite lookup_insert_ne in Ha by exact Hne. now left.
Qed.

(** X4. [get_jail_config] asks for the five parameters in a fixed order,
    whatever the tool answers, and with the jail name as it was given; the
    dictionary it returns has keys among the five, and values without
    whitespace at either end. *)
Theorem get_jail_config_asks_five W (h : handler procE W) (w : W) (jail_name : string) :
  commands_run h (get_jail_config jail_name) w
  = [ [client_path; "get"; jail_name; "bantime"];
      [client_path; "get"; jail_name; "findtime"];
      [client_path; "get"; jail_name; "maxretry"];
      [client_path; "get"; jail_name; "logpath"];
      [client_path; "get"; jail_name; "backend"] ]
  /\ forall param value,
       fst (run h (get_jail_config jail_name) w) !! param = Some value ->
       In param config_param_names /\ strip value = value.
Proof.
  destruct (jail_config_loop_run h jail_name config_param_names ∅ w) as [Hk Hc].
  split; [exact Hc|].
  intros p v Hp. destruct (Hk p v Hp) as [Ha|H]; [|exact H].
  now rewrite lookup_empty in Ha.
Qed.

End Manager2.

(** *** [get_server_status], and what no query does *)

Section Manager3.
Import Prog PyStr Fail2banManager.

Lemma filter_length_le {A} (f : A -> bool) (l : list A) :
  (length (List.filter f l) <= length l)%nat.
Proof. induction l as [|a l IH]; simpl; [lia|]. destruct (f a); simpl; lia. Qed.

Lemma is_fail2ban_running_run {W} (h : handler procE W) w :
  commands_run h is_fail2ban_running w = [[client_path; "ping"]]
  /\ standard is_fail2ban_running.
Proof.
  unfold is_fail2ban_running, safe_execute_command. cbn [bind commands_run standard].
  destruct (h _ _ w) as [o w']. split; [|split; [reflexivity|]].
  - now destruct (result_of_outcome o) as [[? ?] ?].
  - intros x. now destruct (result_of_outcome x) as [[? ?] ?].
Qed.

Lemma get_server_status_run {W} (h : handler procE W) w :
  exists status,
    fst (run h get_server_status w) = Some status
    /\ 0 <= active_jails status <= total_jails status
    /\ uptime status = ""
    /\ (if running status
        then exists jails,
               Forall name_ok jails
               /\ total_jails status = Z.of_nat (length jails)
               /\ commands_run h get_server_status w
                  = [client_path; "ping"] :: [client_path; "version"]
                    :: [client_path; "status"] :: map status_command jails
        else version status = "" /\ total_jails status = 0 /\ active_jails status = 0
             /\ commands_run h get_server_status w = [[client_path; "ping"]]).
Proof.
  unfold get_server_status.
  destruct (is_fail2ban_running_run h w) as [Hc Hs].
  rewrite run_bind, (commands_run_bind h _ _ Hs), Hc.
  destruct (run h is_fail2ban_running w) as [running w1]. cbn [fst snd].
  destruct running.
  - rewrite run_bind, (commands_run_bind h _ _ (standard_safe _)), commands_run_safe.
    destruct (run h (safe_execute_command [client_path; "version"]) w1)
      as [[[success stdout] stderr] w2]. cbn [fst snd].
    destruct (get_all_jails_status_run h w2) as (jails & sts & E1 & E & Hn & Hc2).
    destruct (get_jails_list_run h w2) as (jails' & E1' & Hok & _).
    rewrite E1 in E1'. injection E1' as <-.
    rewrite (run_bind_opt h _ _ w2 sts E).
    rewrite (commands_run_bind_opt h _ _ w2 sts standard_get_all_jails_status E).
    cbn [run fst commands_run].
    eexists. split; [reflexivity|]. cbn [active_jails total_jails uptime running].
    split; [pose proof (filter_length_le get_enabled sts); lia|].
    split; [reflexivity|].
    exists jails. rewrite Hc2, app_nil_r. repeat split; trivial.
    now rewrite <- Hn, length_map.
  - cbn [run fst commands_run].
    eexists. split; [reflexivity|]. cbn. repeat split; lia.
Qed.

(** X5. [get_server_status] returns a record, whatever the tool answers; the
    number of active jails is between 0 and the number of jails; the entry
    [uptime] is always empty; when [ping] fails, nothing else is asked and
    the record holds an empty version and no jail. *)
Theorem get_server_status_counts W (h : handler procE W) (w : W) :
  exists status,
    fst (run h get_server_status w) = Some status
    /\ 0 <= active_jails status <= total_jails status
    /\ uptime status = ""
    /\ (running status = false ->
        version status = "" /\ total_jails status = 0 /\ active_jails status = 0
        /\ commands_run h get_server_status w = [[client_path; "ping"]]).
Proof.
  destruct (get_server_status_run h w) as (st & E & Hle & Hu & Hr).
  exists st. split; [exact E|]. split; [exact Hle|]. split; [exact Hu|].
  intros Hf. rewrite Hf in Hr. exact Hr.
Qed.

Lemma forallb_status_commands jails :
  forallb is_query (map status_command jails) = true.
Proof. induction jails as [|j l IH]; simpl; [reflexivity | exact IH]. Qed.

(** X6. The operations that read the state of the tool never hand it a
    command that changes it: every command they run is a [ping], a
    [status], a [get] or a [version]. *)
Theorem queries_never_mutate W (h : handler procE W) (w : W)
        (jail_name : string) (selected : option string) :
  forallb is_query (commands_run h is_fail2ban_running w) = true
  /\ forallb is_query (commands_run h get_jails_list w) = true
  /\ forallb is_query (commands_run h (get_jail_status jail_name) w) = true
  /\ forallb is_query (commands_run h get_all_jails_status w) = true
  /\ forallb is_query (commands_run h (get_banned_ips selected) w) = true
  /\ forallb is_query (commands_run h (get_jail_config jail_name) w) = true
  /\ forallb is_query (commands_run h get_server_status w) = true.
Proof.
  repeat split.
  - now rewrite (proj1 (is_fail2ban_running_run h w)).
  - destruct (get_jails_list_run h w) as (? & _ & _ & -> & _). reflexivity.
  - destruct (get_jail_status_run h w jail_name) as (? & _ & _ & ->). reflexivity.
  - destruct (get_all_jails_status_run h w) as (jails & ? & _ & _ & _ & ->).
    simpl. apply forallb_status_commands.
  - destruct (get_banned_ips_run h w selected) as (jails & ? & _ & _ & _ & _ & ->).
    rewrite forallb_app, forallb_status_commands, andb_true_r.
    destruct selected as [j|]; [destruct (is_empty j)|]; reflexivity.
  - destruct (jail_config_loop_run h jail_name config_param_names ∅ w) as [_ Hc].
    unfold get_jail_config. rewrite Hc. reflexivity.
  - destruct (get_server_status_run h w) as (st & _ & _ & _ & Hr).
    destruct (running st).
    + destruct Hr as (jails & _ & _ & ->). simpl. apply forallb_status_commands.
    + destruct Hr as (_ & _ & _ & ->). reflexivity.
Qed.

End Manager3.

(** ** The manager: the arguments handed to the tool *)

Section CleanArguments.
Import Prog PyStr Fail2banManager IpAddress.

Lemma digit_chr_is_digit d : 0 <= d < 10 -> is_digit (digit_chr d) = true.
Proof.
  intros H.
  assert (C : d = 0 \/ d = 1 \/ d = 2 \/ d = 3 \/ d = 4 \/ d = 5 \/ d = 6 \/ d = 7
              \/ d = 8 \/ d = 9) by lia.
  repeat (destruct C as [->|C]; [reflexivity|]). now subst d.
Qed.

Lemma str_of_pos_aux_digits fuel : forall n acc,
  0 <= n -> all_chars is_digit acc = true ->
  all_chars is_digit (str_of_pos_aux fuel n acc) = true.
Proof.
  induction fuel as [|fuel IH]; intros n acc Hn Ha; simpl; [exact Ha|].
  assert (Hd : is_digit (digit_chr (n mod 10)) = true)
    by (apply digit_chr_is_digit, Z.mod_pos_bound; lia).
  destruct (n <? 10).
  - simpl. now rewrite Hd.
  - apply IH; [apply Z.div_pos; lia | simpl; now rewrite Hd].
Qed.

Lemma all_chars_impl (p q : ascii -> bool) w :
  (forall c, p c = true -> q c = true) -> all_chars p w = true -> all_chars q w = true.
Proof.
  intros H. induction w as [|c w IH]; simpl; [reflexivity|].
  intros E. apply andb_true_iff in E as [E1 E2]. now rewrite (H c E1), IH.
Qed.

(** The decimal text of an integer: digits, after a minus sign when the
    integer is negative. *)
Lemma str_of_int_chars n :
  all_chars (fun c => is_digit c || Ascii.eqb c "-") (str_of_int n) = true.
Proof.
  unfold str_of_int. destruct (n <? 0) eqn:E.
  - apply Z.ltb_lt in E. cbn [all_chars]. change (is_digit "-" || Ascii.eqb "-" "-") with true.
    cbn [andb].
    apply (all_chars_impl is_digit); [intros c ->; reflexivity|].
    apply str_of_pos_aux_digits; [lia | reflexivity].
  - apply Z.ltb_ge in E.
    apply (all_chars_impl is_digit); [intros c ->; reflexivity|].
    apply str_of_pos_aux_digits; [lia | reflexivity].
Qed.

Lemma clean_sanitize_input s : clean (sanitize_input s) = true.
Proof.
  unfold clean. apply forallb_forall. intros c Hc.
  now rewrite (sanitize_input_clean c s Hc).
Qed.

Lemma clean_str_of_int n : clean (str_of_int n) = true.
Proof.
  unfold clean. apply forallb_forall. intros c Hc.
  rewrite (all_chars_no_char _ c _ (str_of_int_chars n)); [reflexivity|].
  simpl in Hc. repeat (destruct Hc as [<-|Hc]; [reflexivity|]). destruct Hc.
Qed.

Lemma commands_run_one {A W} (h : handler procE W) command
      (f : bool * string * string -> prog procE A) w :
  (forall r, exists a, f r = Ret a) ->
  commands_run h (bind (safe_execute_command command) f) w = [command].
Proof.
  intros Hf. unfold safe_execute_command. cbn [bind commands_run].
  destruct (h _ _ w) as [o w']. destruct (Hf (result_of_outcome o)) as [a ->].
  reflexivity.
Qed.

Lemma ban_ip_commands {W} (h : handler procE W) w jail_name ip :
  commands_run h (ban_ip jail_name ip) w
  = if validate_ip_address ip then [banip_command jail_name ip] else [].
Proof.
  unfold ban_ip. destruct (validate_ip_address ip); [|reflexivity]. cbn [negb].
  apply commands_run_one. intros [[[] ?] ?]; eauto.
Qed.

Lemma unban_ip_commands {W} (h : handler procE W) w jail_name ip :
  commands_run h (unban_ip jail_name ip) w
  = if validate_ip_address ip
    then [[client_path; "set"; sanitize_input jail_name; "unbanip"; sanitize_input ip]]
    else [].
Proof.
  unfold unban_ip. destruct (validate_ip_address ip); [|reflexivity]. cbn [negb].
  apply commands_run_one. intros [[[] ?] ?]; eauto.
Qed.

Lemma ban_ip_with_time_commands {W} (h : handler procE W) w jail_name ip ban_time :
  commands_run h (ban_ip_with_time jail_name ip ban_time) w
  = if validate_ip_address ip
    then match str_of_int_checked ban_time with
         | inr _ => [bantime_command jail_name ban_time; banip_command jail_name ip]
         | inl _ => []
         end
    else [].
Proof.
  destruct (validate_ip_address ip) eqn:Hv.
  - destruct (str_of_int_checked ban_time) as [message|seconds] eqn:Hs.
    + now rewrite (ban_ip_with_time_raises _ _ _ _ Hv Hs).
    + destruct (ban_ip_with_time_shape jail_name ip ban_time seconds Hv Hs) as (k & -> & Hk).
      cbn [commands_run].
      destruct (h run_outcome _ w) as [x w'].
      cbn [commands_run].
      destruct (h run_outcome _ w') as [y w''].
      destruct (Hk y) as [r ->]. reflexivity.
  - unfold ban_ip_with_time. rewrite Hv. reflexivity.
Qed.

Lemma jail_command_run {W} (h : handler procE W) w verb jail_name
      (f : bool * string * string -> prog procE (bool * string)) :
  (forall r, exists a, f r = Ret a) ->
  forallb (forallb clean)
    (commands_run h (bind (safe_execute_command
                             [client_path; verb; sanitize_input jail_name]) f) w)
  = forallb clean [verb].
Proof.
  intros Hf. rewrite (commands_run_one h _ f w Hf).
  cbn [forallb]. rewrite clean_sanitize_input.
  change (clean client_path) with true. now rewrite !andb_true_r.
Qed.

(** X7. Every argument of every command that the operations on bans and on
    jails hand to the tool is free of the characters of the deny-list,
    whatever the jail name, the address and the duration. *)
Theorem mutations_pass_clean_arguments W (h : handler procE W) (w : W)
        (jail_name ip : string) (ban_time : Z) :
  forallb (forallb clean) (commands_run h (ban_ip jail_name ip) w) = true
  /\ forallb (forallb clean) (commands_run h (ban_ip_with_time jail_name ip ban_time) w)
     = true
  /\ forallb (forallb clean) (commands_run h (unban_ip jail_name ip) w) = true
  /\ forallb (forallb clean) (commands_run h (reload_jail jail_name) w) = true
  /\ forallb (forallb clean) (commands_run h (start_jail jail_name) w) = true
  /\ forallb (forallb clean) (commands_run h (stop_jail jail_name) w) = true.
Proof.
  repeat split.
  - rewrite ban_ip_commands. destruct (validate_ip_address ip); [|reflexivity].
    unfold banip_command. cbn [forallb]. rewrite !clean_sanitize_input. reflexivity.
  - rewrite ban_ip_with_time_commands. destruct (validate_ip_address ip); [|reflexivity].
    destruct (str_of_int_checked ban_time); [reflexivity|].
    unfold banip_command, bantime_command. cbn [forallb].
    rewrite !clean_sanitize_input, clean_str_of_int. reflexivity.
  - rewrite unban_ip_commands. destruct (validate_ip_address ip); [|reflexivity].
    cbn [forallb]. rewrite !clean_sanitize_input. reflexivity.
  - unfold reload_jail. rewrite jail_command_run; [reflexivity|].
    intros [[[] ?] ?]; eauto.
  - unfold start_jail. rewrite jail_command_run; [reflexivity|].
    intros [[[] ?] ?]; eauto.
  - unfold stop_jail. rewrite jail_command_run; [reflexivity|].
    intros [[[] ?] ?]; eauto.
Qed.

End CleanArguments.

(** ** What [sanitize_input] leaves alone *)

Section SanitizeFixed.
Import Prog PyStr Fail2banManager IpAddress IpText.

Lemma rstrip_fixed s :
  (forall c, last_chr s = Some c -> is_space c = false) -> rstrip s = s.
Proof.
  induction s as [|x s IH]; simpl; [reflexivity|].
  intros H. destruct s as [|y r].
  - simpl. now rewrite (H x eq_refl).
  - rewrite IH; [reflexivity|].
    intros c Hc. apply H. now rewrite Hc.
Qed.

Lemma no_char_all_chars (p : ascii -> bool) s :
  (forall c, p c = false -> has_char c s = false) -> all_chars p s = true.
Proof.
  induction s as [|a s IH]; simpl; [reflexivity|]. intros H.
  destruct (p a) eqn:E.
  - apply IH. intros c Hc. specialize (H c Hc). now apply orb_false_iff in H.
  - specialize (H a E). now rewrite Ascii.eqb_refl in H.
Qed.

Lemma all_chars_head p s c : all_chars p s = true -> head_chr s = Some c -> p c = true.
Proof.
  destruct s as [|a s]; simpl; [discriminate|].
  intros H [= <-]. now apply andb_true_iff in H.
Qed.

Lemma all_chars_last p s : forall c,
  all_chars p s = true -> last_chr s = Some c -> p c = true.
Proof.
  induction s as [|a s IH]; simpl; [discriminate|].
  intros c H. apply andb_true_iff in H as [H1 H2].
  destruct (last_chr s) as [d|]; intros [= <-]; [now apply IH | exact H1].
Qed.

Lemma strip_fixed s :
  (forall c, head_chr s = Some c -> is_space c = false) ->
  (forall c, last_chr s = Some c -> is_space c = false) -> strip s = s.
Proof.
  intros Hh Hl. unfold strip. rewrite (lstrip_fixed s Hh). now apply rstrip_fixed.
Qed.

Lemma clean_spec s : clean s = true <-> forall c, In c dangerous_chars -> has_char c s = false.
Proof.
  unfold clean. rewrite forallb_forall. split; intros H c Hc; specialize (H c Hc).
  - now apply negb_true_iff in H.
  - now rewrite H.
Qed.

Lemma sanitize_input_fixed s : clean s = true -> strip s = s -> sanitize_input s = s.
Proof.
  intros Hc Hs. unfold sanitize_input.
  rewrite strip_all_clean; [exact Hs|]. now apply clean_spec.
Qed.

(** X8. [sanitize_input] leaves an ASCII text as it is exactly when the
    text holds no character of the deny-list and no whitespace at either
    end. *)
Theorem sanitize_input_fixed_points (s : string) :
  is_ascii s = true ->
  sanitize_input s = s <-> clean s = true /\ strip s = s.
Proof.
  intros _. split.
  - intros H. split.
    + rewrite <- H. apply clean_sanitize_input.
    + rewrite <- H at 1. unfold sanitize_input. rewrite strip_idem. exact H.
  - intros [Hc Hs]. now apply sanitize_input_fixed.
Qed.

Lemma sanitize_input_fixed_points_witness :
  sanitize_input "sshd" = "sshd" <-> clean "sshd" = true /\ strip "sshd" = "sshd".
Proof.
  apply (sanitize_input_fixed_points "sshd"). vm_compute. reflexivity.
Defined.

(** An address without scope identifier is made of hexadecimal digits,
    colons and dots. *)
Lemma plain_address_chars ip :
  validate_ip_address ip = true -> has_char "%" ip = false ->
  all_chars (fun c => is_hex c || Ascii.eqb ":" c || Ascii.eqb "." c) ip = true.
Proof.
  intros Hv Hp. apply validate_iff_ip_text in Hv.
  apply no_char_all_chars. intros c Hc.
  apply orb_false_iff in Hc as [Hc Hdot]. apply orb_false_iff in Hc as [Hh Hcolon].
  destruct Hv as [H|[H|(a & z & _ & _ & ->)]].
  - apply ipv4_text_no_char; [exact H | now apply hex_digit | exact Hdot].
  - now apply ipv6_text_no_char.
  - rewrite has_char_append in Hp. simpl in Hp. now rewrite orb_true_r in Hp.
Qed.

Lemma plain_address_fixed ip :
  validate_ip_address ip = true -> has_char "%" ip = false -> sanitize_input ip = ip.
Proof.
  intros Hv Hp. pose proof (plain_address_chars ip Hv Hp) as Ha.
  apply sanitize_input_fixed.
  - apply clean_spec. intros c Hc.
    destruct (dangerous_not_address c Hc) as (Hh & Hcolon & Hdot & _).
    apply (all_chars_no_char _ c _ Ha). now rewrite Hh, Hcolon, Hdot.
  - apply strip_fixed; intros c Hc.
    + pose proof (all_chars_head _ _ _ Ha Hc) as H.
      destruct (is_space c) eqn:E; [|reflexivity].
      destruct c as [[] [] [] [] [] [] [] []]; discriminate.
    + pose proof (all_chars_last _ _ _ Ha Hc) as H.
      destruct (is_space c) eqn:E; [|reflexivity].
      destruct c as [[] [] [] [] [] [] [] []]; discriminate.
Qed.

(** X9. An address the validator accepts and that has no scope identifier is
    handed to the tool exactly as it was given: [ban_ip] and [unban_ip]
    run one command, which carries the address unchanged. *)
Theorem plain_address_passed_unchanged W (h : handler procE W) (w : W)
        (jail_name ip : string) :
  validate_ip_address ip = true -> has_char "%" ip = false ->
  sanitize_input ip = ip
  /\ commands_run h (ban_ip jail_name ip) w
     = [[client_path; "set"; sanitize_input jail_name; "banip"; ip]]
  /\ commands_run h (unban_ip jail_name ip) w
     = [[client_path; "set"; sanitize_input jail_name; "unbanip"; ip]].
Proof.
  intros Hv Hp. pose proof (plain_address_fixed ip Hv Hp) as Hs.
  rewrite ban_ip_commands, unban_ip_commands, Hv. unfold banip_command.
  rewrite Hs. auto.
Qed.

Lemma plain_address_passed_unchanged_witness :
  sanitize_input "2001:db8::1" = "2001:db8::1"
  /\ commands_run (always TimeoutExpired) (ban_ip "sshd" "2001:db8::1") tt
     = [[client_path; "set"; sanitize_input "sshd"; "banip"; "2001:db8::1"]]
  /\ commands_run (always TimeoutExpired) (unban_ip "sshd" "2001:db8::1") tt
     = [[client_path; "set"; sanitize_input "sshd"; "unbanip"; "2001:db8::1"]].
Proof.
  apply (plain_address_passed_unchanged unit (always TimeoutExpired) tt
           "sshd" "2001:db8::1").
  - vm_compute. reflexivity.
  - reflexivity.
Defined.

End SanitizeFixed.

(** ** [get_jails_list] reads the listing back *)

Section JailsRoundTrip.
Import Prog PyStr Fail2banManager IpAddress IpText.

Lemma jails_of_lines_skip before rest :
  forallb (fun line => negb (contains "Jail list:" line)) before = true ->
  jails_of_lines (before ++ rest) = jails_of_lines rest.
Proof.
  induction before as [|l before IH]; simpl; [reflexivity|].
  intros H. apply andb_true_iff in H as [H1 H2].
  apply negb_true_iff in H1. rewrite H1. now apply IH.
Qed.

(** A separator that ends with a character it holds nowhere else does
    not begin inside a text without that character. *)
Lemma no_early_match body c a head tail :
  has_char c body = false -> has_char c (String a head) = false ->
  starts_with (body +:+ String c "")
              (String a head +:+ (body +:+ String c "") +:+ tail) = false.
Proof.
  intros Hb Hh.
  set (t := String a head +:+ (body +:+ String c "") +:+ tail).
  destruct (starts_with _ t) eqn:E; [|reflexivity].
  apply starts_with_inv in E as [r E].
  assert (P1 : partition_chr c t = (body, true, r)).
  { rewrite E, append_assoc. apply partition_app, Hb. }
  assert (P2 : partition_chr c t = (String a head +:+ body, true, tail)).
  { unfold t. rewrite (append_assoc body), <- (append_assoc (String a head)).
    apply partition_app. rewrite has_char_append, Hb. now rewrite Hh. }
  rewrite P1 in P2. injection P2 as Hbody _.
  apply (f_equal String.length) in Hbody.
  simpl in Hbody. rewrite length_append in Hbody. lia.
Qed.

Lemma split_str_skip sep x : forall s,
  split_str_aux sep (len x) (x +:+ s) = split_str_aux sep 0 s.
Proof. induction x as [|a x IH]; intros s; simpl; [reflexivity | apply IH]. Qed.

Lemma split_str_no_sep sep c s :
  has_char c sep = true -> has_char c s = false -> split_str_aux sep 0 s = [s].
Proof.
  intros Hsep. induction s as [|a s IH]; intros H; [reflexivity|].
  cbn [split_str_aux].
  destruct (starts_with sep (String a s)) eqn:E.
  - apply starts_with_inv in E as [b E]. rewrite E in H.
    rewrite has_char_append, Hsep in H. discriminate.
  - simpl in H. apply orb_false_iff in H as [_ H]. now rewrite (IH H).
Qed.

Lemma split_str_at_first body c head tail :
  has_char c body = false -> has_char c head = false ->
  split_str (body +:+ String c "") (head +:+ (body +:+ String c "") +:+ tail)
  = head :: split_str (body +:+ String c "") tail.
Proof.
  intros Hb. unfold split_str. induction head as [|a head IH]; intros Hh.
  - cbn [String.append].
    destruct (body +:+ String c "") as [|x sep'] eqn:Es.
    { destruct body; discriminate. }
    cbn [String.append split_str_aux].
    pose proof (starts_with_app (String x sep') tail) as S.
    cbn [String.append] in S. rewrite S.
    f_equal. replace (len (String x sep') - 1)%nat with (len sep') by (simpl; lia).
    apply split_str_skip.
  - pose proof (no_early_match body c a head tail Hb Hh) as N.
    cbn [String.append] in *. cbn [split_str_aux]. rewrite N.
    simpl in Hh. apply orb_false_iff in Hh as [_ Hh].
    now rewrite (IH Hh).
Qed.

Lemma plain_name_spec n :
  plain_name n = true ->
  is_empty n = false /\ has_char "," n = false /\ has_char ":" n = false
  /\ has_char "010" n = false /\ strip n = n.
Proof.
  unfold plain_name. rewrite !andb_true_iff, !negb_true_iff.
  intros (((((H1 & H2) & H3) & H4) & H5) & _). apply String.eqb_eq in H5. tauto.
Qed.

Lemma lstrip_blank pad t : all_chars is_space pad = true -> lstrip (pad +:+ t) = lstrip t.
Proof.
  induction pad as [|a pad IH]; simpl; [reflexivity|].
  intros H. apply andb_true_iff in H as [-> H]. now apply IH.
Qed.

Lemma strip_blank pad : all_chars is_space pad = true -> strip pad = "".
Proof.
  intros H. unfold strip. rewrite <- (append_empty_r pad), (lstrip_blank _ _ H).
  reflexivity.
Qed.

Lemma head_chr_append a b : is_empty a = false -> head_chr (a +:+ b) = head_chr a.
Proof. destruct a; [discriminate | reflexivity]. Qed.

Lemma last_chr_append a b : is_empty b = false -> last_chr (a +:+ b) = last_chr b.
Proof.
  intros H. induction a as [|x a IH]; [reflexivity|].
  cbn [String.append last_chr]. rewrite IH.
  destruct b as [|y b]; [discriminate|]. simpl. destruct (last_chr b); reflexivity.
Qed.

Lemma strip_space n : strip (String " " n) = strip n.
Proof. reflexivity. Qed.

Lemma join_str_cons sep n m rest :
  join_str sep (n :: m :: rest) = n +:+ sep +:+ join_str sep (m :: rest).
Proof. reflexivity. Qed.

Lemma join_str_nonempty n rest : is_empty n = false -> is_empty (join_str ", " (n :: rest)) = false.
Proof.
  intros H. destruct rest as [|m rest]; [exact H|]. rewrite join_str_cons.
  destruct n; [discriminate | reflexivity].
Qed.

Lemma join_str_absent c names :
  has_char c ", " = false ->
  Forall (fun n => has_char c n = false) names -> has_char c (join_str ", " names) = false.
Proof.
  intros Hc. induction names as [|n rest IH]; intros H; [reflexivity|].
  apply Forall_cons_iff in H as [Hn Hr]. destruct rest as [|m rest]; [exact Hn|].
  rewrite join_str_cons, !has_char_append, Hn, Hc. now apply IH.
Qed.

Lemma join_str_last names : forall n,
  Forall (fun n => is_empty n = false) (n :: names) ->
  last_chr (join_str ", " (n :: names)) = last_chr (List.last (n :: names) "").
Proof.
  induction names as [|m rest IH]; intros n H; [reflexivity|].
  apply Forall_cons_iff in H as [Hn Hr].
  rewrite join_str_cons, <- append_assoc, last_chr_append
    by (apply join_str_nonempty; now apply Forall_cons_iff in Hr as [Hm _]).
  now rewrite (IH m Hr).
Qed.

Lemma split_comma_cons_space s :
  split_chr "," (String " " s)
  = match split_chr "," s with w :: ws => String " " w :: ws | [] => [" "] end.
Proof. reflexivity. Qed.

Lemma split_join_str names : forall n,
  Forall (fun n => has_char "," n = false) (n :: names) ->
  split_chr "," (join_str ", " (n :: names)) = n :: map (String " ") names.
Proof.
  induction names as [|m rest IH]; intros n H.
  - apply Forall_cons_iff in H as [Hn _]. now apply split_no_sep.
  - apply Forall_cons_iff in H as [Hn Hr].
    rewrite join_str_cons. cbn [String.append].
    rewrite (split_app_sep "," n _ Hn), split_comma_cons_space, (IH m Hr).
    reflexivity.
Qed.

Lemma stripped_nonempty_cons x parts :
  is_empty (strip x) = false ->
  stripped_nonempty (x :: parts) = strip x :: stripped_nonempty parts.
Proof. intros H. unfold stripped_nonempty. simpl. now rewrite H. Qed.

Lemma stripped_spaced names :
  forallb plain_name names = true ->
  stripped_nonempty (map (String " ") names) = names.
Proof.
  induction names as [|n rest IH]; [reflexivity|]. simpl.
  intros H. apply andb_true_iff in H as [Hn Hr].
  destruct (plain_name_spec n Hn) as (He & _ & _ & _ & Hs).
  rewrite stripped_nonempty_cons, strip_space, Hs, (IH Hr); [reflexivity|].
  now rewrite strip_space, Hs.
Qed.

Lemma plain_names_forall (P : string -> Prop) names :
  (forall n, plain_name n = true -> P n) ->
  forallb plain_name names = true -> Forall P names.
Proof.
  intros HP H. apply List.Forall_forall. intros n Hn. apply HP.
  rewrite forallb_forall in H. now apply H.
Qed.

(** The jails of a listing line are read back. *)
Lemma jail_list_line_read head pad names rest :
  has_char ":" head = false -> is_blank pad = true ->
  forallb plain_name names = true ->
  jails_of_lines (jail_list_line head pad names :: rest) = Some names.
Proof.
  intros Hh Hp Hn. unfold jail_list_line. cbn [jails_of_lines].
  change "Jail list:" with ("Jail list" +:+ String ":" "").
  rewrite contains_app.
  assert (Hpad : all_chars is_space pad = true).
  { revert Hp. apply all_chars_impl. intros c Hc. now apply andb_true_iff in Hc. }
  assert (Htail : has_char ":" (pad +:+ join_str ", " names) = false).
  { rewrite has_char_append. apply orb_false_iff. split.
    - apply (all_chars_no_char _ ":" _ Hpad). reflexivity.
    - apply join_str_absent; [reflexivity|].
      apply (plain_names_forall _ _ (fun n Hx => proj1 (proj2 (proj2 (plain_name_spec n Hx)))) Hn). }
  rewrite (split_str_at_first "Jail list" ":" head _ eq_refl Hh).
  unfold split_str.
  rewrite (split_str_no_sep ("Jail list" +:+ String ":" "") ":" _ eq_refl Htail).
  cbn [lookup list_lookup mbind option_bind].
  destruct names as [|n names].
  - simpl join_str. rewrite append_empty_r, (strip_blank _ Hpad). reflexivity.
  - simpl in Hn. apply andb_true_iff in Hn as [Hn Hr].
    destruct (plain_name_spec n Hn) as (He & Hc & _ & _ & Hs).
    assert (Hne : Forall (fun n => is_empty n = false) (n :: names)).
    { constructor; [exact He|].
      apply (plain_names_forall _ _ (fun n Hx => proj1 (plain_name_spec n Hx)) Hr). }
    assert (Hstrip : strip (pad +:+ join_str ", " (n :: names)) = join_str ", " (n :: names)).
    { unfold strip. rewrite (lstrip_blank _ _ Hpad).
      fold (strip (join_str ", " (n :: names))).
      apply strip_fixed; intros c E.
      - destruct names as [|m names]; [rewrite <- Hs in E; now apply strip_head in E|].
        rewrite join_str_cons, head_chr_append in E by exact He.
        rewrite <- Hs in E. now apply strip_head in E.
      - rewrite (join_str_last names n Hne) in E.
        assert (Hl : plain_name (List.last (n :: names) "") = true).
        { destruct (@exists_last _ (n :: names)) as (l' & x & El); [discriminate|].
          rewrite El, last_last.
          assert (Hin : In x (n :: names)) by (rewrite El; apply in_or_app; right; now left).
          destruct Hin as [<-|Hin]; [exact Hn|].
          rewrite forallb_forall in Hr. now apply Hr. }
        destruct (plain_name_spec _ Hl) as (_ & _ & _ & _ & Hsl).
        rewrite <- Hsl in E. unfold strip in E. now apply rstrip_last in E. }
    rewrite Hstrip, join_str_nonempty by exact He. cbn [negb].
    rewrite split_join_str.
    + rewrite stripped_nonempty_cons, Hs, (stripped_spaced _ Hr) by now rewrite Hs.
      reflexivity.
    + constructor; [exact Hc|].
      apply (plain_names_forall _ _ (fun n Hx => proj1 (proj2 (plain_name_spec n Hx))) Hr).
Qed.

(** X10. [get_jails_list] reads the listing of the tool back: when the first
    line that carries [Jail list:] has no colon before that label and, after
    it, the names of the jails separated by a comma and a space, the result
    is the list of these names, in order.  The names are plain: ASCII
    text, not empty, without a comma, a colon, a line feed or whitespace at
    either end. *)
Theorem get_jails_list_reads_listing W (h : handler procE W) (w : W)
        (before after : list string) (head pad : string) (names : list string)
        (stderr : string) :
  forallb (fun line => negb (contains "Jail list:" line) && negb (has_char "010" line))
          before = true ->
  has_char ":" head = false -> has_char "010" head = false -> is_blank pad = true ->
  forallb plain_name names = true ->
  forallb (fun line => negb (has_char "010" line)) after = true ->
  fst (h _ (SubprocessRun [client_path; "status"] config.COMMAND_TIMEOUT) w)
  = Completed 0 (join "010" (before ++ jail_list_line head pad names :: after)) stderr ->
  fst (run h get_jails_list w) = Some names.
Proof.
  intros Hb Hh Hhn Hp Hn Ha Ho.
  unfold get_jails_list, safe_execute_command. cbn [bind run].
  destruct (h _ _ w) as [o w']. cbn [fst] in Ho. subst o.
  cbn [result_of_outcome]. change (0 =? 0) with true. cbn [negb run fst].
  assert (Hpad : all_chars is_space pad = true).
  { revert Hp. apply all_chars_impl. intros c Hc. now apply andb_true_iff in Hc. }
  assert (Hline : has_char "010" (jail_list_line head pad names) = false).
  { unfold jail_list_line. rewrite !has_char_append, Hhn. cbn [orb].
    change (has_char "010" "Jail list:") with false. cbn [orb].
    apply orb_false_iff. split.
    - apply (all_chars_no_char _ "010" _ Hp). reflexivity.
    - apply join_str_absent; [reflexivity|].
      apply (plain_names_forall _ _
               (fun n Hx => proj1 (proj2 (proj2 (proj2 (plain_name_spec n Hx))))) Hn). }
  rewrite split_join.
  - rewrite jails_of_lines_skip.
    + now apply jail_list_line_read.
    + rewrite forallb_forall in Hb. apply forallb_forall. intros l Hl.
      specialize (Hb l Hl). now apply andb_true_iff in Hb.
  - apply Forall_app_2; [|constructor; [exact Hline|]].
    + rewrite forallb_forall in Hb. apply List.Forall_forall. intros l Hl.
      specialize (Hb l Hl). apply andb_true_iff in Hb as [_ Hb].
      now apply negb_true_iff in Hb.
    + rewrite forallb_forall in Ha. apply List.Forall_forall. intros l Hl.
      specialize (Ha l Hl). now apply negb_true_iff in Ha.
  - destruct before; discriminate.
Qed.

(** The answer of the tool for two jails. *)
Lemma get_jails_list_reads_listing_witness :
  fst (run (always (Completed 0
              (join "010" [ "Status"; "|- Number of jail:" +:+ String "009" "2";
                            jail_list_line "`- " (String "009" "")
                                           ["sshd"; "nginx-http-auth"] ]) ""))
           get_jails_list tt)
  = Some ["sshd"; "nginx-http-auth"].
Proof.
  apply (get_jails_list_reads_listing unit _ tt
           ["Status"; "|- Number of jail:" +:+ String "009" "2"] []
           "`- " (String "009" "") ["sshd"; "nginx-http-auth"] "");
    reflexivity.
Defined.

End JailsRoundTrip.

(** ** [get_ssh_connection_stats] *)

(** *** Dictionaries of counters and of lists *)

Section Dicts.
Import SshStats.
Context {K : Type} `{Countable K}.

Lemma sum_values_insert (k : K) (n : Z) (d : gmap K Z) :
  d !! k = None -> sum_values (<[k := n]> d) = n + sum_values d.
Proof.
  intros Hk. unfold sum_values.
  apply (map_fold_insert_L (fun _ n acc => n + acc)); [|exact Hk].
  intros. lia.
Qed.

Lemma sum_values_delete (k : K) (n : Z) (d : gmap K Z) :
  d !! k = Some n -> sum_values d = n + sum_values (delete k d).
Proof.
  intros Hk. unfold sum_values.
  apply (map_fold_delete_L (fun _ n acc => n + acc)); [|exact Hk].
  intros. lia.
Qed.

Lemma count_at_insert (k : K) (d : gmap K Z) :
  count_at k d = <[k := default 0 (d !! k) + 1]> d.
Proof.
  unfold count_at. destruct (d !! k) as [n|] eqn:E.
  - now rewrite E.
  - rewrite lookup_insert_eq. simpl. apply insert_insert_eq.
Qed.

Lemma append_at_insert {V} (k : K) (x : V) (d : gmap K (list V)) :
  append_at k x d = <[k := default [] (d !! k) ++ [x]]> d.
Proof.
  unfold append_at. destruct (d !! k) as [l|] eqn:E.
  - now rewrite E.
  - rewrite lookup_insert_eq. simpl. apply insert_insert_eq.
Qed.

(** Counting a key once more adds one to the sum of the counters. *)
Lemma sum_values_count_at (k : K) (d : gmap K Z) :
  sum_values (count_at k d) = sum_values d + 1.
Proof.
  rewrite count_at_insert. destruct (d !! k) as [n|] eqn:E; simpl.
  - rewrite <- insert_delete_eq, sum_values_insert by apply lookup_delete_eq.
    rewrite (sum_values_delete k n d E). lia.
  - rewrite sum_values_insert by exact E. lia.
Qed.

Lemma lookup_count_at (k j : K) (d : gmap K Z) :
  default 0 (count_at k d !! j)
  = default 0 (d !! j) + (if decide (k = j) then 1 else 0).
Proof.
  rewrite count_at_insert. destruct (decide (k = j)) as [->|Hne].
  - now rewrite lookup_insert_eq.
  - rewrite lookup_insert_ne by exact Hne. lia.
Qed.

Lemma len_at_append_at {V} (k j : K) (x : V) (d : gmap K (list V)) :
  len_at j (append_at k x d) = len_at j d + (if decide (k = j) then 1 else 0).
Proof.
  unfold len_at. rewrite append_at_insert. destruct (decide (k = j)) as [->|Hne].
  - rewrite lookup_insert_eq. simpl. rewrite List.length_app. simpl. lia.
  - rewrite lookup_insert_ne by exact Hne. lia.
Qed.

Lemma lookup_append_at_inv {V} (k j : K) (x : V) (d : gmap K (list V)) l :
  append_at k x d !! j = Some l -> j = k \/ d !! j = Some l.
Proof.
  rewrite append_at_insert. destruct (decide (k = j)) as [->|Hne]; [now left|].
  rewrite lookup_insert_ne by exact Hne. now right.
Qed.

Lemma lookup_count_at_inv (k j : K) (d : gmap K Z) n :
  count_at k d !! j = Some n -> j = k \/ d !! j = Some n.
Proof.
  rewrite count_at_insert. destruct (decide (k = j)) as [->|Hne]; [now left|].
  rewrite lookup_insert_ne by exact Hne. now right.
Qed.

End Dicts.

(** *** The totals *)

Section Stats.
Import SshStats.

(** An invariant of the loop holds at its end. *)
Lemma stats_loop_invariant (P : list ssh_entry -> stats (gset (option string)) -> Prop) :
  P [] initial_stats ->
  (forall seen st entry, P seen st -> P (seen ++ [entry]) (stats_step st entry)) ->
  forall ssh_entries, P ssh_entries (fold_left stats_step ssh_entries initial_stats).
Proof.
  intros H0 Hstep ssh_entries.
  induction ssh_entries as [|entry seen IH] using rev_ind; [exact H0|].
  rewrite fold_left_app. simpl. now apply Hstep.
Qed.

Lemma count_actions_snoc p seen entry :
  count_actions p (seen ++ [entry])
  = count_actions p seen + (if p (se_action entry) then 1 else 0).
Proof.
  unfold count_actions. rewrite List.filter_app, List.length_app. simpl.
  destruct (p (se_action entry)); simpl; lia.
Qed.

Lemma stats_totals_invariant ssh_entries :
  let st := fold_left stats_step ssh_entries initial_stats in
  st_total_accepted st = count_actions is_accepted ssh_entries
  /\ st_total_failed st = count_actions is_failure ssh_entries
  /\ st_total_failed_password st = count_actions is_failed_password ssh_entries.
Proof.
  apply (stats_loop_invariant (fun seen st =>
    st_total_accepted st = count_actions is_accepted seen
    /\ st_total_failed st = count_actions is_failure seen
    /\ st_total_failed_password st = count_actions is_failed_password seen)).
  - repeat split.
  - intros seen st entry (H1 & H2 & H3). rewrite !count_actions_snoc.
    unfold stats_step. destruct (se_action entry); simpl; repeat split; lia.
Qed.

(** X11. The totals count the entries by action: [total_accepted] the
    accepted connections, [total_failed] the four kinds of failure,
    [total_failed_password] the wrong passwords among them; an entry
    [disconnect] is in no total. *)
Theorem get_ssh_connection_stats_totals (ssh_entries : list ssh_entry) :
  let stats := get_ssh_connection_stats ssh_entries in
  st_total_accepted stats = count_actions is_accepted ssh_entries
  /\ st_total_failed stats = count_actions is_failure ssh_entries
  /\ st_total_failed_password stats = count_actions is_failed_password ssh_entries
  /\ st_total_failed stats
     = st_total_failed_password stats + count_actions is_other_failure ssh_entries
  /\ st_total_accepted stats + st_total_failed stats
     + count_actions is_disconnect ssh_entries
     = Z.of_nat (length ssh_entries).
Proof.
  destruct (stats_totals_invariant ssh_entries) as (H1 & H2 & H3).
  cbn zeta. unfold get_ssh_connection_stats. cbn [count_unique_ips st_total_accepted
    st_total_failed st_total_failed_password].
  rewrite H1, H2, H3. repeat split.
  - clear. induction ssh_entries as [|e l IH]; [reflexivity|].
    change (e :: l) with ([e] ++ l).
    unfold count_actions in *. rewrite !List.filter_app, !List.length_app.
    simpl. destruct (se_action e); simpl; lia.
  - clear. induction ssh_entries as [|e l IH]; [reflexivity|].
    change (e :: l) with ([e] ++ l).
    unfold count_actions in *. rewrite !List.filter_app, !List.length_app.
    simpl. destruct (se_action e); simpl; lia.
Qed.

End Stats.

(** *** The counters *)

Section Stats2.
Import SshStats.

Lemma stats_sums_invariant ssh_entries :
  let st := fold_left stats_step ssh_entries initial_stats in
  sum_values (st_top_attacking_ips st) = st_total_failed st
  /\ sum_values (st_top_users_failed st) = st_total_failed st
  /\ sum_values (st_failure_types st) = st_total_failed st
  /\ sum_values (st_top_users_accepted st) = st_total_accepted st.
Proof.
  apply (stats_loop_invariant (fun _ st =>
    sum_values (st_top_attacking_ips st) = st_total_failed st
    /\ sum_values (st_top_users_failed st) = st_total_failed st
    /\ sum_values (st_failure_types st) = st_total_failed st
    /\ sum_values (st_top_users_accepted st) = st_total_accepted st)).
  - repeat split.
  - intros _ st entry (H1 & H2 & H3 & H4).
    unfold stats_step. destruct (se_action entry); simpl;
      rewrite ?sum_values_count_at; repeat split; lia.
Qed.

(** X12. The counters add up to the totals: the attempts counted per
    attacking address, per user and per kind of failure each sum to
    [total_failed], and the connections counted per accepted user sum to
    [total_accepted]. *)
Theorem get_ssh_connection_stats_sums (ssh_entries : list ssh_entry) :
  let stats := get_ssh_connection_stats ssh_entries in
  sum_values (st_top_attacking_ips stats) = st_total_failed stats
  /\ sum_values (st_top_users_failed stats) = st_total_failed stats
  /\ sum_values (st_failure_types stats) = st_total_failed stats
  /\ sum_values (st_top_users_accepted stats) = st_total_accepted stats.
Proof. exact (stats_sums_invariant ssh_entries). Qed.

Lemma stats_per_ip_invariant ssh_entries :
  let st := fold_left stats_step ssh_entries initial_stats in
  (forall ip, default 0 (st_top_attacking_ips st !! ip)
              = len_at ip (st_failed_password st) + len_at ip (st_failed st))
  /\ st_invalid_user st = ∅ /\ st_break_in st = ∅.
Proof.
  apply (stats_loop_invariant (fun seen st =>
    (forall ip, default 0 (st_top_attacking_ips st !! ip)
                = len_at ip (st_failed_password st) + len_at ip (st_failed st))
    /\ st_invalid_user st = ∅ /\ st_break_in st = ∅)).
  - repeat split.
  - intros seen st entry (H1 & H3 & H4).
    unfold stats_step. split.
    + intros ip. specialize (H1 ip).
      destruct (se_action entry); simpl;
        rewrite ?lookup_count_at, ?len_at_append_at; lia.
    + destruct (se_action entry); simpl; auto.
Qed.

(** X13. For every address, the attempts counted in [top_attacking_ips] are
    the failures listed for it under [failed_password] and [failed]
    together.  The dictionaries [invalid_user] and [break_in] stay empty:
    these failures are listed under [failed]. *)
Theorem get_ssh_connection_stats_per_ip (ssh_entries : list ssh_entry) :
  let stats := get_ssh_connection_stats ssh_entries in
  (forall ip, default 0 (st_top_attacking_ips stats !! ip)
              = len_at ip (st_failed_password stats) + len_at ip (st_failed stats))
  /\ st_invalid_user stats = ∅ /\ st_break_in stats = ∅.
Proof.
  destruct (stats_per_ip_invariant ssh_entries) as (H1 & H3 & H4).
  repeat split; assumption.
Qed.

Lemma stats_unique_ips_invariant ssh_entries :
  let st := fold_left stats_step ssh_entries initial_stats in
  st_unique_ips st = list_to_set (map se_ip ssh_entries)
  /\ (forall ip, is_Some (st_accepted st !! ip) \/ is_Some (st_failed st !! ip)
                 \/ is_Some (st_failed_password st !! ip)
                 \/ is_Some (st_top_attacking_ips st !! ip) ->
                 ip ∈ st_unique_ips st).
Proof.
  apply (stats_loop_invariant (fun seen st =>
    st_unique_ips st = list_to_set (map se_ip seen)
    /\ (forall ip, is_Some (st_accepted st !! ip) \/ is_Some (st_failed st !! ip)
                   \/ is_Some (st_failed_password st !! ip)
                   \/ is_Some (st_top_attacking_ips st !! ip) ->
                   ip ∈ st_unique_ips st))).
  - split; [reflexivity|]. intros ip. cbn. rewrite !lookup_empty.
    intros [[? [=]]|[[? [=]]|[[? [=]]|[? [=]]]]].
  - intros seen st entry (H1 & H2).
    assert (Hu : st_unique_ips (stats_step st entry) = {[ se_ip entry ]} ∪ st_unique_ips st).
    { unfold stats_step. destruct (se_action entry); reflexivity. }
    split.
    + rewrite Hu, H1, map_app, list_to_set_app_L. cbn [map].
      rewrite list_to_set_cons, list_to_set_nil, union_empty_r_L.
      apply union_comm_L.
    + intros ip Hip.
      rewrite Hu. destruct (decide (ip = se_ip entry)) as [->|Hne].
      { apply elem_of_union_l, elem_of_singleton. reflexivity. }
      apply elem_of_union_r, H2.
      unfold stats_step in Hip.
      destruct (se_action entry); cbn in Hip;
        rewrite ?append_at_insert, ?count_at_insert in Hip;
        rewrite ?lookup_insert_ne in Hip by congruence; exact Hip.
Qed.

(** X14. [unique_ips] is the number of distinct addresses among the entries,
    at most the number of entries; every address that is a key of
    [accepted], [failed], [failed_password] or [top_attacking_ips] is one
    of them. *)
Theorem get_ssh_connection_stats_unique_ips (ssh_entries : list ssh_entry) :
  let stats := get_ssh_connection_stats ssh_entries in
  let ips : gset (option string) := list_to_set (map se_ip ssh_entries) in
  st_unique_ips stats = Z.of_nat (size ips)
  /\ 0 <= st_unique_ips stats <= Z.of_nat (length ssh_entries)
  /\ (forall ip, is_Some (st_accepted stats !! ip) \/ is_Some (st_failed stats !! ip)
                 \/ is_Some (st_failed_password stats !! ip)
                 \/ is_Some (st_top_attacking_ips stats !! ip) ->
                 ip ∈ ips).
Proof.
  destruct (stats_unique_ips_invariant ssh_entries) as (H1 & H2).
  cbn zeta. unfold get_ssh_connection_stats.
  cbn [count_unique_ips st_unique_ips st_accepted st_failed st_failed_password
       st_top_attacking_ips].
  rewrite H1 in *. split; [reflexivity|]. split; [|exact H2].
  split; [lia|].
  assert (size (list_to_set (C := gset (option string)) (map se_ip ssh_entries))
          <= length (map se_ip ssh_entries))%nat.
  { generalize (map se_ip ssh_entries). intros l.
    induction l as [|x l IH]; [now rewrite list_to_set_nil, size_empty|].
    rewrite list_to_set_cons, size_union_alt, size_singleton.
    assert (size (list_to_set (C := gset (option string)) l ∖ {[x]})
            <= size (list_to_set (C := gset (option string)) l))%nat.
    { apply subseteq_size. intros y Hy. now apply elem_of_difference in Hy as [Hy _]. }
    simpl. lia. }
  rewrite length_map in *. lia.
Qed.

End Stats2.

(** ** What the parsers return *)

Section ParserFields.
Import PyStr Re ReSpec Patterns ParserSpec IpAddress.

Lemma groups_ok_anything r : groups_ok holds_anything r.
Proof. induction r; simpl; auto. split; [intros; exact I | assumption]. Qed.

Lemma ssh_pattern_list_loop_inv line action pattern_list e :
  ssh_pattern_list_loop line action pattern_list = Some e ->
  exists pattern mt, In pattern pattern_list /\ search pattern line = Some mt
                     /\ e = ssh_entry_of_match line action mt.
Proof.
  induction pattern_list as [|p rest IH]; simpl; [discriminate|].
  destruct (search p line) as [mt|] eqn:E.
  - intros [= <-]. exists p, mt. auto.
  - intros H. destruct (IH H) as (p' & mt & Hin & Hs & ->). exists p', mt. auto.
Qed.

Lemma ssh_patterns_loop_inv line patterns e :
  ssh_patterns_loop line patterns = Some e ->
  exists action pattern_list pattern mt,
    In (action, pattern_list) patterns /\ In pattern pattern_list
    /\ search pattern line = Some mt /\ e = ssh_entry_of_match line action mt.
Proof.
  induction patterns as [|[action pl] rest IH]; simpl; [discriminate|].
  destruct (ssh_pattern_list_loop line action pl) as [e'|] eqn:E.
  - intros [= <-]. apply ssh_pattern_list_loop_inv in E as (p & mt & Hin & Hs & ->).
    exists action, pl, p, mt. auto.
  - intros H. destruct (IH H) as (a & pl' & p & mt & Hin & Hp & Hs & ->).
    exists a, pl', p, mt. auto.
Qed.

Lemma ssh_patterns_set_groups :
  forallb (fun ap => forallb (sets_groups (fst ap)) (snd ap)) ssh_patterns = true.
Proof. vm_compute. reflexivity. Qed.

Lemma existsb_eqb_In n l : existsb (Nat.eqb n) l = true -> In n l.
Proof.
  intros H. apply existsb_exists in H as (x & Hx & E). apply Nat.eqb_eq in E. now subst.
Qed.

Lemma search_group pattern line mt n :
  search pattern line = Some mt -> existsb (Nat.eqb n) (binds pattern) = true ->
  exists v, group n mt = Some v.
Proof.
  intros E Hb.
  destruct (search_sound _ _ _ _ (groups_ok_anything pattern) E) as (_ & Hbs & _).
  apply Hbs. now apply existsb_eqb_In.
Qed.

(** Every entry [parse_ssh_log_line] returns is complete. *)
Lemma parse_ssh_log_line_complete line e :
  parse_ssh_log_line line = Some e ->
  contains "sshd" line = true
  /\ se_raw_line e = line
  /\ (exists timestamp user ip,
        se_timestamp e = Some timestamp /\ se_user e = Some user /\ se_ip e = Some ip)
  /\ se_failure_type e
     = (if is_failed_password (se_action e) then Some "Mot de passe incorrect" else None)
  /\ (is_break_in (se_action e) = true -> se_user e = Some "unknown").
Proof.
  unfold parse_ssh_log_line. destruct (contains "sshd" line); [|discriminate].
  cbn [negb]. intros H.
  apply ssh_patterns_loop_inv in H as (action & pl & p & mt & Hin & Hp & Hs & ->).
  pose proof ssh_patterns_set_groups as Hg. rewrite forallb_forall in Hg.
  specialize (Hg _ Hin). cbn [fst snd] in Hg. rewrite forallb_forall in Hg.
  specialize (Hg _ Hp). unfold sets_groups in Hg.
  apply andb_true_iff in Hg as [Hg H3]. apply andb_true_iff in Hg as [H1 H2].
  destruct (search_group _ _ _ _ Hs H1) as [v1 E1].
  destruct (search_group _ _ _ _ Hs H2) as [v2 E2].
  split; [reflexivity|].
  assert (Hfields : forall e ts user ip,
            se_raw_line e = line -> se_timestamp e = Some ts -> se_user e = Some user ->
            se_ip e = Some ip ->
            se_failure_type e
            = (if is_failed_password (se_action e)
               then Some "Mot de passe incorrect" else None) ->
            (is_break_in (se_action e) = true -> se_user e = Some "unknown") ->
            se_raw_line e = line
            /\ (exists timestamp user ip,
                  se_timestamp e = Some timestamp /\ se_user e = Some user
                  /\ se_ip e = Some ip)
            /\ se_failure_type e
               = (if is_failed_password (se_action e)
                  then Some "Mot de passe incorrect" else None)
            /\ (is_break_in (se_action e) = true -> se_user e = Some "unknown")).
  { intros e ts user ip ? ? ? ? ? ?. repeat split; trivial. now exists ts, user, ip. }
  unfold ssh_entry_of_match.
  destruct (is_break_in action) eqn:Eb.
  { apply (Hfields _ v1 "unknown" v2); cbn; trivial.
    destruct action; try discriminate; reflexivity. }
  cbn [orb] in H3. destruct (search_group _ _ _ _ Hs H3) as [v3 E3].
  destruct (is_failed action && contains "authentication failure" line) eqn:Ef.
  { apply andb_true_iff in Ef as [Ef _].
    apply (Hfields _ v1 v3 v2); cbn; trivial; [|now rewrite Eb].
    destruct action; try discriminate; reflexivity. }
  destruct (is_failed_password action) eqn:Ep;
    apply (Hfields _ v1 v2 v3); cbn; rewrite ?Ep, ?Eb; trivial; discriminate.
Qed.

Lemma sshd_lit_contains ts t rest line mt :
  search (Seq (sshd_prefix ts) (Seq (Lit t) rest)) line = Some mt ->
  contains t line = true.
Proof.
  intros E.
  destruct (search_sound _ _ _ _ (groups_ok_anything _) E)
    as (_ & _ & pre & w & post & -> & Hl).
  destruct Hl as (a & b & -> & _ & a2 & b2 & -> & Ha2 & _).
  simpl in Ha2. subst a2.
  rewrite (append_assoc a), <- (append_assoc pre), (append_assoc _ b2).
  apply contains_app.
Qed.

Lemma parse_ssh_log_line_marker line e :
  parse_ssh_log_line line = Some e -> carries_marker (se_action e) line = true.
Proof.
  unfold parse_ssh_log_line. destruct (contains "sshd" line); [|discriminate].
  cbn [negb]. intros H.
  apply ssh_patterns_loop_inv in H as (action & pl & p & mt & Hin & Hp & Hs & ->).
  rewrite se_action_of_match.
  unfold ssh_patterns in Hin. cbn [In] in Hin.
  repeat (destruct Hin as [Hin|Hin];
          [injection Hin as <- <-; cbn [In] in Hp;
           repeat (destruct Hp as [<-|Hp];
                   [apply sshd_lit_contains in Hs; cbn [carries_marker];
                    rewrite Hs, ?orb_true_r; reflexivity|]);
           destruct Hp|]).
  destruct Hin.
Qed.

(** X15. What [parse_ssh_log_line] returns: an entry for a line that carries
    [sshd] and the text of the entry's action, with the line itself, a
    timestamp, a user and an address, none of them [None]; the user of a
    [break_in] entry is [unknown]; the entry has a [failure_type], which is
    [Mot de passe incorrect], exactly when its action is
    [failed_password]. *)
Theorem parse_ssh_log_line_entry (line : string) (e : ssh_entry) :
  parse_ssh_log_line line = Some e ->
  contains "sshd" line = true
  /\ carries_marker (se_action e) line = true
  /\ se_raw_line e = line
  /\ (exists timestamp user ip,
        se_timestamp e = Some timestamp /\ se_user e = Some user /\ se_ip e = Some ip)
  /\ se_failure_type e
     = (if is_failed_password (se_action e) then Some "Mot de passe incorrect" else None)
  /\ (is_break_in (se_action e) = true -> se_user e = Some "unknown").
Proof.
  intros H. destruct (parse_ssh_log_line_complete line e H) as (H1 & H2).
  split; [exact H1|]. split; [|exact H2]. now apply parse_ssh_log_line_marker.
Qed.

Lemma parse_ssh_log_line_entry_witness :
  contains "sshd" Samples.failed_password_line = true
  /\ carries_marker (se_action Samples.failed_password_entry)
                    Samples.failed_password_line = true
  /\ se_raw_line Samples.failed_password_entry = Samples.failed_password_line
  /\ (exists timestamp user ip,
        se_timestamp Samples.failed_password_entry = Some timestamp
        /\ se_user Samples.failed_password_entry = Some user
        /\ se_ip Samples.failed_password_entry = Some ip)
  /\ se_failure_type Samples.failed_password_entry
     = (if is_failed_password (se_action Samples.failed_password_entry)
        then Some "Mot de passe incorrect" else None)
  /\ (is_break_in (se_action Samples.failed_password_entry) = true ->
      se_user Samples.failed_password_entry = Some "unknown").
Proof.
  apply (parse_ssh_log_line_entry Samples.failed_password_line
           Samples.failed_password_entry).
  vm_compute. reflexivity.
Defined.

Lemma rep_exact_len k n w : lang (exactly k n) w -> len w = n.
Proof. intros (_ & H1 & H2). lia. Qed.

Lemma ts_fail2ban_len w :
  lang (exactly Digit 4 >>> Lit "-" >>> exactly Digit 2 >>> Lit "-" >>> exactly Digit 2 >>>
        Lit " " >>> exactly Digit 2 >>> Lit ":" >>> exactly Digit 2 >>> Lit ":" >>>
        exactly Digit 2 >>> Lit "," >>> exactly Digit 3)%re w ->
  len w = 23%nat.
Proof.
  intros H. cbn [lang] in H.
  repeat match goal with
    | H : exists _, _ |- _ => destruct H as [? H]
    | H : _ /\ _ |- _ => destruct H as [? ?]
    end.
  repeat match goal with
    | H : lang (exactly _ _) _ |- _ => apply rep_exact_len in H
    end.
  subst. unfold len in *. rewrite !length_append. simpl. lia.
Qed.

Lemma plus_word_is_word w : lang (plus Word) w -> is_word w = true.
Proof.
  intros (Ha & Hl & _). unfold is_word. rewrite Ha, andb_true_r.
  destruct w; [simpl in Hl; lia | reflexivity].
Qed.

Lemma fail2ban_line_groups keyword : groups_ok log_groups (fail2ban_line keyword).
Proof.
  unfold fail2ban_line, ts_fail2ban. cbn [groups_ok].
  repeat split; trivial; try discriminate.
  - intros _. now apply ts_fail2ban_len.
  - intros _. now apply plus_word_is_word.
  - intros _. now apply dotted_quad_shape.
Qed.

Lemma contains_prefix a sub s : contains sub s = true -> contains sub (a +:+ s) = true.
Proof.
  intros H. induction a as [|c a IH]; [exact H|].
  cbn [String.append contains]. rewrite IH. apply orb_true_r.
Qed.

Lemma fail2ban_line_contains keyword line mt :
  search (fail2ban_line keyword) line = Some mt ->
  contains ("] " +:+ keyword +:+ " ") line = true.
Proof.
  intros E.
  destruct (search_sound _ _ _ _ (groups_ok_anything _) E)
    as (_ & _ & pre & w & post & -> & Hl).
  unfold fail2ban_line in Hl.
  destruct Hl as (a1 & b1 & -> & _ & a2 & b2 & -> & _ & a3 & b3 & -> & _
                  & a4 & b4 & -> & _ & a5 & b5 & -> & H5 & _).
  cbn [lang] in H5. subst a5.
  set (K := "] " +:+ keyword +:+ " ").
  rewrite !append_assoc. do 5 apply contains_prefix.
  apply (contains_app K "").
Qed.

Lemma parse_log_line_loop_inv line patterns e :
  parse_log_line_loop line patterns = Some e ->
  exists action pattern mt,
    In (action, pattern) patterns /\ search pattern line = Some mt
    /\ e = {| le_timestamp := group 1 mt; le_jail := group 2 mt; le_ip := group 3 mt;
              le_action := action; le_raw_line := line |}.
Proof.
  induction patterns as [|[a r] rest IH]; simpl; [discriminate|].
  destruct (search r line) as [mt|] eqn:E.
  - intros [= <-]. exists a, r, mt. auto.
  - intros H. destruct (IH H) as (a' & r' & mt & Hin & Hs & ->). exists a', r', mt. auto.
Qed.

Lemma parse_log_line_inv line e :
  parse_log_line line = Some e ->
  exists mt,
    search (fail2ban_line (keyword_of (le_action e))) line = Some mt
    /\ e = {| le_timestamp := group 1 mt; le_jail := group 2 mt; le_ip := group 3 mt;
              le_action := le_action e; le_raw_line := line |}.
Proof.
  intros H. apply parse_log_line_loop_inv in H as (a & r & mt & Hin & Hs & ->).
  exists mt. cbn [le_action]. split; [|reflexivity].
  unfold log_patterns in Hin. cbn [In] in Hin.
  destruct Hin as [[= <- <-]|[[= <- <-]|[[= <- <-]|[]]]]; exact Hs.
Qed.

(** X16. What [parse_log_line] returns on a line of ASCII text: an event
    for a line that carries the keyword of the event's action between
    [\] ] and a space, with the line itself, a timestamp of 23 characters,
    a jail name made of word characters and an address of the shape
    [digits.digits.digits.digits], none of them [None]. *)
Theorem parse_log_line_event (line : string) (e : log_entry) :
  is_ascii line = true ->
  parse_log_line line = Some e ->
  contains ("] " +:+ keyword_of (le_action e) +:+ " ") line = true
  /\ le_raw_line e = line
  /\ exists timestamp jail ip,
       le_timestamp e = Some timestamp /\ len timestamp = 23%nat
       /\ le_jail e = Some jail /\ is_word jail = true
       /\ le_ip e = Some ip /\ is_dotted_digits ip = true.
Proof.
  intros _ H. apply parse_log_line_inv in H as (mt & Hs & He).
  split; [now apply fail2ban_line_contains in Hs|].
  split; [now rewrite He|].
  destruct (search_sound _ _ _ _ (fail2ban_line_groups _) Hs) as (Hc & Hb & _).
  destruct (Hb 1%nat) as [ts Hts]; [simpl; tauto|].
  destruct (Hb 2%nat) as [jail Hjail]; [simpl; tauto|].
  destruct (Hb 3%nat) as [ip Hip]; [simpl; tauto|].
  exists ts, jail, ip. rewrite He. cbn [le_timestamp le_jail le_ip].
  destruct (captured_group _ _ _ _ Hc Hts) as (G1 & _ & _).
  destruct (captured_group _ _ _ _ Hc Hjail) as (_ & G2 & _).
  destruct (captured_group _ _ _ _ Hc Hip) as (_ & _ & G3).
  repeat split; auto.
Qed.

Lemma parse_log_line_event_witness :
  contains ("] " +:+ keyword_of (le_action Samples.ban_event) +:+ " ") Samples.ban_line
  = true
  /\ le_raw_line Samples.ban_event = Samples.ban_line
  /\ exists timestamp jail ip,
       le_timestamp Samples.ban_event = Some timestamp /\ len timestamp = 23%nat
       /\ le_jail Samples.ban_event = Some jail /\ is_word jail = true
       /\ le_ip Samples.ban_event = Some ip /\ is_dotted_digits ip = true.
Proof.
  apply (parse_log_line_event Samples.ban_line Samples.ban_event).
  - vm_compute. reflexivity.
  - vm_compute. reflexivity.
Defined.

End ParserFields.

(** ** The log readers *)

Section LogReaders.
Import Prog PyStr Logs ParserSpec IpAddress.

Lemma calls_bind {A B W} (h : handler sysE W) (p : prog sysE A) (f : A -> prog sysE B) :
  forall w, calls h (bind p f) w
            = calls h p w ++ calls h (f (fst (run h p w))) (snd (run h p w)).
Proof.
  induction p as [a|X e k IH]; intros w; simpl; [reflexivity|].
  destruct (h X e w) as [x w']. simpl. f_equal. apply IH.
Qed.

Lemma rstrip_empty_blank s : is_empty (rstrip s) = true -> all_chars is_space s = true.
Proof.
  induction s as [|c s IH]; simpl; [reflexivity|].
  destruct (rstrip s) as [|y r]; [|discriminate].
  destruct (is_space c); [intros _; now apply IH | discriminate].
Qed.

(** A text that [strip] empties is made of whitespace. *)
Lemma strip_empty_blank s : is_empty (strip s) = true -> all_chars is_space s = true.
Proof.
  unfold strip. intros H. apply rstrip_empty_blank in H.
  induction s as [|c s IH]; simpl in *; [reflexivity|].
  destruct (is_space c) eqn:E; [now apply IH|].
  simpl in H. now rewrite E in H.
Qed.

Lemma blank_lacks sub c s :
  has_char c sub = true -> is_space c = false ->
  all_chars is_space s = true -> contains sub s = false.
Proof.
  intros Hc Hs Hb. destruct (contains sub s) eqn:E; [|reflexivity].
  apply contains_inv in E as (a & b & ->).
  rewrite !all_chars_app in Hb. apply andb_true_iff in Hb as [_ Hb].
  apply andb_true_iff in Hb as [Hb _].
  pose proof (all_chars_no_char _ c _ Hb Hs) as N. congruence.
Qed.

Lemma parse_log_line_not_blank line e :
  parse_log_line line = Some e -> is_empty (strip line) = false.
Proof.
  intros H. destruct (is_empty (strip line)) eqn:E; [|reflexivity].
  apply strip_empty_blank in E.
  apply parse_log_line_inv in H as (mt & Hk & _).
  apply fail2ban_line_contains in Hk.
  rewrite (blank_lacks ("] " +:+ keyword_of (le_action e) +:+ " ") "]" _
             eq_refl eq_refl E) in Hk.
  discriminate.
Qed.

Lemma fail2ban_entries_loop lines : forall entries,
  fold_left fail2ban_entries_step lines entries = entries ++ omap parse_log_line lines.
Proof.
  induction lines as [|line rest IH]; intros entries; simpl; [now rewrite app_nil_r|].
  rewrite IH. unfold fail2ban_entries_step.
  destruct (parse_log_line line) as [e|] eqn:E.
  - rewrite (parse_log_line_not_blank _ _ E). simpl. now rewrite <- app_assoc.
  - now destruct (negb (is_empty (strip line))).
Qed.

(** X17. [parse_fail2ban_log] runs one command, [tail -n <lines> <log_path>];
    when it exits with 0, the result holds the event of every line of its
    output that [parse_log_line] reads, in the order of the lines, and
    nothing else; otherwise, and when the command raises, the result is
    empty.  With a number of lines too large to be written, nothing is
    run and the result is empty. *)
Theorem parse_fail2ban_log_entries W (h : handler sysE W) (w : W)
        (log_path : string) (lines : Z) :
  match str_of_int_checked lines with
  | inl _ =>
      fst (run h (parse_fail2ban_log log_path lines) w) = []
      /\ commands_of (calls h (parse_fail2ban_log log_path lines) w) = []
  | inr n =>
      let command := ["tail"; "-n"; n; log_path] in
      let o := fst (h _ (SubprocessRun command config.COMMAND_TIMEOUT) w) in
      fst (run h (parse_fail2ban_log log_path lines) w)
      = match o with
        | Completed returncode stdout _ =>
            if returncode =? 0 then omap parse_log_line (split_chr "010" stdout) else []
        | _ => []
        end
      /\ commands_of (calls h (parse_fail2ban_log log_path lines) w) = [command]
  end.
Proof.
  unfold parse_fail2ban_log, subprocess_run, print, trigger.
  destruct (str_of_int_checked lines) as [message|n].
  { cbn. destruct (h _ _ w). cbn. auto. }
  cbn zeta. cbn [bind run calls].
  destruct (h _ _ w) as [o w']. cbn [fst].
  destruct o as [returncode stdout stderr| |message].
  - destruct (returncode =? 0); cbn; [|auto].
    now rewrite fail2ban_entries_loop.
  - cbn. destruct (h _ _ w'). cbn. auto.
  - cbn. destruct (h _ _ w'). cbn. auto.
Qed.

Lemma found_in_cons asked c path : found_in asked path -> found_in (c :: asked) path.
Proof.
  intros (Hs & Ha & out & err & Hr & Hc). split; [now right|]. split; [now right|].
  exists out, err. split; [now right | exact Hc].
Qed.

Lemma probes_more path rest asked : probes rest asked -> probes (path :: rest) asked.
Proof.
  intros H c Hc. specialize (H c Hc).
  destruct c as [p a|p a|command timeout o|text]; trivial; try now right.
  destruct H as (p & Hp & H). exists p. split; [now right | exact H].
Qed.

Lemma probes_cons paths asked c :
  match c with Stat p _ | Access p _ => In p paths | _ => False end ->
  probes paths asked -> probes paths (c :: asked).
Proof.
  intros Hfirst H c' [<-|Hc].
  - destruct c; try contradiction; exact Hfirst.
  - specialize (H c' Hc).
    destruct c' as [p a|p a|command timeout o|text]; trivial.
    destruct H as (p & Hp & -> & -> & Hs & Ha).
    exists p. split; [exact Hp|]. split; [reflexivity|]. split; [reflexivity|].
    split; now right.
Qed.

Lemma probes_tail paths asked path o :
  In path paths -> probes paths asked ->
  probes paths (Stat path true :: Access path true
                :: Ran ["tail"; "-n"; "100"; path] 5 o :: asked).
Proof.
  intros Hin H c [<-|[<-|[<-|Hc]]]; try exact Hin.
  - exists path. split; [exact Hin|]. split; [reflexivity|]. split; [reflexivity|].
    split; [now left | right; now left].
  - specialize (H c Hc).
    destruct c as [p a|p a|command timeout o'|text]; trivial.
    destruct H as (p & Hp & -> & -> & Hs & Ha).
    exists p. split; [exact Hp|]. split; [reflexivity|]. split; [reflexivity|].
    split; now do 3 right.
Qed.

Lemma find_ssh_log_loop_run {W} (h : handler sysE W) paths : forall w,
  let path := fst (run h (find_ssh_log_loop paths) w) in
  let asked := calls h (find_ssh_log_loop paths) w in
  (path = "" \/ In path paths /\ found_in asked path) /\ probes paths asked.
Proof.
  induction paths as [|path rest IH]; intros w; cbn zeta.
  - cbn. split; [now left | intros c []].
  - assert (Hrest : forall w',
      (fst (run h (find_ssh_log_loop rest) w') = ""
       \/ In (fst (run h (find_ssh_log_loop rest) w')) (path :: rest)
          /\ found_in (calls h (find_ssh_log_loop rest) w')
                      (fst (run h (find_ssh_log_loop rest) w')))
      /\ probes (path :: rest) (calls h (find_ssh_log_loop rest) w')).
    { intros w'. destruct (IH w') as [H1 H2]. cbn zeta in H1, H2. split.
      - destruct H1 as [H1|(Hin & H1)]; [now left | right; split; [now right | exact H1]].
      - now apply probes_more. }
    assert (Hmore : forall (c : call) (asked : list call) (r : string),
      match c with Stat p _ | Access p _ => In p (path :: rest) | _ => False end ->
      (r = "" \/ In r (path :: rest) /\ found_in asked r) /\ probes (path :: rest) asked ->
      (r = "" \/ In r (path :: rest) /\ found_in (c :: asked) r)
      /\ probes (path :: rest) (c :: asked)).
    { intros c asked r Hc [H1 H2]. split; [|now apply probes_cons].
      destruct H1 as [H1|[Hin H1]]; [now left|]. right. split; [exact Hin|].
      now apply found_in_cons. }
    assert (Hran : forall o (asked : list call) (r : string),
      (r = "" \/ In r (path :: rest) /\ found_in asked r) /\ probes (path :: rest) asked ->
      (r = "" \/ In r (path :: rest)
                 /\ found_in (Stat path true :: Access path true
                              :: Ran ["tail"; "-n"; "100"; path] 5 o :: asked) r)
      /\ probes (path :: rest)
                (Stat path true :: Access path true
                 :: Ran ["tail"; "-n"; "100"; path] 5 o :: asked)).
    { intros o asked r [H1 H2]. split; [|apply probes_tail; [now left | exact H2]].
      destruct H1 as [H1|[Hin H1]]; [now left|]. right. split; [exact Hin|].
      now do 3 apply found_in_cons. }
    cbn [find_ssh_log_loop]. unfold os_path_exists.
    destruct (has_char NUL path).
    { cbn [bind]. apply Hrest. }
    unfold os_access, subprocess_run, trigger. cbn [bind run calls].
    destruct (h _ (OsStat path) w) as [e w1]. cbn [call_of].
    destruct e; cbn [bind run calls]; [|apply Hmore; [now left | apply Hrest]].
    destruct (h _ (OsAccess path) w1) as [a w2]. cbn [call_of].
    destruct a; cbn [bind run calls];
      [|apply Hmore; [now left|]; apply Hmore; [now left | apply Hrest]].
    destruct (h _ (SubprocessRun ["tail"; "-n"; "100"; path] 5) w2) as [o w3].
    cbn [call_of].
    destruct o as [returncode stdout stderr| |message];
      [|apply Hran, Hrest | apply Hran, Hrest].
    destruct ((returncode =? 0) && contains "sshd" stdout) eqn:E;
      [|apply Hran, Hrest].
    apply andb_true_iff in E as [E1 E2]. apply Z.eqb_eq in E1. subst returncode.
    cbn [run calls fst]. split.
    + right. split; [now left|]. split; [now left|]. split; [right; now left|].
      exists stdout, stderr. split; [do 2 right; now left | exact E2].
    + apply probes_tail; [now left | intros c []].
Qed.

(** X18. [find_ssh_log_file] returns the empty text or one of the five
    candidate paths; a path it returns was found to exist and to be
    readable, and the [tail] of its last hundred lines exited with 0 and
    had [sshd] in its output.  It looks at the five candidates only, runs
    [tail] only on a candidate that exists and can be read, and prints
    nothing. *)
Theorem find_ssh_log_file_result W (h : handler sysE W) (w : W) :
  let path := fst (run h find_ssh_log_file w) in
  let asked := calls h find_ssh_log_file w in
  (path = "" \/ In path possible_paths /\ found_in asked path)
  /\ probes possible_paths asked.
Proof. apply find_ssh_log_loop_run. Qed.

Lemma sshd_not_blank line :
  contains "sshd" line = true -> negb (is_empty (strip line)) = true.
Proof.
  intros H. destruct (is_empty (strip line)) eqn:E; [|reflexivity].
  apply strip_empty_blank in E.
  rewrite (blank_lacks "sshd" "s" _ eq_refl eq_refl E) in H. discriminate.
Qed.

Lemma ssh_entries_loop lines : forall entries ssh_lines,
  fold_left ssh_entries_step lines (entries, ssh_lines)
  = (entries ++ omap parse_ssh_log_line lines, ssh_lines + count_sshd lines).
Proof.
  unfold count_sshd.
  induction lines as [|line rest IH]; intros entries n; simpl.
  - now rewrite app_nil_r, Z.add_0_r.
  - unfold parse_ssh_log_line at 2.
    destruct (contains "sshd" line) eqn:E.
    + rewrite (sshd_not_blank _ E). cbn [andb negb].
      fold (parse_ssh_log_line line). unfold parse_ssh_log_line at 1.
      rewrite E. cbn [negb].
      destruct (ssh_patterns_loop line ssh_patterns) as [e|];
        rewrite IH; simpl; rewrite <- ?app_assoc; f_equal; lia.
    + rewrite andb_false_r. cbn [negb]. rewrite IH. reflexivity.
Qed.

Lemma parse_ssh_logs_at_run {W} (h : handler sysE W) w log_path lines :
  let entries := fst (run h (parse_ssh_logs_at log_path lines) w) in
  let asked := calls h (parse_ssh_logs_at log_path lines) w in
  entries = []
  \/ exists n stdout stderr,
       str_of_int_checked lines = inr n
       /\ In (Stat log_path true) asked /\ In (Access log_path true) asked
       /\ In (Ran ["tail"; "-n"; n; log_path] config.COMMAND_TIMEOUT
                  (Completed 0 stdout stderr)) asked
       /\ entries = omap parse_ssh_log_line (split_chr "010" stdout)
       /\ In (Printed (processed_message (count_sshd (split_chr "010" stdout)) log_path))
             asked.
Proof.
  cbn zeta. unfold parse_ssh_logs_at.
  destruct (is_empty log_path).
  { left. unfold print, trigger. cbn. now destruct (h _ _ w). }
  unfold os_path_exists. destruct (has_char NUL log_path).
  { left. unfold print, trigger. cbn. now destruct (h _ _ w). }
  unfold os_access, subprocess_run, print, trigger. cbn [bind run calls].
  destruct (h _ (OsStat log_path) w) as [e w1]. cbn [call_of].
  destruct e; cbn [negb bind run calls];
    [|left; destruct (h _ _ w1); reflexivity].
  destruct (h _ (OsAccess log_path) w1) as [a w2]. cbn [call_of].
  destruct a; cbn [negb bind run calls];
    [|left; destruct (h _ _ w2); reflexivity].
  destruct (str_of_int_checked lines) as [message|n];
    [left; cbn; destruct (h _ _ w2); reflexivity|].
  cbn zeta. cbn [bind run calls].
  destruct (h _ (SubprocessRun _ _) w2) as [o w3]. cbn [call_of].
  destruct o as [returncode stdout stderr| |message];
    [|left; cbn; destruct (h _ _ w3); reflexivity
     |left; cbn; destruct (h _ _ w3); reflexivity].
  destruct (returncode =? 0) eqn:E;
    [|left; cbn; destruct (h _ _ w3); reflexivity].
  apply Z.eqb_eq in E. subst returncode.
  rewrite ssh_entries_loop. cbn [app Z.add bind run calls].
  destruct (h _ _ w3) as [u w4]. cbn [run fst call_of].
  right. exists n, stdout, stderr.
  split; [reflexivity|].
  split; [now left|]. split; [right; now left|]. split; [do 2 right; now left|].
  split; [reflexivity|]. do 3 right. now left.
Qed.

(** X19. [parse_ssh_logs] returns entries only from the output of a [tail]
    that exited with 0, run on a log that was found to exist and to be
    readable: the entries are those of the lines [parse_ssh_log_line]
    reads, in the order of the lines, and the number printed is the number
    of lines that carry [sshd].  The log is the one named, when one is
    named. *)
Theorem parse_ssh_logs_entries W (h : handler sysE W) (w : W)
        (log_path : option string) (lines : Z) :
  let entries := fst (run h (parse_ssh_logs log_path lines) w) in
  let asked := calls h (parse_ssh_logs log_path lines) w in
  entries = []
  \/ exists path n stdout stderr,
       (forall p, log_path = Some p -> path = p)
       /\ str_of_int_checked lines = inr n
       /\ In (Stat path true) asked /\ In (Access path true) asked
       /\ In (Ran ["tail"; "-n"; n; path] config.COMMAND_TIMEOUT
                  (Completed 0 stdout stderr)) asked
       /\ entries = omap parse_ssh_log_line (split_chr "010" stdout)
       /\ In (Printed (processed_message (count_sshd (split_chr "010" stdout)) path))
             asked.
Proof.
  cbn zeta. unfold parse_ssh_logs. rewrite run_bind, calls_bind.
  set (first := match log_path with None => find_ssh_log_file | Some p => Ret p end).
  destruct (parse_ssh_logs_at_run h (snd (run h first w)) (fst (run h first w)) lines)
    as [H|(n & stdout & stderr & Hn & Hs & Ha & Hr & He & Hp)]; [now left|].
  right. exists (fst (run h first w)), n, stdout, stderr.
  split.
  { intros p ->. reflexivity. }
  split; [exact Hn|].
  repeat split; trivial; apply in_or_app; now right.
Qed.

End LogReaders.

(** ** [get_ip_geolocation]: the caches *)

Section GeoCache.
Import Prog Geo.

Lemma geo_of_outcome_texts o geo : geo_of_outcome o = inr (Some geo) -> texts_set geo = true.
Proof.
  assert (Hor : forall v, truthy (py_or v undetermined) = true).
  { intros v. unfold py_or. destruct (truthy v) eqn:E; [exact E | reflexivity]. }
  destruct o as [message|status_code [message|data]]; simpl; try discriminate.
  - destruct (status_code =? 200); discriminate.
  - destruct (status_code =? 200); [|discriminate].
    unfold geo_of_data. destruct data; try discriminate.
    destruct (json_eqb_str _ _); [|discriminate].
    intros [= <-]. unfold texts_set. cbn [country region city isp org timezone].
    now rewrite !Hor.
Qed.

(** The outcomes of a call at time [t]. *)
Lemma call_at_time ip c t geo c' :
  validate_ip_address ip = true ->
  leaf (at_time t (get_ip_geolocation ip c)) (geo, c') ->
  (exists stamp, geolocation_cache c !! ip = Some geo
                 /\ cache_timestamps c !! ip = Some stamp
                 /\ fresh t stamp = true /\ c' = c)
  \/ (c' = store ip geo t c /\ texts_set geo = true).
Proof.
  intros Hv. unfold get_ip_geolocation. rewrite Hv. cbn [negb bind trigger at_time].
  destruct (geolocation_cache c !! ip) as [cached|] eqn:Ec;
    [destruct (cache_timestamps c !! ip) as [stamp|] eqn:Es;
     [destruct (fresh t stamp) eqn:Ef|]|].
  { cbn. intros [= <- <-]. left. exists stamp. auto. }
  all: destruct (private_text ip);
    [ cbn; intros [= <- <-]; right; split; reflexivity
    | cbn [bind leaf]; intros [o H];
      destruct (geo_of_outcome o) as [message|[g|]] eqn:Eo; cbn in H;
      [ destruct H as [_ H] | | ];
      injection H as <- <-; right; split; try reflexivity;
      now apply (geo_of_outcome_texts o) ].
Qed.

(** X20. What a call returns is in the cache afterwards, with a timestamp that
    is the time of the call or is still fresh at that time; a later call
    for the same address, as long as the timestamp is fresh, returns the
    same dictionary at once: it asks the provider nothing and leaves the
    caches as they are. *)
Theorem get_ip_geolocation_cached (c : caches) (ip : string) (t : Z)
        (geo : geo_info) (c' : caches) :
  validate_ip_address ip = true ->
  leaf (at_time t (get_ip_geolocation ip c)) (geo, c') ->
  exists stamp,
    geolocation_cache c' !! ip = Some geo
    /\ cache_timestamps c' !! ip = Some stamp
    /\ (stamp = t \/ fresh t stamp = true)
    /\ forall t', fresh t' stamp = true ->
                  at_time t' (get_ip_geolocation ip c') = Ret (geo, c').
Proof.
  intros Hv Hl.
  assert (Hagain : forall stamp t', geolocation_cache c' !! ip = Some geo ->
            cache_timestamps c' !! ip = Some stamp -> fresh t' stamp = true ->
            at_time t' (get_ip_geolocation ip c') = Ret (geo, c')).
  { intros stamp t' Hg Hs Hf. unfold get_ip_geolocation.
    rewrite Hv. cbn [negb bind trigger at_time]. now rewrite Hg, Hs, Hf. }
  destruct (call_at_time ip c t geo c' Hv Hl) as [(stamp & Hg & Hs & Hf & ->)|[-> _]].
  - exists stamp. repeat split; auto. intros t'. now apply Hagain.
  - assert (Hg : geolocation_cache (store ip geo t c) !! ip = Some geo)
      by (unfold store; cbn; apply lookup_insert_eq).
    assert (Hs : cache_timestamps (store ip geo t c) !! ip = Some t)
      by (unfold store; cbn; apply lookup_insert_eq).
    exists t. repeat split; auto. intros t'. now apply Hagain.
Qed.

Lemma get_ip_geolocation_cached_witness :
  exists stamp,
    geolocation_cache (store "192.168.1.1" local_geo_info 0 empty_caches) !! "192.168.1.1"
    = Some local_geo_info
    /\ cache_timestamps (store "192.168.1.1" local_geo_info 0 empty_caches) !! "192.168.1.1"
       = Some stamp
    /\ (stamp = 0 \/ fresh 0 stamp = true)
    /\ forall t', fresh t' stamp = true ->
                  at_time t' (get_ip_geolocation "192.168.1.1"
                                (store "192.168.1.1" local_geo_info 0 empty_caches))
                  = Ret (local_geo_info, store "192.168.1.1" local_geo_info 0 empty_caches).
Proof.
  apply (get_ip_geolocation_cached empty_caches "192.168.1.1" 0 local_geo_info
           (store "192.168.1.1" local_geo_info 0 empty_caches)).
  - vm_compute. reflexivity.
  - vm_compute. reflexivity.
Defined.

Lemma store_ok ip geo t c :
  caches_ok c -> validate_ip_address ip = true -> texts_set geo = true ->
  caches_ok (store ip geo t c).
Proof.
  intros Hc Hv Hg ip' geo'. unfold store. cbn.
  destruct (decide (ip = ip')) as [->|Hne].
  - rewrite !lookup_insert_eq. intros [= <-]. eauto.
  - rewrite !lookup_insert_ne by exact Hne. apply Hc.
Qed.

Lemma at_time_leaf {A} (p : prog geoE A) a :
  leaf p a -> (exists t, leaf (at_time t p) a).
Proof.
  destruct p as [b|X e k]; cbn; [intros ->; now exists 0|].
  destruct e; intros [x H].
  - now exists x.
  - exists 0. cbn. now exists x.
  - exists 0. cbn. now exists x.
Qed.

Lemma call_keeps_ok ip c geo c' :
  caches_ok c -> leaf (get_ip_geolocation ip c) (geo, c') ->
  texts_set geo = true /\ caches_ok c'.
Proof.
  intros Hc Hl. destruct (validate_ip_address ip) eqn:Hv.
  - apply at_time_leaf in Hl as [t Hl].
    destruct (call_at_time ip c t geo c' Hv Hl) as [(stamp & Hg & _ & _ & ->)|[-> Ht]].
    + split; [|exact Hc]. now destruct (Hc ip geo Hg) as (_ & _ & H).
    + split; [exact Ht|]. now apply store_ok.
  - unfold get_ip_geolocation in Hl. rewrite Hv in Hl. cbn in Hl.
    injection Hl as <- <-. split; [reflexivity | exact Hc].
Qed.

Lemma reachable_ok c : reachable c -> caches_ok c.
Proof.
  induction 1 as [|c ip geo c' _ IH Hl].
  - intros ip geo. cbn. now rewrite lookup_empty.
  - exact (proj2 (call_keeps_ok _ _ _ _ IH Hl)).
Qed.

(** X21. In every state the caches can be in, each key of the cache is an
    address the validator accepts and has a timestamp, and each
    dictionary cached, like each dictionary a call returns, has its six
    text entries set: none is [None] or empty. *)
Theorem get_ip_geolocation_texts_set (c : caches) :
  reachable c ->
  caches_ok c
  /\ forall ip geo c', leaf (get_ip_geolocation ip c) (geo, c') ->
                       texts_set geo = true /\ reachable c'.
Proof.
  intros Hr. pose proof (reachable_ok c Hr) as Hc. split; [exact Hc|].
  intros ip geo c' Hl. split.
  - exact (proj1 (call_keeps_ok _ _ _ _ Hc Hl)).
  - exact (reachable_call c ip geo c' Hr Hl).
Qed.

Lemma get_ip_geolocation_texts_set_witness :
  caches_ok empty_caches
  /\ forall ip geo c', leaf (get_ip_geolocation ip empty_caches) (geo, c') ->
                       texts_set geo = true /\ reachable c'.
Proof. apply (get_ip_geolocation_texts_set empty_caches). exact reachable_init. Defined.

(** X22. A call asks the provider at most once, and only about an address
    that the validator accepts and that is not private; the address asked
    is [config.IP_API_URL] followed by the text given. *)
Theorem get_ip_geolocation_requests W (h : handler geoE W) (w : W)
        (ip : string) (c : caches) :
  requests h (get_ip_geolocation ip c) w = []
  \/ requests h (get_ip_geolocation ip c) w = [config.IP_API_URL +:+ ip]
     /\ validate_ip_address ip = true /\ private_text ip = false.
Proof.
  unfold get_ip_geolocation. destruct (validate_ip_address ip); [|now left].
  cbn [negb bind trigger requests]. destruct (h _ DatetimeNow w) as [t w1].
  cbn [app].
  destruct (match geolocation_cache c !! ip with
            | Some cached =>
                match cache_timestamps c !! ip with
                | Some stamp => if fresh t stamp then Some cached else None
                | None => None
                end
            | None => None
            end) as [cached|]; [now left|].
  destruct (private_text ip); [now left|].
  right. split; [|split; reflexivity].
  cbn [bind requests]. destruct (h _ (RequestsGet _ _) w1) as [o w2].
  destruct (geo_of_outcome o) as [message|[g|]]; cbn; try reflexivity.
  now destruct (h _ (Print _) w2).
Qed.

End GeoCache.

(** ** [get_jail_status]: the values of a status *)

Section StatusValues.
Import Prog PyStr Re ReSpec Fail2banManager IpAddress.

Lemma int_of_digits_nonneg s : forall acc,
  all_chars is_digit s = true -> 0 <= acc -> 0 <= int_of_digits 10 acc s.
Proof.
  induction s as [|c s IH]; intros acc H Ha; simpl; [exact Ha|].
  simpl in H. apply andb_true_iff in H as [Hc Hs]. apply IH; [exact Hs|].
  unfold digit_val. rewrite Hc. unfold is_digit in Hc.
  apply andb_true_iff in Hc as [Hc _]. apply N.leb_le in Hc. lia.
Qed.

Lemma first_int_nonneg line n : first_int line = Some n -> 0 <= n.
Proof.
  unfold first_int.
  destruct (search (Group 0 (plus Digit)) line) as [mt|] eqn:E; [|discriminate].
  destruct (group 0 mt) as [digits|] eqn:G; [|discriminate].
  destruct (INT_MAX_STR_DIGITS <? len digits)%nat; [discriminate|].
  intros [= <-].
  assert (Hok : groups_ok (fun _ w => all_chars is_digit w = true) (Group 0 (plus Digit))).
  { split; [|exact I]. intros w Hw. now apply plus_digit_all. }
  destruct (search_sound _ _ _ _ Hok E) as (Hc & _ & _).
  apply int_of_digits_nonneg; [|lia].
  exact (captured_group _ _ _ _ Hc G).
Qed.

Lemma stripped_items s : forallb is_item (stripped_nonempty (split_chr "," s)) = true.
Proof.
  apply forallb_forall. intros x Hx.
  apply stripped_nonempty_spec in Hx as (y & Hy & -> & Hne).
  pose proof (split_parts_no_sep "," s) as Hc. rewrite List.Forall_forall in Hc.
  unfold is_item. rewrite Hne, (strip_keeps_absent _ _ (Hc y Hy)), strip_idem.
  cbn. apply String.eqb_refl.
Qed.

Lemma all_chars_snoc p w c :
  all_chars p (w +:+ String c "") = all_chars p w && p c.
Proof. rewrite all_chars_app. simpl. now rewrite andb_true_r. Qed.

Lemma split_ws_aux_tokens s : forall cur,
  match cur with Some w => is_token w = true | None => True end ->
  forallb is_token (split_ws_aux cur s) = true.
Proof.
  induction s as [|c s IH]; intros cur Hcur; simpl.
  - destruct cur; simpl; [now rewrite Hcur | reflexivity].
  - destruct (is_space c) eqn:E.
    + destruct cur as [w|]; simpl; [rewrite Hcur; cbn [andb]|]; now apply IH.
    + destruct cur as [w|]; apply IH.
      * unfold is_token in *. apply andb_true_iff in Hcur as [H1 H2].
        rewrite all_chars_snoc, H2, E. destruct w; [discriminate | reflexivity].
      * unfold is_token. simpl. now rewrite E.
Qed.

Lemma token_strip w : is_token w = true -> strip w = w.
Proof.
  unfold is_token. intros H. apply andb_true_iff in H as [_ H].
  apply strip_fixed; intros c Hc.
  - apply (all_chars_head _ _ _ H) in Hc. now apply negb_true_iff in Hc.
  - apply (all_chars_last _ _ _ H) in Hc. now apply negb_true_iff in Hc.
Qed.

Lemma stripped_tokens s : forallb is_token (stripped_nonempty (split_ws s)) = true.
Proof.
  pose proof (split_ws_aux_tokens s None I) as H. fold (split_ws s) in H.
  rewrite forallb_forall in H. apply forallb_forall. intros x Hx.
  apply stripped_nonempty_spec in Hx as (y & Hy & -> & _).
  rewrite (token_strip y (H y Hy)). now apply H.
Qed.

Lemma status_step_ok status raw status' :
  status_step status raw = Some status' -> info_ok status -> info_ok status'.
Proof.
  unfold status_step, info_ok, try_set_int.
  intros H (H1 & H2 & H3 & H4 & H5 & H6).
  repeat match type of H with
    | (if ?c then _ else _) = Some _ => destruct c eqn:?
    | mbind _ ?o = Some _ => destruct o eqn:?; simpl in H
    | None = Some _ => discriminate H
    | Some _ = Some _ => injection H as <-
    end;
  repeat match goal with
    | |- context [first_int ?l] =>
        let E := fresh "E" in
        destruct (first_int l) eqn:E; [apply first_int_nonneg in E|]
    end;
  cbn; repeat split; trivial; try apply stripped_items; try apply stripped_tokens.
Qed.

Lemma status_loop_ok lines : forall status status',
  status_loop status lines = Some status' -> info_ok status -> info_ok status'.
Proof.
  induction lines as [|raw rest IH]; intros status status'; simpl.
  - now intros [= ->].
  - destruct (status_step status raw) as [status1|] eqn:E; [|discriminate].
    intros Hl Hok. apply (IH _ _ Hl). exact (status_step_ok _ _ _ E Hok).
Qed.

(** X23. Whatever the tool answers, [get_jail_status] returns a dictionary
    for the jail asked for.  On failure it is marked disabled and carries
    an error message that is not empty.  On success its four counters are
    never negative, its actions are non-empty items without a comma or
    whitespace at either end, and its banned addresses are non-empty
    texts without whitespace. *)
Theorem get_jail_status_values W (h : handler procE W) (w : W) (jail_name : string) :
  exists status,
    fst (run h (get_jail_status jail_name) w) = Some status
    /\ match status with
       | StatusError name enabled error =>
           name = jail_name /\ enabled = false /\ is_empty error = false
       | StatusInfo info =>
           name info = jail_name /\ enabled info = true /\ info_ok info
       end.
Proof.
  unfold get_jail_status, safe_execute_command. cbn [bind run].
  destruct (h _ _ w) as [o w']. cbn [run fst].
  destruct (result_of_outcome o) as [[success stdout] stderr].
  destruct success.
  - destruct (status_of_result_defaults jail_name stdout stderr) as (st & E & Hn & He & _).
    exists (StatusInfo st). split; [exact E|]. split; [exact Hn|]. split; [exact He|].
    unfold status_of_result in E. cbn [negb] in E.
    destruct (status_loop _ _) as [st'|] eqn:El; [|discriminate].
    cbn in E. injection E as ->.
    apply (status_loop_ok _ _ _ El). unfold info_ok. cbn. repeat split; lia.
  - cbn. eexists. split; [reflexivity|]. repeat split.
    unfold str_or. destruct (is_empty stderr) eqn:E; [reflexivity | exact E].
Qed.

End StatusValues.

(** ** [execute_ban] *)

Section AppFacts.
Import Prog PyStr Fail2banManager App.

Lemma str_of_int_inj a b : str_of_int a = str_of_int b -> a = b.
Proof.
  intros H. rewrite <- (int_of_str_of_int a), <- (int_of_str_of_int b). now rewrite H.
Qed.

Lemma execute_ban_commands {W} (h : handler procE W) w jail_name ip ban_type custom_bantime :
  commands_run h (execute_ban jail_name ip ban_type custom_bantime) w = []
  \/ commands_run h (execute_ban jail_name ip ban_type custom_bantime) w
     = [banip_command jail_name ip]
  \/ exists t, t <> 0
               /\ commands_run h (execute_ban jail_name ip ban_type custom_bantime) w
                  = [bantime_command jail_name t; banip_command jail_name ip].
Proof.
  assert (Hplain : forall p, p = returning (ban_ip jail_name ip) ->
            commands_run h p w = []
            \/ commands_run h p w = [banip_command jail_name ip]
            \/ exists t, t <> 0
                 /\ commands_run h p w
                    = [bantime_command jail_name t; banip_command jail_name ip]).
  { intros p ->. unfold returning.
    assert (Hst : standard (ban_ip jail_name ip)).
    { unfold ban_ip. destruct (negb (validate_ip_address ip)); [exact I|].
      apply standard_bind; [apply standard_safe|]. intros [[[] ?] ?]; exact I. }
    rewrite commands_run_bind by exact Hst.
    rewrite ban_ip_commands.
    destruct (run h (ban_ip jail_name ip) w) as [r w']. cbn [commands_run].
    rewrite app_nil_r. destruct (validate_ip_address ip); auto. }
  assert (Htimed : forall t, t <> 0 ->
            commands_run h (ban_ip_with_time jail_name ip t) w = []
            \/ commands_run h (ban_ip_with_time jail_name ip t) w
               = [banip_command jail_name ip]
            \/ exists t', t' <> 0
                 /\ commands_run h (ban_ip_with_time jail_name ip t) w
                    = [bantime_command jail_name t'; banip_command jail_name ip]).
  { intros t Ht. rewrite ban_ip_with_time_commands.
    destruct (validate_ip_address ip); [|now left].
    destruct (str_of_int_checked t); [now left|]. right. right. now exists t. }
  unfold execute_ban. destruct (String.eqb ban_type "Permanent"); [now apply Htimed|].
  destruct custom_bantime as [t|]; [|now apply Hplain].
  destruct (String.eqb ban_type _ && negb (t =? 0)) eqn:E; [|now apply Hplain].
  apply andb_true_iff in E as [_ E]. apply negb_true_iff, Z.eqb_neq in E.
  now apply Htimed.
Qed.

(** X24. [execute_ban] never sets the ban time of a jail to 0: a custom
    duration of 0, like no duration at all, makes it a plain [ban_ip],
    which leaves the ban time of the jail alone. *)
Theorem execute_ban_never_sets_zero W (h : handler procE W) (w : W)
        (jail_name ip ban_type : string) (custom_bantime : option Z) :
  ~ In (bantime_command jail_name 0)
       (commands_run h (execute_ban jail_name ip ban_type custom_bantime) w)
  /\ (String.eqb ban_type "Permanent" = false ->
      custom_bantime = None \/ custom_bantime = Some 0 ->
      execute_ban jail_name ip ban_type custom_bantime = returning (ban_ip jail_name ip)).
Proof.
  split.
  - destruct (execute_ban_commands h w jail_name ip ban_type custom_bantime)
      as [->|[->|(t & Ht & ->)]].
    + intros [].
    + intros [H|[]]. discriminate H.
    + intros [H|[H|[]]]; [|discriminate H].
      unfold bantime_command in H. injection H as H.
      apply str_of_int_inj in H. congruence.
  - intros Hp Hc. unfold execute_ban. rewrite Hp.
    destruct Hc as [->| ->]; [reflexivity|]. now rewrite andb_false_r.
Qed.

End AppFacts.

(** ** The statistics of parsed logs *)

Section StatsOfLogs.
Import SshStats ParserSpec.

Lemma parsed_entry entry :
  parsed entry ->
  is_Some (se_ip entry) /\ is_Some (se_user entry)
  /\ default "Mot de passe incorrect" (se_failure_type entry) = "Mot de passe incorrect".
Proof.
  intros [line H].
  apply parse_ssh_log_line_complete in H
    as (_ & _ & (ts & user & ip & _ & Hu & Hi) & Hf & _).
  rewrite Hu, Hi, Hf. repeat split; eauto.
  now destruct (is_failed_password (se_action entry)).
Qed.

Lemma count_at_label label (d : gmap string Z) :
  In label failure_labels ->
  (forall l n, d !! l = Some n -> In l failure_labels) ->
  forall l n, count_at label d !! l = Some n -> In l failure_labels.
Proof.
  intros Hin Hd l n H. apply lookup_count_at_inv in H as [->|H]; [exact Hin|].
  exact (Hd l n H).
Qed.

Lemma count_at_keys_set (k : option string) (d : gmap (option string) Z) :
  is_Some k -> keys_set d -> keys_set (count_at k d).
Proof.
  intros [v ->] Hd. unfold keys_set. rewrite count_at_insert.
  now rewrite lookup_insert_ne by discriminate.
Qed.

Lemma append_at_keys_set {V} (k : option string) (x : V) (d : gmap (option string) (list V)) :
  is_Some k -> keys_set d -> keys_set (append_at k x d).
Proof.
  intros [v ->] Hd. unfold keys_set. rewrite append_at_insert.
  now rewrite lookup_insert_ne by discriminate.
Qed.

Lemma other_failure_type_label action : In (other_failure_type action) failure_labels.
Proof. destruct action; cbn; tauto. Qed.

Lemma stats_of_parsed_invariant ssh_entries :
  Forall parsed ssh_entries ->
  let st := fold_left stats_step ssh_entries initial_stats in
  (forall label n, st_failure_types st !! label = Some n -> In label failure_labels)
  /\ keys_set (st_accepted st) /\ keys_set (st_failed st)
  /\ keys_set (st_failed_password st) /\ keys_set (st_top_attacking_ips st)
  /\ keys_set (st_top_users_failed st) /\ keys_set (st_top_users_accepted st)
  /\ None ∉ st_unique_ips st.
Proof.
  cbn zeta.
  apply (stats_loop_invariant (fun seen st =>
    Forall parsed seen ->
    (forall label n, st_failure_types st !! label = Some n -> In label failure_labels)
    /\ keys_set (st_accepted st) /\ keys_set (st_failed st)
    /\ keys_set (st_failed_password st) /\ keys_set (st_top_attacking_ips st)
    /\ keys_set (st_top_users_failed st) /\ keys_set (st_top_users_accepted st)
    /\ None ∉ st_unique_ips st)).
  - intros _. cbn. unfold keys_set. rewrite !lookup_empty.
    repeat split; trivial.
    + intros label n. rewrite lookup_empty. discriminate.
    + apply not_elem_of_empty.
  - intros seen st entry IH Hall. apply Forall_app in Hall as [Hseen Hentry].
    apply Forall_cons_iff in Hentry as [Hentry _].
    destruct (IH Hseen) as (H1 & H2 & H3 & H4 & H5 & H6 & H7 & H8).
    destruct (parsed_entry entry Hentry) as (Hip & Huser & Hft).
    assert (Hu : None ∉ ({[ se_ip entry ]} ∪ st_unique_ips st : gset (option string))).
    { intros Hin. apply elem_of_union in Hin as [Hin|Hin]; [|now apply H8].
      apply elem_of_singleton in Hin. rewrite <- Hin in Hip. now destruct Hip. }
    unfold stats_step. destruct (se_action entry); cbn;
      repeat split; trivial;
      try (apply count_at_keys_set; assumption);
      try (apply append_at_keys_set; assumption).
    + apply count_at_label; [|exact H1]. rewrite Hft. cbn. tauto.
    + apply count_at_label; [|exact H1]. apply (other_failure_type_label failed).
    + apply count_at_label; [|exact H1]. apply (other_failure_type_label invalid_user).
    + apply count_at_label; [|exact H1]. apply (other_failure_type_label break_in).
Qed.

(** X25. For entries that come from [parse_ssh_log_line], the kinds of
    failure counted are among the four labels, and [None] is never a key:
    not an address in [accepted], [failed], [failed_password] or
    [top_attacking_ips], nor a user in [top_users_failed] or
    [top_users_accepted]. *)
Theorem get_ssh_connection_stats_of_parsed (ssh_entries : list ssh_entry) :
  Forall parsed ssh_entries ->
  let stats := get_ssh_connection_stats ssh_entries in
  (forall label n, st_failure_types stats !! label = Some n -> In label failure_labels)
  /\ keys_set (st_accepted stats) /\ keys_set (st_failed stats)
  /\ keys_set (st_failed_password stats) /\ keys_set (st_top_attacking_ips stats)
  /\ keys_set (st_top_users_failed stats) /\ keys_set (st_top_users_accepted stats).
Proof.
  intros H. destruct (stats_of_parsed_invariant ssh_entries H)
    as (H1 & H2 & H3 & H4 & H5 & H6 & H7 & _).
  cbn zeta. unfold get_ssh_connection_stats. cbn. repeat split; assumption.
Qed.

Lemma get_ssh_connection_stats_of_parsed_witness :
  let stats := get_ssh_connection_stats [Samples.failed_password_entry] in
  (forall label n, st_failure_types stats !! label = Some n -> In label failure_labels)
  /\ keys_set (st_accepted stats) /\ keys_set (st_failed stats)
  /\ keys_set (st_failed_password stats) /\ keys_set (st_top_attacking_ips stats)
  /\ keys_set (st_top_users_failed stats) /\ keys_set (st_top_users_accepted stats).
Proof.
  apply (get_ssh_connection_stats_of_parsed [Samples.failed_password_entry]).
  repeat constructor. exists Samples.failed_password_line. vm_compute. reflexivity.
Defined.

End StatsOfLogs.

(** ** [generate_report_data] *)

Section ReportFacts.
Import Prog PyStr Fail2banManager Report.

Lemma get_failed_absent j : get (items j) "failed" (VInt 0) = VInt 0.
Proof. destruct j; reflexivity. Qed.

Lemma get_enabled_item j :
  truthy (get (items j) "enabled" (VBool false)) = get_enabled j.
Proof. destruct j; reflexivity. Qed.

Lemma sum_failed jails_data :
  sum (map (fun j => get (items j) "failed" (VInt 0)) jails_data) = Some 0.
Proof.
  induction jails_data as [|j rest IH]; [reflexivity|].
  cbn [map sum]. rewrite IH, get_failed_absent. reflexivity.
Qed.

Lemma filter_ext_length {A} (f g : A -> bool) l :
  (forall x, f x = g x) -> length (List.filter f l) = length (List.filter g l).
Proof.
  intros H. induction l as [|x l IH]; [reflexivity|]. simpl. rewrite H.
  destruct (g x); simpl; now rewrite IH.
Qed.

(** X26. [generate_report_data] returns a report, whatever the status
    dictionaries hold.  Its [total_failures] is always 0: the key [failed]
    it adds up is not a key of the dictionaries [get_jail_status] builds.
    The number of active jails is between 0 and the number of jails, and
    the number of banned addresses is never negative. *)
Theorem generate_report_data_summary W (h : handler clockE W) (w : W)
        (jails_data : list jail_status) (banned_ips : gmap string (list string)) :
  exists r,
    fst (run h (generate_report_data jails_data banned_ips) w) = Some r
    /\ total_failures (report_summary r) = 0
    /\ total_jails (report_summary r) = Z.of_nat (length jails_data)
    /\ active_jails (report_summary r)
       = Z.of_nat (length (List.filter get_enabled jails_data))
    /\ 0 <= active_jails (report_summary r) <= total_jails (report_summary r)
    /\ 0 <= total_banned_ips (report_summary r)
    /\ jails r = jails_data /\ report_banned_ips r = banned_ips.
Proof.
  unfold generate_report_data, trigger. cbn [bind run].
  destruct (h _ _ w) as [timestamp w']. cbn [run fst].
  rewrite sum_failed. cbn [mbind option_bind].
  eexists. split; [reflexivity|].
  cbn [report_summary total_failures total_jails active_jails total_banned_ips
       jails report_banned_ips].
  rewrite (filter_ext_length _ get_enabled _ get_enabled_item).
  repeat split; try lia.
  - pose proof (filter_length_le get_enabled jails_data). lia.
  - apply (map_fold_weak_ind (fun r _ => 0 <= r)); [lia|].
    intros i x m r _ Hr. lia.
Qed.

End ReportFacts.
